(** * dynamolock v3: the lock lifecycle engine of the DynamoDB lock client

    A shallow embedding of [v3/client_common.go] and [v3/client_sortkey.go].
    Store items are finite maps from attribute names to attribute values,
    condition expressions are kept as syntax trees, Go's [(value, error)]
    returns are pairs of options, and every effect of the client (store
    calls, clock readings, random strings, waiting on the context) goes
    through an abstract runtime, so that the theorems hold for every
    implementation of the [DynamoDBClient] interface. *)

From Stdlib Require Import ZArith Lia List.
From Stdlib.Strings Require Import Byte Ascii String.
From stdpp Require Import base option gmap strings pretty list fin_maps.

Set Warnings "-register-all".

Local Open Scope Z_scope.
Local Open Scope string_scope.
Local Open Scope list_scope.

(** ** Go values *)

(** A Go [[]byte]: [None] is the nil slice, [Some []] an empty one. *)
Abbreviation bytes := (option (list Byte.byte)).

#[global] Instance byte_eq_decision : EqDecision Byte.byte := Byte.byte_eq_dec.

(** [len(b)] of a byte slice. *)
Definition bytes_len (b : bytes) : nat :=
  match b with
  | None => O
  | Some l => length l
  end.

(** [time.Duration] is an int64 count of nanoseconds. *)
Abbreviation Duration := Z (only parsing).

(** [time.Time], as nanoseconds on the wall clock. *)
Abbreviation Time := Z (only parsing).

Definition Second : Duration := 1000000000.

Definition maxDuration : Duration := 2 ^ 63 - 1.
Definition minDuration : Duration := - 2 ^ 63.

(** Two's complement wrap-around of int64 arithmetic. *)
Definition wrap64 (z : Z) : Z := (z + 2 ^ 63) mod 2 ^ 64 - 2 ^ 63.

(** [a + b] on [time.Duration]. *)
Definition Duration_add (a b : Duration) : Duration := wrap64 (a + b).

(** [time.Time{}], the zero time: January 1, year 1. *)
Definition zeroTime : Time := -62135596800 * Second.

(** [t.Sub(u)]: the difference, saturated to the range of a Duration. *)
Definition time_Sub (t u : Time) : Duration :=
  Z.max minDuration (Z.min maxDuration (t - u)).

(** ** Store items and expressions *)

(** [types.AttributeValue]: the members the client reads or writes, and
    three more that a row may hold. *)
Inductive AttributeValue : Type :=
  | AttributeValueMemberS (Value : string)
  | AttributeValueMemberB (Value : bytes)
  | AttributeValueMemberN (Value : string)
  | AttributeValueMemberBOOL (Value : bool)
  | AttributeValueMemberNULL.

#[global] Instance AttributeValue_eq_dec : EqDecision AttributeValue.
Proof. solve_decision. Defined.

(** [map[string]types.AttributeValue]. A nil map reads as the empty map. *)
Abbreviation item := (gmap string AttributeValue).

Definition stringAttrValue (s : string) : AttributeValue := AttributeValueMemberS s.
Definition bytesAttrValue (b : bytes) : AttributeValue := AttributeValueMemberB b.

Definition readStringAttr (attr : option AttributeValue) : string :=
  match attr with
  | Some (AttributeValueMemberS s) => s
  | _ => ""
  end.

Definition readBytesAttr (attr : option AttributeValue) : bytes :=
  match attr with
  | Some (AttributeValueMemberB b) => b
  | _ => None
  end.

(** [expression.ConditionBuilder], for the operators the client uses. *)
Inductive ConditionBuilder : Type :=
  | AttributeExists (name : string)
  | AttributeNotExists (name : string)
  | Equal (name : string) (value : AttributeValue)
  | And (l r : ConditionBuilder)
  | Or (l r : ConditionBuilder).

#[global] Instance ConditionBuilder_eq_dec : EqDecision ConditionBuilder.
Proof. solve_decision. Defined.

(** [expression.UpdateBuilder]: the SET clauses, in the order added. *)
Definition UpdateBuilder : Type := list (string * AttributeValue).

Definition attrData : string := "data".
Definition attrOwnerName : string := "ownerName".
Definition attrLeaseDuration : string := "leaseDuration".
Definition attrRecordVersionNumber : string := "recordVersionNumber".
Definition attrIsReleased : string := "isReleased".

Definition defaultBuffer : Duration := 1 * Second.
Definition defaultLeaseDuration : Duration := 20 * Second.
Definition defaultHeartbeatPeriod : Duration := 5 * Second.

Definition dataAttr : string := attrData.
Definition ownerNameAttr : string := attrOwnerName.
Definition leaseDurationAttr : string := attrLeaseDuration.
Definition rvnAttr : string := attrRecordVersionNumber.
Definition isReleasedAttr : string := attrIsReleased.

Definition isReleasedAttrVal : AttributeValue := AttributeValueMemberS "1".

(** ** Errors *)

(** Modelled from the spec: the error types are declared outside the
    files at hand ([ErrClientClosed] apart). These are the error kinds of
    the specification that the client builds or passes on; a
    [LockNotGrantedError] carries its cause, which a timeout sets. *)
Inductive error : Type :=
  | ErrClientClosed
  | ErrCannotReleaseNullLock
  | ErrOwnerMismatched
  | ErrReservedAttribute (partitionKeyName : string)
  | ErrParseLeaseDuration (lease : string)
  | LockNotGrantedError (msg : string) (cause : option error)
  | TimeoutError (Age : Duration)
  | ConditionalCheckFailedException
  | StoreError (msg : string)
  | ContextError (msg : string).

(** [errors.As(err, &errNotGranted)] for a [*LockNotGrantedError] target:
    only a [LockNotGrantedError] starts a chain of causes, so the test is
    on the error itself. *)
Definition isLockNotGranted (e : error) : bool :=
  match e with
  | LockNotGrantedError _ _ => true
  | _ => false
  end.

(** Modelled from the spec: [parseDynamoDBError] is declared outside the
    files at hand. A condition-check failure of the store is a distinct
    error kind that the engine turns into [LockNotGranted]; any other store
    error is passed on as it is. *)
Definition parseDynamoDBError (err : error) (msg : string) : error :=
  match err with
  | ConditionalCheckFailedException => LockNotGrantedError msg (Some err)
  | _ => err
  end.

(** ** Store requests *)

Record GetItemInput : Type := mkGetItemInput {
  gi_ConsistentRead : bool;
  gi_TableName : string;
  gi_Key : item
}.

(** [GetItemOutput.Item] is nil when the row is absent. *)
Record GetItemOutput : Type := mkGetItemOutput {
  go_Item : option item
}.

Record PutItemInput : Type := mkPutItemInput {
  pi_Item : item;
  pi_TableName : string;
  pi_Condition : ConditionBuilder
}.

Record UpdateItemInput : Type := mkUpdateItemInput {
  ui_TableName : string;
  ui_Key : item;
  ui_Update : UpdateBuilder;
  ui_Condition : ConditionBuilder
}.

Record DeleteItemInput : Type := mkDeleteItemInput {
  di_TableName : string;
  di_Key : item;
  di_Condition : ConditionBuilder
}.

Inductive KeyType : Type := KeyTypeHash | KeyTypeRange.

Record CreateTableInput : Type := mkCreateTableInput {
  ct_TableName : string;
  ct_KeySchema : list (string * KeyType);
  ct_BillingMode : string;
  ct_AttributeDefinitions : list (string * string);
  ct_ProvisionedThroughput : option (Z * Z);
  ct_Tags : list (string * string)
}.

(** What the client asks of the outside world and what it is answered,
    in the order asked. *)
Inductive Event : Type :=
  | EvGetItem (req : GetItemInput) (res : GetItemOutput + error)
  | EvPutItem (req : PutItemInput) (err : option error)
  | EvUpdateItem (req : UpdateItemInput) (err : option error)
  | EvDeleteItem (req : DeleteItemInput) (err : option error)
  | EvCreateTable (req : CreateTableInput) (res : option string * option error)
  | EvSleep (d : Duration) (done : option error).

Definition isStoreCall (e : Event) : bool :=
  match e with
  | EvSleep _ _ => false
  | _ => true
  end.

(** ** Locks and options *)

(** Modelled from the spec: the [sessionMonitor] struct is declared
    outside the files at hand; it holds the safe time and the callback. The
    callback is a Go closure, named here by a number; [None] is a nil
    callback. *)
Record sessionMonitor : Type := mkSessionMonitor {
  safeTime : Duration;
  callback : option nat
}.

(** Modelled from the spec: the [Lock] struct is declared outside the
    files at hand; its fields are those of the specification's data model,
    which are the ones the client sets and reads. Its mutex and its
    [releaseLock] closure (which only calls back into the client) carry no
    data. No handle built by the client sets a sort key. *)
Record Lock : Type := mkLock {
  lk_partitionKey : string;
  lk_sortKey : option string;
  lk_data : bytes;
  lk_deleteLockOnRelease : bool;
  lk_ownerName : string;
  lk_leaseDuration : Duration;
  lk_lookupTime : Time;
  lk_recordVersionNumber : string;
  lk_isReleased : bool;
  lk_additionalAttributes : item;
  lk_sessionMonitor : option sessionMonitor
}.

(** [&Lock{}]. *)
Definition emptyLock : Lock :=
  mkLock "" None None false "" 0 zeroTime "" false ∅ None.

(** Modelled from the spec: [Lock.uniqueIdentifier] is declared outside the
    files at hand; it is the partition key, plus the sort key when one is
    configured. *)
Definition uniqueIdentifier (l : Lock) : string :=
  String.append (lk_partitionKey l) (default "" (lk_sortKey l)).

(** Modelled from the spec: [Lock.isExpired] at clock reading [now] is true
    if [isReleased] or [now - lookupTime >= leaseDuration]. *)
Definition isExpired (l : Lock) (now : Time) : bool :=
  lk_isReleased l || (lk_leaseDuration l <=? time_Sub now (lk_lookupTime l))%Z.

(** Modelled from the spec: [Lock.AdditionalAttributes] gives the
    additional attributes of an existing row, none for a nil lock. *)
Definition AdditionalAttributes (l : option Lock) : item :=
  match l with
  | Some l => lk_additionalAttributes l
  | None => ∅
  end.

(** Modelled from the spec: [Lock.updateRVN] advances the handle in place. *)
Definition updateRVN (l : Lock) (rvn : string) (lastUpdate : Time)
    (leaseDuration : Duration) : Lock :=
  mkLock (lk_partitionKey l) (lk_sortKey l) (lk_data l)
    (lk_deleteLockOnRelease l) (lk_ownerName l) leaseDuration lastUpdate rvn
    (lk_isReleased l) (lk_additionalAttributes l) (lk_sessionMonitor l).

Definition set_isReleased (l : Lock) (b : bool) : Lock :=
  mkLock (lk_partitionKey l) (lk_sortKey l) (lk_data l)
    (lk_deleteLockOnRelease l) (lk_ownerName l) (lk_leaseDuration l)
    (lk_lookupTime l) (lk_recordVersionNumber l) b
    (lk_additionalAttributes l) (lk_sessionMonitor l).

(** Modelled from the spec: the [acquireLockOptions] struct is declared
    outside the files at hand; its fields are the ones the option
    functions set. *)
Record acquireLockOptions : Type := mkAcquireLockOptions {
  opt_partitionKey : string;
  opt_data : bytes;
  opt_replaceData : bool;
  opt_failIfLocked : bool;
  opt_deleteLockOnRelease : bool;
  opt_refreshPeriod : Duration;
  opt_additionalTimeToWaitForLock : Duration;
  opt_additionalAttributes : item;
  opt_sessionMonitor : option sessionMonitor
}.

Definition AcquireLockOption : Type := acquireLockOptions -> acquireLockOptions.

Definition WithData (b : bytes) : AcquireLockOption := fun opt =>
  mkAcquireLockOptions (opt_partitionKey opt) b (opt_replaceData opt)
    (opt_failIfLocked opt) (opt_deleteLockOnRelease opt) (opt_refreshPeriod opt)
    (opt_additionalTimeToWaitForLock opt) (opt_additionalAttributes opt)
    (opt_sessionMonitor opt).

Definition ReplaceData : AcquireLockOption := fun opt =>
  mkAcquireLockOptions (opt_partitionKey opt) (opt_data opt) true
    (opt_failIfLocked opt) (opt_deleteLockOnRelease opt) (opt_refreshPeriod opt)
    (opt_additionalTimeToWaitForLock opt) (opt_additionalAttributes opt)
    (opt_sessionMonitor opt).

Definition FailIfLocked : AcquireLockOption := fun opt =>
  mkAcquireLockOptions (opt_partitionKey opt) (opt_data opt) (opt_replaceData opt)
    true (opt_deleteLockOnRelease opt) (opt_refreshPeriod opt)
    (opt_additionalTimeToWaitForLock opt) (opt_additionalAttributes opt)
    (opt_sessionMonitor opt).

Definition WithDeleteLockOnRelease : AcquireLockOption := fun opt =>
  mkAcquireLockOptions (opt_partitionKey opt) (opt_data opt) (opt_replaceData opt)
    (opt_failIfLocked opt) true (opt_refreshPeriod opt)
    (opt_additionalTimeToWaitForLock opt) (opt_additionalAttributes opt)
    (opt_sessionMonitor opt).

Definition WithRefreshPeriod (d : Duration) : AcquireLockOption := fun opt =>
  mkAcquireLockOptions (opt_partitionKey opt) (opt_data opt) (opt_replaceData opt)
    (opt_failIfLocked opt) (opt_deleteLockOnRelease opt) d
    (opt_additionalTimeToWaitForLock opt) (opt_additionalAttributes opt)
    (opt_sessionMonitor opt).

Definition WithAdditionalTimeToWaitForLock (d : Duration) : AcquireLockOption :=
  fun opt =>
  mkAcquireLockOptions (opt_partitionKey opt) (opt_data opt) (opt_replaceData opt)
    (opt_failIfLocked opt) (opt_deleteLockOnRelease opt) (opt_refreshPeriod opt)
    d (opt_additionalAttributes opt) (opt_sessionMonitor opt).

Definition WithAdditionalAttributes (attr : item) : AcquireLockOption := fun opt =>
  mkAcquireLockOptions (opt_partitionKey opt) (opt_data opt) (opt_replaceData opt)
    (opt_failIfLocked opt) (opt_deleteLockOnRelease opt) (opt_refreshPeriod opt)
    (opt_additionalTimeToWaitForLock opt) attr (opt_sessionMonitor opt).

Definition WithSessionMonitor (safe : Duration) (cb : option nat) : AcquireLockOption :=
  fun opt =>
  mkAcquireLockOptions (opt_partitionKey opt) (opt_data opt) (opt_replaceData opt)
    (opt_failIfLocked opt) (opt_deleteLockOnRelease opt) (opt_refreshPeriod opt)
    (opt_additionalTimeToWaitForLock opt) (opt_additionalAttributes opt)
    (Some (mkSessionMonitor safe cb)).

(** [for _, o := range opts { o(opt) }]. *)
Definition applyOptions {A : Type} (opts : list (A -> A)) (opt : A) : A :=
  fold_left (fun acc o => o acc) opts opt.

(** Modelled from the spec: the [getLockOptions] struct is declared
    outside the files at hand; its fields are the ones the engine reads and
    writes. [lockTryingToBeAcquired] is nil until a live lock is seen. *)
Record getLockOptions : Type := mkGetLockOptions {
  glo_partitionKey : string;
  glo_deleteLockOnRelease : bool;
  glo_sessionMonitor : option sessionMonitor;
  glo_start : Time;
  glo_replaceData : bool;
  glo_data : bytes;
  glo_additionalAttributes : item;
  glo_failIfLocked : bool;
  glo_millisecondsToWait : Duration;
  glo_refreshPeriodDuration : Duration;
  glo_lockTryingToBeAcquired : option Lock;
  glo_alreadySleptOnceForOneLeasePeriod : bool
}.

Definition set_additionalAttributes (o : getLockOptions) (a : item) : getLockOptions :=
  mkGetLockOptions (glo_partitionKey o) (glo_deleteLockOnRelease o)
    (glo_sessionMonitor o) (glo_start o) (glo_replaceData o) (glo_data o) a
    (glo_failIfLocked o) (glo_millisecondsToWait o) (glo_refreshPeriodDuration o)
    (glo_lockTryingToBeAcquired o) (glo_alreadySleptOnceForOneLeasePeriod o).

Definition set_lockTryingToBeAcquired (o : getLockOptions) (l : option Lock)
    : getLockOptions :=
  mkGetLockOptions (glo_partitionKey o) (glo_deleteLockOnRelease o)
    (glo_sessionMonitor o) (glo_start o) (glo_replaceData o) (glo_data o)
    (glo_additionalAttributes o) (glo_failIfLocked o) (glo_millisecondsToWait o)
    (glo_refreshPeriodDuration o) l (glo_alreadySleptOnceForOneLeasePeriod o).

Definition set_alreadySlept (o : getLockOptions) (b : bool) (ms : Duration)
    : getLockOptions :=
  mkGetLockOptions (glo_partitionKey o) (glo_deleteLockOnRelease o)
    (glo_sessionMonitor o) (glo_start o) (glo_replaceData o) (glo_data o)
    (glo_additionalAttributes o) (glo_failIfLocked o) ms
    (glo_refreshPeriodDuration o) (glo_lockTryingToBeAcquired o) b.

(** Modelled from the spec: the [releaseLockOptions] struct is declared
    outside the files at hand; its fields are the ones [releaseLock] sets
    and reads. *)
Record releaseLockOptions : Type := mkReleaseLockOptions {
  rlo_lockItem : option nat;
  rlo_deleteLock : bool;
  rlo_data : bytes
}.

Definition ReleaseLockOption : Type := releaseLockOptions -> releaseLockOptions.

Definition WithDeleteLock (deleteLock : bool) : ReleaseLockOption := fun opt =>
  mkReleaseLockOptions (rlo_lockItem opt) deleteLock (rlo_data opt).

Definition WithDataAfterRelease (data : bytes) : ReleaseLockOption := fun opt =>
  mkReleaseLockOptions (rlo_lockItem opt) (rlo_deleteLock opt) data.

(** Modelled from the spec: the [createDynamoDBTableOptions] struct is
    declared outside the files at hand; its fields are the ones
    [createTable] reads. *)
Record createDynamoDBTableOptions : Type := mkCreateTableOptions {
  cto_billingMode : string;
  cto_provisionedThroughput : option (Z * Z);
  cto_tags : option (list (string * string))
}.

Definition CreateTableOption : Type :=
  createDynamoDBTableOptions -> createDynamoDBTableOptions.

Definition WithTags (tags : list (string * string)) : CreateTableOption := fun opt =>
  mkCreateTableOptions (cto_billingMode opt) (cto_provisionedThroughput opt) (Some tags).

Definition WithProvisionedThroughput (pt : option (Z * Z)) : CreateTableOption :=
  fun opt => mkCreateTableOptions "PROVISIONED" pt (cto_tags opt).

(** ** The outside world *)

(** [DynamoDBClient] is an interface; the clock, the random source, the
    caller's context and the two [time] functions the client uses on
    durations are outside the package as well. A runtime gives all of them
    over a world [W] that each effect may change. *)
Class Runtime (W : Type) : Type := {
  GetItem : GetItemInput -> W -> (GetItemOutput + error) * W;
  PutItem : PutItemInput -> W -> option error * W;
  UpdateItem : UpdateItemInput -> W -> option error * W;
  DeleteItem : DeleteItemInput -> W -> option error * W;
  CreateTable : CreateTableInput -> W -> (option string * option error) * W;
  (** [time.Now()] *)
  time_Now : W -> Time * W;
  (** [randString(n)] *)
  randString : nat -> W -> string * W;
  (** [ctx.Err()] *)
  ctx_Err : W -> option error;
  (** [select { case <-ctx.Done(): ... case <-time.After(d): }]: the
      context's error when it is done first. *)
  ctx_wait : Duration -> W -> option error * W;
  (** [time.ParseDuration] *)
  ParseDuration : string -> option Duration;
  (** [Duration.String] *)
  Duration_String : Duration -> string
}.

(** ** Client state *)

(** The [commonClient] struct. [locks] maps a unique identifier to the
    address of the held handle; [sessionMonitorCancellations] maps a
    monitor name to the context of its watcher. [heartbeatStopped] records
    that [stopHeartbeat] ran, [closeOnce] that the once has fired. *)
Record commonClient : Type := mkCommonClient {
  tableName : string;
  partitionKeyName : string;
  leaseDuration : Duration;
  heartbeatPeriod : Duration;
  ownerName : string;
  locks : gmap string nat;
  sessionMonitorCancellations : gmap string nat;
  heartbeatStopped : bool;
  closeOnce : bool;
  closed : bool
}.

Definition set_locks (c : commonClient) (m : gmap string nat) : commonClient :=
  mkCommonClient (tableName c) (partitionKeyName c) (leaseDuration c)
    (heartbeatPeriod c) (ownerName c) m (sessionMonitorCancellations c)
    (heartbeatStopped c) (closeOnce c) (closed c).

Definition set_sessionMonitorCancellations (c : commonClient) (m : gmap string nat)
    : commonClient :=
  mkCommonClient (tableName c) (partitionKeyName c) (leaseDuration c)
    (heartbeatPeriod c) (ownerName c) (locks c) m
    (heartbeatStopped c) (closeOnce c) (closed c).

Definition set_closed (c : commonClient) : commonClient :=
  mkCommonClient (tableName c) (partitionKeyName c) (leaseDuration c)
    (heartbeatPeriod c) (ownerName c) (locks c) (sessionMonitorCancellations c)
    true true true.

(** The program state: the world, the log of what was asked of it, the
    heap of [*Lock] handles, the watcher goroutines started (context,
    monitor name, handle), the contexts cancelled so far, and the client. *)
Record State (W : Type) : Type := mkState {
  world : W;
  trace : list Event;
  heap : gmap nat Lock;
  monitors : list (string * nat);
  cancelled : list nat;
  client : commonClient
}.

Arguments mkState {W} _ _ _ _ _ _.
Arguments world {W} _.
Arguments trace {W} _.
Arguments heap {W} _.
Arguments monitors {W} _.
Arguments cancelled {W} _.
Arguments client {W} _.

(** The state monad of the client's methods. *)
Definition M (W A : Type) : Type := State W -> A * State W.

Definition ret {W A : Type} (a : A) : M W A := fun st => (a, st).

Definition bind {W A B : Type} (m : M W A) (k : A -> M W B) : M W B :=
  fun st => let (a, st') := m st in k a st'.

Notation "x <- m ;; k" := (bind m (fun x => k))
  (at level 100, m at next level, right associativity).

Section Client.

Context {W : Type} `{RT : Runtime W}.

(** One effect of the runtime, with the event it leaves in the log. *)
Definition perform {A : Type} (ev : A -> option Event) (f : W -> A * W) : M W A :=
  fun st =>
    let (a, w) := f (world st) in
    (a, mkState w
          (match ev a with
           | Some e => app (trace st) [e]
           | None => trace st
           end)
          (heap st) (monitors st) (cancelled st) (client st)).

Definition silent {A : Type} (a : A) : option Event := None.

Definition getClient : M W commonClient := fun st => (client st, st).

Definition putClient (c : commonClient) : M W unit := fun st =>
  (tt, mkState (world st) (trace st) (heap st) (monitors st) (cancelled st) c).

(** [&Lock{...}]: a handle at a new address. *)
Definition alloc (l : Lock) : M W nat := fun st =>
  let p := fresh (dom (heap st)) in
  (p, mkState (world st) (trace st) (<[p := l]> (heap st)) (monitors st)
        (cancelled st) (client st)).

(** Reading through a [*Lock]. *)
Definition deref (p : nat) : M W Lock := fun st =>
  (default emptyLock (heap st !! p), st).

(** Writing through a [*Lock]. *)
Definition store (p : nat) (l : Lock) : M W unit := fun st =>
  (tt, mkState (world st) (trace st) (<[p := l]> (heap st)) (monitors st)
         (cancelled st) (client st)).

Definition now : M W Time := perform silent time_Now.

Definition isClosed : M W bool := c <- getClient ;; ret (closed c).

(** [c.generateRecordVersionNumber()] *)
Definition generateRecordVersionNumber : M W string :=
  perform silent (randString 32).

(** ** Session monitors *)

(** [tryAddSessionMonitor]: starts the watcher goroutine and keeps its
    cancel function under the lock's name. The watcher itself runs
    concurrently; only its start and its cancellation show here. *)
Definition tryAddSessionMonitor (lockName : string) (p : nat) : M W unit :=
  lock <- deref p ;;
  match lk_sessionMonitor lock with
  | Some sm =>
      match callback sm with
      | Some _ => fun st =>
          let ctx := length (monitors st) in
          let c := client st in
          (tt, mkState (world st) (trace st) (heap st)
                 (monitors st ++ [(lockName, p)]) (cancelled st)
                 (set_sessionMonitorCancellations c
                    (<[lockName := ctx]> (sessionMonitorCancellations c))))
      | None => ret tt
      end
  | None => ret tt
  end.

(** [removeKillSessionMonitor]: calls the cancel function kept under the
    name, when there is one. *)
Definition removeKillSessionMonitor (monitorName : string) : M W unit :=
  c <- getClient ;;
  match sessionMonitorCancellations c !! monitorName with
  | None => ret tt
  | Some ctx => fun st =>
      (tt, mkState (world st) (trace st) (heap st) (monitors st)
             (cancelled st ++ [ctx]) (client st))
  end.

(** ** Reading a lock row *)

Definition readFromDynamoDB (partitionKey : string) : M W (GetItemOutput + error) :=
  c <- getClient ;;
  let dynamoDBKey : item := {[ partitionKeyName c := stringAttrValue partitionKey ]} in
  let req := mkGetItemInput true (tableName c) dynamoDBKey in
  perform (fun res => Some (EvGetItem req res)) (GetItem req).

Definition createLockItem (opt : getLockOptions) (it : item)
    : M W (option Lock * option error) :=
  c <- getClient ;;
  let data := match it !! attrData with
              | Some r => readBytesAttr (Some r)
              | None => None
              end in
  let it := delete attrData it in
  let ownerName := readStringAttr (it !! attrOwnerName) in
  let it := delete attrOwnerName it in
  let leaseDuration := readStringAttr (it !! attrLeaseDuration) in
  let it := delete attrLeaseDuration it in
  let recordVersionNumber := readStringAttr (it !! attrRecordVersionNumber) in
  let it := delete attrRecordVersionNumber it in
  let isReleased := bool_decide (is_Some (it !! attrIsReleased)) in
  let it := delete attrIsReleased it in
  let it := delete (partitionKeyName c) it in
  lookupTime <- now ;;
  let parsed : Duration + error :=
    if String.eqb leaseDuration "" then inl 0
    else match ParseDuration leaseDuration with
         | Some d => inl d
         | None => inr (ErrParseLeaseDuration leaseDuration)
         end in
  match parsed with
  | inr err => ret (None, Some err)
  | inl parsedLeaseDuration =>
      ret (Some (mkLock (glo_partitionKey opt) None data
                   (glo_deleteLockOnRelease opt) ownerName parsedLeaseDuration
                   lookupTime recordVersionNumber isReleased it None),
           None)
  end.

Definition getLockFromDynamoDB (opt : getLockOptions)
    : M W (option Lock * option error) :=
  res <- readFromDynamoDB (glo_partitionKey opt) ;;
  match res with
  | inr err => ret (None, Some err)
  | inl out =>
      match go_Item out with
      | None => ret (None, None)
      | Some it => createLockItem opt it
      end
  end.

(** ** Writing a lock row *)

Definition putLockItemAndStartSessionMonitor
    (additionalAttributes : item) (partitionKey : string)
    (deleteLockOnRelease : bool) (newLockData : bytes)
    (recordVersionNumber : string) (sm : option sessionMonitor)
    (putItemRequest : PutItemInput) : M W (option nat * option error) :=
  c <- getClient ;;
  lastUpdatedTime <- now ;;
  err <- perform (fun err => Some (EvPutItem putItemRequest err))
           (PutItem putItemRequest) ;;
  match err with
  | Some e =>
      ret (None, Some (parseDynamoDBError e
        "cannot store lock item: lock already acquired by other client"))
  | None =>
      let lockItem :=
        mkLock partitionKey None newLockData deleteLockOnRelease (ownerName c)
          (leaseDuration c) lastUpdatedTime recordVersionNumber false
          additionalAttributes sm in
      p <- alloc lockItem ;;
      _ <- putClient (set_locks c (<[uniqueIdentifier lockItem := p]> (locks c))) ;;
      _ <- tryAddSessionMonitor (uniqueIdentifier lockItem) p ;;
      ret (Some p, None)
  end.

Definition upsertAndMonitorExpiredLock
    (additionalAttributes : item) (partitionKey : string)
    (deleteLockOnRelease : bool) (existingLock : Lock) (newLockData : bytes)
    (it : item) (recordVersionNumber : string) (sm : option sessionMonitor)
    : M W (option nat * option error) :=
  c <- getClient ;;
  let cond :=
    And (AttributeExists (partitionKeyName c))
        (Equal rvnAttr (AttributeValueMemberS (lk_recordVersionNumber existingLock))) in
  let putItemRequest := mkPutItemInput it (tableName c) cond in
  putLockItemAndStartSessionMonitor additionalAttributes partitionKey
    deleteLockOnRelease newLockData recordVersionNumber sm putItemRequest.

Definition upsertAndMonitorNewOrReleasedLock
    (additionalAttributes : item) (partitionKey : string)
    (deleteLockOnRelease : bool) (newLockData : bytes)
    (it : item) (recordVersionNumber : string) (sm : option sessionMonitor)
    : M W (option nat * option error) :=
  c <- getClient ;;
  let cond :=
    Or (AttributeNotExists (partitionKeyName c))
       (And (AttributeExists (partitionKeyName c))
            (Equal isReleasedAttr isReleasedAttrVal)) in
  let req := mkPutItemInput it (tableName c) cond in
  putLockItemAndStartSessionMonitor additionalAttributes partitionKey
    deleteLockOnRelease newLockData recordVersionNumber sm req.

(** ** One acquisition attempt *)

(** The payload of the proposed item. *)
Definition newLockData (o : getLockOptions) (existingLock : option Lock) : bytes :=
  let d := if glo_replaceData o then glo_data o
           else match existingLock with
                | Some l => lk_data l
                | None => None
                end in
  match d with
  | None => glo_data o
  | Some _ => d
  end.

(** The merged attributes: the existing row's first, then the caller's. *)
Definition mergedAdditionalAttributes (o : getLockOptions)
    (existingLock : option Lock) : item :=
  glo_additionalAttributes o ∪ AdditionalAttributes existingLock.

(** The proposed item. *)
Definition proposedItem (c : commonClient) (o : getLockOptions)
    (data : bytes) (recordVersionNumber : string) : item :=
  let it := glo_additionalAttributes o in
  let it := <[partitionKeyName c := stringAttrValue (glo_partitionKey o)]> it in
  let it := <[attrOwnerName := stringAttrValue (ownerName c)]> it in
  let it := <[attrLeaseDuration :=
                stringAttrValue (Duration_String (leaseDuration c))]> it in
  let it := <[attrRecordVersionNumber := stringAttrValue recordVersionNumber]> it in
  match data with
  | Some _ => <[attrData := bytesAttrValue data]> it
  | None => it
  end.

(** The errors of a put that the attempt swallows. *)
Definition swallowNotGranted (r : option nat * option error)
    : option nat * option error :=
  match r with
  | (l, Some err) => if isLockNotGranted err then (None, None) else (l, Some err)
  | (l, None) => (l, None)
  end.

(** The budget check at the end of [storeLock]. *)
Definition checkBudget (o : getLockOptions) : M W (option nat * option error) :=
  t1 <- now ;;
  let t := time_Sub t1 (glo_start o) in
  if (glo_millisecondsToWait o <? t)%Z
  then ret (None, Some (LockNotGrantedError "Didn't acquire lock after sleeping"
                          (Some (TimeoutError t))))
  else ret (None, None).

(** [storeLock]: the options are behind a pointer, so the attempt gives
    them back as it left them. *)
Definition storeLock (o : getLockOptions)
    : M W (getLockOptions * (option nat * option error)) :=
  c <- getClient ;;
  r <- getLockFromDynamoDB o ;;
  match r with
  | (_, Some err) => ret (o, (None, Some err))
  | (existingLock, None) =>
      let data := newLockData o existingLock in
      let o := set_additionalAttributes o (mergedAdditionalAttributes o existingLock) in
      recordVersionNumber <- generateRecordVersionNumber ;;
      let it := proposedItem c o data recordVersionNumber in
      match existingLock with
      | None =>
          r <- upsertAndMonitorNewOrReleasedLock (glo_additionalAttributes o)
                 (glo_partitionKey o) (glo_deleteLockOnRelease o) data it
                 recordVersionNumber (glo_sessionMonitor o) ;;
          ret (o, swallowNotGranted r)
      | Some existing =>
          if lk_isReleased existing then
            r <- upsertAndMonitorNewOrReleasedLock (glo_additionalAttributes o)
                   (glo_partitionKey o) (glo_deleteLockOnRelease o) data it
                   recordVersionNumber (glo_sessionMonitor o) ;;
            ret (o, swallowNotGranted r)
          else
            match glo_lockTryingToBeAcquired o with
            | None =>
                if glo_failIfLocked o then
                  ret (o, (None, Some (LockNotGrantedError
                    "Didn't acquire lock because it is locked and request is configured not to retry."
                    None)))
                else
                  let o := set_lockTryingToBeAcquired o (Some existing) in
                  let o :=
                    if glo_alreadySleptOnceForOneLeasePeriod o then o
                    else set_alreadySlept o true
                           (Duration_add (glo_millisecondsToWait o)
                                         (lk_leaseDuration existing)) in
                  r <- checkBudget o ;;
                  ret (o, r)
            | Some inFlight =>
                if String.eqb (lk_recordVersionNumber inFlight)
                              (lk_recordVersionNumber existing)
                then
                  t <- now ;;
                  if isExpired inFlight t then
                    r <- upsertAndMonitorExpiredLock (glo_additionalAttributes o)
                           (glo_partitionKey o) (glo_deleteLockOnRelease o)
                           existing data it recordVersionNumber
                           (glo_sessionMonitor o) ;;
                    ret (o, swallowNotGranted r)
                  else
                    r <- checkBudget o ;;
                    ret (o, r)
                else
                  let o := set_lockTryingToBeAcquired o (Some existing) in
                  r <- checkBudget o ;;
                  ret (o, r)
            end
      end
  end.

(** ** Acquire *)

(** [contains(ks...)] over the caller's additional attributes. *)
Definition contains (attrs : item) (ks : list string) : bool :=
  existsb (fun k => bool_decide (is_Some (attrs !! k))) ks.

Definition reservedNames (c : commonClient) : list string :=
  [partitionKeyName c; attrOwnerName; attrLeaseDuration;
   attrRecordVersionNumber; attrData].

(** The end of a turn of the loop of [acquireLock]: wait for a refresh
    period or for the context, then go on with [next]. *)
Definition waitRefresh (o : getLockOptions)
    (next : M W (option (option nat * option error)))
    : M W (option (option nat * option error)) :=
  let d := glo_refreshPeriodDuration o in
  done <- perform (fun done => Some (EvSleep d done)) (ctx_wait d) ;;
  match done with
  | Some err => ret (Some (None, Some err))
  | None => next
  end.

(** The [for] loop of [acquireLock]; [None] when the fuel runs out with
    the loop still going. *)
Fixpoint acquireLoop (fuel : nat) (o : getLockOptions)
    : M W (option (option nat * option error)) :=
  match fuel with
  | O => ret None
  | S fuel =>
      r <- storeLock o ;;
      match r with
      | (_, (_, Some err)) => ret (Some (None, Some err))
      | (_, (Some l, None)) => ret (Some (Some l, None))
      | (o, (None, None)) => waitRefresh o (acquireLoop fuel o)
      end
  end.

Definition initialGetLockOptions (opt : acquireLockOptions) (start : Time)
    : getLockOptions :=
  mkGetLockOptions (opt_partitionKey opt) (opt_deleteLockOnRelease opt)
    (opt_sessionMonitor opt) start (opt_replaceData opt) (opt_data opt)
    (opt_additionalAttributes opt) (opt_failIfLocked opt)
    (if (0 <? opt_additionalTimeToWaitForLock opt)%Z
     then opt_additionalTimeToWaitForLock opt else defaultBuffer)
    (if (0 <? opt_refreshPeriod opt)%Z
     then opt_refreshPeriod opt else defaultBuffer)
    None false.

Definition acquireLock (fuel : nat) (partitionKey : string)
    (opts : list AcquireLockOption) : M W (option (option nat * option error)) :=
  isclosed <- isClosed ;;
  if isclosed then ret (Some (None, Some ErrClientClosed)) else
  let opt := applyOptions opts
    (mkAcquireLockOptions partitionKey None false false false 0 0 ∅ None) in
  c <- getClient ;;
  if closed c then ret (Some (None, Some ErrClientClosed)) else
  let attrs := opt_additionalAttributes opt in
  if contains attrs (reservedNames c)
  then ret (Some (None, Some (ErrReservedAttribute (partitionKeyName c))))
  else
    start <- now ;;
    acquireLoop fuel (initialGetLockOptions opt start).

(** ** Release *)

Definition ownershipLockCondition (partitionKeyName recordVersionNumber ownerName : string)
    : ConditionBuilder :=
  And (And (AttributeExists partitionKeyName)
           (Equal rvnAttr (AttributeValueMemberS recordVersionNumber)))
      (Equal ownerNameAttr (AttributeValueMemberS ownerName)).

Definition getItemKeys (c : commonClient) (lockItem : Lock) : item :=
  {[ partitionKeyName c := stringAttrValue (lk_partitionKey lockItem) ]}.

Definition deleteLock (ownershipLockCond : ConditionBuilder) (key : item)
    : M W (option error) :=
  c <- getClient ;;
  let deleteItemRequest := mkDeleteItemInput (tableName c) key ownershipLockCond in
  perform (fun err => Some (EvDeleteItem deleteItemRequest err))
    (DeleteItem deleteItemRequest).

Definition updateLock (data : bytes) (ownershipLockCond : ConditionBuilder)
    (key : item) : M W (option error) :=
  c <- getClient ;;
  let update : UpdateBuilder := [(isReleasedAttr, isReleasedAttrVal)] in
  let update := if (0 <? bytes_len data)%nat
                then app update [(dataAttr, AttributeValueMemberB data)]
                else update in
  let updateItemRequest :=
    mkUpdateItemInput (tableName c) key update ownershipLockCond in
  perform (fun err => Some (EvUpdateItem updateItemRequest err))
    (UpdateItem updateItemRequest).

Definition releaseLock (lockItem : option nat) (opts : list ReleaseLockOption)
    : M W (option error) :=
  c <- getClient ;;
  match lockItem with
  | None => ret (Some ErrCannotReleaseNullLock)
  | Some p =>
      l <- deref p ;;
      let options := applyOptions opts
        (mkReleaseLockOptions (Some p) (lk_deleteLockOnRelease l) None) in
      let deleteLock_ := rlo_deleteLock options in
      let data := rlo_data options in
      if negb (String.eqb (lk_ownerName l) (ownerName c))
      then ret (Some ErrOwnerMismatched)
      else
        _ <- store p (set_isReleased l true) ;;
        _ <- putClient (set_locks c (delete (uniqueIdentifier l) (locks c))) ;;
        let key := getItemKeys c l in
        let ownershipLockCond :=
          ownershipLockCondition (partitionKeyName c) (lk_recordVersionNumber l)
            (lk_ownerName l) in
        err <- (if deleteLock_ then deleteLock ownershipLockCond key
                else updateLock data ownershipLockCond key) ;;
        match err with
        | Some e => ret (Some e)
        | None =>
            _ <- removeKillSessionMonitor (uniqueIdentifier l) ;;
            ret None
        end
  end.

Definition ReleaseLock (lockItem : option nat) (opts : list ReleaseLockOption)
    : M W (bool * option error) :=
  isclosed <- isClosed ;;
  if isclosed then ret (false, Some ErrClientClosed) else
  err <- releaseLock lockItem opts ;;
  ret (bool_decide (err = None), err).

(** The body of [c.locks.Range] in [releaseAllLocks], over the entries in
    the order visited: it goes on while the releases succeed. *)
Fixpoint releaseRange (entries : list (string * nat)) (err : option error)
    : M W (option error) :=
  match entries with
  | [] => ret err
  | (_, value) :: rest =>
      err <- releaseLock (Some value) [] ;;
      match err with
      | None => releaseRange rest None
      | Some e => ret (Some e)
      end
  end.

(** [sync.Map.Range] leaves the order open; the entries are taken in the
    order of the registry's listing. *)
Definition releaseAllLocks : M W (option error) :=
  c <- getClient ;;
  releaseRange (map_to_list (locks c)) None.

(** ** Get *)

Definition get (partitionKey : string) : M W (option nat * option error) :=
  isclosed <- isClosed ;;
  if isclosed then ret (None, Some ErrClientClosed) else
  cerr <- perform silent (fun w => (ctx_Err w, w)) ;;
  match cerr with
  | Some err => ret (None, Some err)
  | None =>
      c <- getClient ;;
      let getLockOption :=
        mkGetLockOptions partitionKey false None zeroTime false None ∅ false 0 0
          None false in
      let keyName := glo_partitionKey getLockOption in
      match locks c !! keyName with
      | Some v => ret (Some v, None)
      | None =>
          r <- getLockFromDynamoDB getLockOption ;;
          match r with
          | (_, Some err) => ret (None, Some err)
          | (None, None) => p <- alloc emptyLock ;; ret (Some p, None)
          | (Some lockItem, None) =>
              p <- alloc (updateRVN lockItem "" zeroTime (lk_leaseDuration lockItem)) ;;
              ret (Some p, None)
          end
      end
  end.

(** ** Close *)

Definition Close : M W (option error) :=
  c <- getClient ;;
  if closeOnce c then ret (Some ErrClientClosed) else
  err <- releaseAllLocks ;;
  c <- getClient ;;
  _ <- putClient (set_closed c) ;;
  ret err.

(** ** CreateTable *)

Definition createTableSchema : Type :=
  list (string * KeyType) * list (string * string).

Definition createTable (cts : createTableSchema) (opt : createDynamoDBTableOptions)
    : M W (option string * option error) :=
  c <- getClient ;;
  let (keySchema, attributeDefinitions) := cts in
  let createTableInput :=
    mkCreateTableInput (tableName c) keySchema (cto_billingMode opt)
      attributeDefinitions (cto_provisionedThroughput opt)
      (default [] (cto_tags opt)) in
  perform (fun res => Some (EvCreateTable createTableInput res))
    (CreateTable createTableInput).

Definition commonClient_CreateTable (cts : createTableSchema)
    (opts : list CreateTableOption) : M W (option string * option error) :=
  isclosed <- isClosed ;;
  if isclosed then ret (None, Some ErrClientClosed) else
  let createTableOptions :=
    applyOptions opts (mkCreateTableOptions "PAY_PER_REQUEST" None None) in
  createTable cts createTableOptions.

(** ** The client with a sort key *)

(** [ClientWithSortKey] embeds the common client, which lives in the
    state, and adds the sort key's name. *)
Record ClientWithSortKey : Type := mkClientWithSortKey {
  sortKeyName : string
}.

Definition AcquireLock (cs : ClientWithSortKey) (fuel : nat)
    (partitionKey sortKey : string) (opts : list AcquireLockOption)
    : M W (option (option nat * option error)) :=
  acquireLock fuel partitionKey opts.

Definition Get (cs : ClientWithSortKey) (partitionKey sortKey : string)
    : M W (option nat * option error) :=
  get partitionKey.

Definition ClientWithSortKey_createTableSchema (cs : ClientWithSortKey)
    (c : commonClient) : createTableSchema :=
  ([(partitionKeyName c, KeyTypeHash); (sortKeyName cs, KeyTypeRange)],
   [(partitionKeyName c, "S"); (sortKeyName cs, "S")]).

Definition ClientWithSortKey_CreateTable (cs : ClientWithSortKey)
    (opts : list CreateTableOption) : M W (option string * option error) :=
  c <- getClient ;;
  commonClient_CreateTable (ClientWithSortKey_createTableSchema cs c) opts.

End Client.

(** ** A store double *)

(** An in-memory table behind the [DynamoDBClient] interface, with a
    clock, a script of faults and of writes by other clients, and a
    deadline for the caller's context. It runs the scenarios below. *)
Module MemStore.

(** What happens as a store call comes in: nothing, a failure of the call,
    or a write by another client that lands just before it. *)
Inductive Fault : Type :=
  | Pass
  | Fail (e : error)
  | Interfere (k : string) (row : option item).

Record World : Type := mkWorld {
  rows : gmap string item;
  hashKey : string;
  clock : Z;
  latency : Z;
  seed : nat;
  script : list Fault;
  deadline : option Z
}.

Definition lookupAttr (row : option item) (name : string) : option AttributeValue :=
  match row with
  | Some r => r !! name
  | None => None
  end.

(** A condition expression against the stored row. *)
Fixpoint evalCond (cond : ConditionBuilder) (row : option item) : bool :=
  match cond with
  | AttributeExists n => bool_decide (is_Some (lookupAttr row n))
  | AttributeNotExists n => negb (bool_decide (is_Some (lookupAttr row n)))
  | Equal n v => bool_decide (lookupAttr row n = Some v)
  | And l r => evalCond l row && evalCond r row
  | Or l r => evalCond l row || evalCond r row
  end.

(** The start of a store call: the call takes [latency], and the next
    entry of the script applies. *)
Definition enter (w : World) : option error * World :=
  let t := (clock w + latency w)%Z in
  match script w with
  | [] =>
      (None, mkWorld (rows w) (hashKey w) t (latency w) (seed w) [] (deadline w))
  | Pass :: s =>
      (None, mkWorld (rows w) (hashKey w) t (latency w) (seed w) s (deadline w))
  | Fail e :: s =>
      (Some e, mkWorld (rows w) (hashKey w) t (latency w) (seed w) s (deadline w))
  | Interfere k row :: s =>
      (None, mkWorld (match row with
                      | Some r => <[k := r]> (rows w)
                      | None => delete k (rows w)
                      end)
               (hashKey w) t (latency w) (seed w) s (deadline w))
  end.

Definition set_rows (w : World) (r : gmap string item) : World :=
  mkWorld r (hashKey w) (clock w) (latency w) (seed w) (script w) (deadline w).

Definition keyOf (w : World) (key : item) : string :=
  readStringAttr (key !! hashKey w).

Definition getItem (req : GetItemInput) (w : World)
    : (GetItemOutput + error) * World :=
  match enter w with
  | (Some e, w) => (inr e, w)
  | (None, w) => (inl (mkGetItemOutput (rows w !! keyOf w (gi_Key req))), w)
  end.

Definition putItem (req : PutItemInput) (w : World) : option error * World :=
  match enter w with
  | (Some e, w) => (Some e, w)
  | (None, w) =>
      let k := keyOf w (pi_Item req) in
      if evalCond (pi_Condition req) (rows w !! k)
      then (None, set_rows w (<[k := pi_Item req]> (rows w)))
      else (Some ConditionalCheckFailedException, w)
  end.

Definition applyUpdate (u : UpdateBuilder) (row : item) : item :=
  fold_left (fun r kv => <[fst kv := snd kv]> r) u row.

Definition updateItem (req : UpdateItemInput) (w : World) : option error * World :=
  match enter w with
  | (Some e, w) => (Some e, w)
  | (None, w) =>
      let k := keyOf w (ui_Key req) in
      if evalCond (ui_Condition req) (rows w !! k)
      then (None, set_rows w
              (<[k := applyUpdate (ui_Update req)
                        (default (ui_Key req) (rows w !! k))]> (rows w)))
      else (Some ConditionalCheckFailedException, w)
  end.

Definition deleteItem (req : DeleteItemInput) (w : World) : option error * World :=
  match enter w with
  | (Some e, w) => (Some e, w)
  | (None, w) =>
      let k := keyOf w (di_Key req) in
      if evalCond (di_Condition req) (rows w !! k)
      then (None, set_rows w (delete k (rows w)))
      else (Some ConditionalCheckFailedException, w)
  end.

Definition createTable (req : CreateTableInput) (w : World)
    : (option string * option error) * World :=
  match enter w with
  | (Some e, w) => ((None, Some e), w)
  | (None, w) => ((Some (ct_TableName req), None), w)
  end.

Definition letterRunes : string :=
  "1234567890abcdefghijklmnopqrstuvwxyzABCDEFGHIJKLMNOPQRSTUVWXYZ".

Fixpoint randRunes (n : nat) (s : Z) : string :=
  match n with
  | O => ""
  | S n =>
      String (default "0"%char (String.get (Z.to_nat (s mod 62)) letterRunes))
             (randRunes n ((s * 31 + 7) mod 1000003)%Z)
  end.

Definition rand (n : nat) (w : World) : string * World :=
  (randRunes n (Z.of_nat (seed w)),
   mkWorld (rows w) (hashKey w) (clock w) (latency w) (S (seed w)) (script w)
     (deadline w)).

Definition ctxErr (w : World) : option error :=
  match deadline w with
  | Some d => if (d <=? clock w)%Z then Some (ContextError "context canceled") else None
  | None => None
  end.

Definition set_clock (w : World) (t : Z) : World :=
  mkWorld (rows w) (hashKey w) t (latency w) (seed w) (script w) (deadline w).

Definition wait (d : Z) (w : World) : option error * World :=
  match deadline w with
  | Some dl =>
      if (dl <=? clock w + d)%Z
      then (Some (ContextError "context canceled"), set_clock w (Z.max (clock w) dl))
      else (None, set_clock w (clock w + d))
  | None => (None, set_clock w (clock w + d))
  end.

Definition digitOf (c : ascii) : option Z :=
  let n := Z.of_nat (nat_of_ascii c) in
  if ((48 <=? n) && (n <=? 57))%Z then Some (n - 48)%Z else None.

Fixpoint parseDigits (s : string) (acc : Z) : Z * string :=
  match s with
  | EmptyString => (acc, EmptyString)
  | String c r =>
      match digitOf c with
      | Some d => parseDigits r (acc * 10 + d)%Z
      | None => (acc, s)
      end
  end.

(** [time.ParseDuration], for a decimal count of seconds or nanoseconds. *)
Definition parseDuration (s : string) : option Z :=
  match s with
  | EmptyString => None
  | String c _ =>
      match digitOf c with
      | None => None
      | Some _ =>
          let (n, u) := parseDigits s 0 in
          if String.eqb u "s" then Some (n * Second)%Z
          else if String.eqb u "ns" then Some n
          else None
      end
  end.

(** [Duration.String], as Go prints whole seconds below a minute. *)
Definition durationString (d : Z) : string :=
  if (d mod Second =? 0)%Z
  then String.append (pretty (d / Second)%Z) "s"
  else String.append (pretty d) "ns".

#[global] Instance runtime : Runtime World := {
  GetItem := getItem;
  PutItem := putItem;
  UpdateItem := updateItem;
  DeleteItem := deleteItem;
  CreateTable := createTable;
  time_Now := fun w => (clock w, w);
  randString := rand;
  ctx_Err := ctxErr;
  ctx_wait := wait;
  ParseDuration := parseDuration;
  Duration_String := durationString
}.

(** A client as [newCommon] leaves it, with heartbeats disabled. *)
Definition newClient (owner : string) (lease : Z) : commonClient :=
  mkCommonClient "locks" "key" lease 0 owner ∅ ∅ false false false.

Definition emptyWorld : World := mkWorld ∅ "key" 0 1000000 0 [] None.

Definition start (w : World) (c : commonClient) : State World :=
  mkState w [] ∅ [] [] c.

(** The same program state seen by another client. *)
Definition switch (st : State World) (c : commonClient) : State World :=
  mkState (world st) (trace st) (heap st) (monitors st) (cancelled st) c.

(** An attribute of the row stored under a key. *)
Definition storedAttr (st : State World) (k name : string) : option AttributeValue :=
  lookupAttr (rows (world st) !! k) name.

End MemStore.

(** ** Vocabulary of the theorems *)

Section Stated.

Context {W : Type} `{RT : Runtime W}.

(** Two states of one run between which only the world and the log moved. *)
Definition sameClient (st st' : State W) : Prop :=
  heap st' = heap st /\ monitors st' = monitors st /\
  cancelled st' = cancelled st /\ client st' = client st.

(** Two values of the client that differ at most in the registry of held
    locks and in the monitor cancellations. *)
Definition sameConfig (c c' : commonClient) : Prop :=
  tableName c' = tableName c /\ partitionKeyName c' = partitionKeyName c /\
  leaseDuration c' = leaseDuration c /\ ownerName c' = ownerName c /\
  closed c' = closed c.

(** Two values of the options of one acquire: what the caller asked for
    stays as it was. *)
Definition sameRequest (o o' : getLockOptions) : Prop :=
  glo_partitionKey o' = glo_partitionKey o /\
  glo_deleteLockOnRelease o' = glo_deleteLockOnRelease o /\
  glo_sessionMonitor o' = glo_sessionMonitor o /\
  glo_start o' = glo_start o /\
  glo_replaceData o' = glo_replaceData o /\
  glo_data o' = glo_data o /\
  glo_failIfLocked o' = glo_failIfLocked o /\
  glo_refreshPeriodDuration o' = glo_refreshPeriodDuration o.

(** The message of a refused put. *)
Definition refused : string :=
  "cannot store lock item: lock already acquired by other client".

(** The error of the budget check after [t]. *)
Definition timedOut (t : Z) : error :=
  LockNotGrantedError "Didn't acquire lock after sleeping" (Some (TimeoutError t)).

(** The error of a fail-fast acquire on a live lock. *)
Definition failedFast : error :=
  LockNotGrantedError
    "Didn't acquire lock because it is locked and request is configured not to retry."
    None.

(** The options an attempt leaves behind its pointer when its read showed
    [existing]: the merged attributes, and on a live lock the lock being
    waited for and, once, the longer budget. *)
Definition optionsAfter (o : getLockOptions) (existing : option Lock) : getLockOptions :=
  let o := set_additionalAttributes o (mergedAdditionalAttributes o existing) in
  match existing with
  | None => o
  | Some ex =>
      if lk_isReleased ex then o
      else match glo_lockTryingToBeAcquired o with
           | None =>
               if glo_failIfLocked o then o
               else
                 let o := set_lockTryingToBeAcquired o (Some ex) in
                 if glo_alreadySleptOnceForOneLeasePeriod o then o
                 else set_alreadySlept o true
                        (Duration_add (glo_millisecondsToWait o) (lk_leaseDuration ex))
           | Some inFlight =>
               if String.eqb (lk_recordVersionNumber inFlight)
                             (lk_recordVersionNumber ex)
               then o
               else set_lockTryingToBeAcquired o (Some ex)
           end
  end.

(** The budget of an acquire that started with [base]: [base] until a
    live lock has been seen, and from then on [base] plus the lease
    duration of the first one seen. *)
Definition budgetOf (base : Z) (o : getLockOptions) : Prop :=
  match glo_lockTryingToBeAcquired o with
  | None =>
      glo_alreadySleptOnceForOneLeasePeriod o = false /\
      glo_millisecondsToWait o = base
  | Some _ =>
      glo_alreadySleptOnceForOneLeasePeriod o = true /\
      exists first,
        lk_isReleased first = false /\
        glo_millisecondsToWait o = Duration_add base (lk_leaseDuration first)
  end.

(** The events logged between two states of one run. *)
Definition newEvents (st st' : State W) : list Event :=
  drop (length (trace st)) (trace st').

(** The read request for a partition key. *)
Definition readRequest (c : commonClient) (partitionKey : string) : GetItemInput :=
  mkGetItemInput true (tableName c)
    {[ partitionKeyName c := stringAttrValue partitionKey ]}.

(** The payload policy in the specification's words:
    [newData = replaceData ? opt.data : (existing.data ?? opt.data)]. *)
Definition payloadPolicy (replaceData : bool) (callerData : bytes)
    (existing : option Lock) : bytes :=
  if replaceData then callerData
  else match existing with
       | Some l =>
           match lk_data l with
           | Some x => Some x
           | None => callerData
           end
       | None => callerData
       end.

(** *** Sentences of the specification that the code does not follow

    Expired takeover, as worded: whenever the read shows the RVN seen
    before and the lock seen before has expired, the attempt issues one
    put, under "partition key exists and RVN as seen before". *)
Definition expiredTakeoverAsStated (o : getLockOptions) (st : State W) : Prop :=
  forall inFlight existing st1,
    glo_lockTryingToBeAcquired o = Some inFlight ->
    getLockFromDynamoDB o st = ((Some existing, None), st1) ->
    lk_recordVersionNumber existing = lk_recordVersionNumber inFlight ->
    isExpired inFlight (fst (now (snd (generateRecordVersionNumber st1)))) = true ->
    exists req resp,
      newEvents st1 (snd (storeLock o st)) = [EvPutItem req resp] /\
      pi_Condition req =
        And (AttributeExists (partitionKeyName (client st)))
            (Equal rvnAttr (AttributeValueMemberS (lk_recordVersionNumber inFlight))).

(** Release, as worded: once past the nil and owner checks, the session
    monitor kept under the lock's name is cancelled. *)
Definition releaseCancelsMonitorAsStated (p : nat) (opts : list ReleaseLockOption)
    (st : State W) : Prop :=
  forall l ctx,
    heap st !! p = Some l ->
    lk_ownerName l = ownerName (client st) ->
    sessionMonitorCancellations (client st) !! uniqueIdentifier l = Some ctx ->
    In ctx (cancelled (snd (ReleaseLock (Some p) opts st))).

(** The budget check, as worded: an attempt that grants no lock, ending
    later than the budget allows, ends in [LockNotGranted] wrapping a
    [Timeout]. *)
Definition timeoutAsStated (o : getLockOptions) (st : State W) : Prop :=
  forall o' l err st',
    storeLock o st = ((o', (l, err)), st') ->
    l = None ->
    (glo_millisecondsToWait o' < time_Sub (fst (now st')) (glo_start o))%Z ->
    exists msg age,
      err = Some (LockNotGrantedError msg (Some (TimeoutError age))).

(** Close, as worded: the first call releases every lock of the registry,
    so that each handle is marked released. *)
Definition closeReleasesEveryLockAsStated (st : State W) : Prop :=
  closeOnce (client st) = false ->
  forall k p, locks (client st) !! k = Some p ->
    exists l, heap (snd (Close st)) !! p = Some l /\ lk_isReleased l = true.

End Stated.

(** ** Scenarios on the store double *)

Module Scenario.

Import MemStore.

Definition clientA : commonClient := newClient "A" (20 * Second).
Definition clientB : commonClient := newClient "B" (20 * Second).

Definition defaultOptions (pk : string) : acquireLockOptions :=
  mkAcquireLockOptions pk None false false false 0 0 ∅ None.

(** The state [d] later on the clock. *)
Definition later (d : Z) (st : State World) : State World :=
  mkState (set_clock (world st) (clock (world st) + d)) (trace st) (heap st)
    (monitors st) (cancelled st) (client st).

(** The state with a script for the store calls to come. *)
Definition scripted (s : list Fault) (st : State World) : State World :=
  let w := world st in
  mkState (mkWorld (rows w) (hashKey w) (clock w) (latency w) (seed w) s (deadline w))
    (trace st) (heap st) (monitors st) (cancelled st) (client st).

(** A acquires "k" with data [01] on an empty table. *)
Definition afterA : State World :=
  snd (acquireLock 1 "k" [WithData (Some [x01])] (start emptyWorld clientA)).

(** B's first attempt sees A's live lock. *)
Definition optionsB0 : getLockOptions := initialGetLockOptions (defaultOptions "k") 0.
Definition afterB1 : State World := snd (storeLock optionsB0 (switch afterA clientB)).
Definition optionsB1 : getLockOptions :=
  fst (fst (storeLock optionsB0 (switch afterA clientB))).

(** A releases its lock without deleting the row; thirty seconds later B
    is about to try again. *)
Definition afterRelease : State World :=
  snd (ReleaseLock (Some 0%nat) [] (switch afterB1 (client afterA))).
Definition beforeB2 : State World := later (30 * Second) (switch afterRelease clientB).

(** A holds "k" with a session monitor, and the store is about to fail. *)
Definition monitored : State World :=
  scripted [Fail (StoreError "unavailable")]
    (snd (acquireLock 1 "k" [WithSessionMonitor (4 * Second) (Some 7%nat)]
            (start emptyWorld clientA))).

(** B's acquire begins at time 0 on an empty table behind a slow store,
    where each call takes a minute; A's row lands between B's read and
    B's put. *)
Definition rowOfA : item :=
  default ∅ (rows (world afterA) !! "k").
Definition slowWorld : World := mkWorld ∅ "key" 0 (60 * Second) 0 [] None.
Definition raced : State World :=
  scripted [Pass; Interfere "k" (Some rowOfA)] (start slowWorld clientB).

(** A holds "k1" and "k2", and the store is about to fail once. *)
Definition twoLocks : State World :=
  scripted [Fail (StoreError "unavailable")]
    (snd (acquireLock 1 "k2" []
            (snd (acquireLock 1 "k1" [] (start emptyWorld clientA))))).

(** A released "k" holding data [01]; B acquires it offering data [02]. *)
Definition released : State World :=
  switch (snd (ReleaseLock (Some 0%nat) [] afterA)) clientB.

(** B acquires "k" on an empty table with a user attribute [isReleased]. *)
Definition userIsReleased : item :=
  {[ attrIsReleased := AttributeValueMemberS "0" ]}.

(** What the read of an attempt shows, and the state it leaves. *)
Definition readAt (o : getLockOptions) (st : State World) : Lock :=
  default emptyLock (fst (fst (getLockFromDynamoDB o st))).
Definition afterRead (o : getLockOptions) (st : State World) : State World :=
  snd (getLockFromDynamoDB o st).

(** The lock of A that B waits for after its first attempt. *)
Definition inFlightA : Lock :=
  default emptyLock (glo_lockTryingToBeAcquired optionsB1).

(** Thirty seconds after B's first attempt, A having neither refreshed nor
    released its lock. *)
Definition expired : State World := later (30 * Second) afterB1.

(** B's options when it offers data [02] for "k". *)
Definition optionsWithData : getLockOptions :=
  initialGetLockOptions (WithData (Some [x02]) (defaultOptions "k")) 0.

(** The handle of A after its acquire. *)
Definition handleA : Lock := default emptyLock (heap afterA !! 0%nat).

(** A took "k" with a lease of two seconds and no heartbeat; three seconds
    later B is about to ask for it. *)
Definition shortLease : State World :=
  later (3 * Second)
    (switch (snd (acquireLock 1 "k" [] (start emptyWorld (newClient "A" (2 * Second)))))
       clientB).

End Scenario.

(** ** Constructors *)

(** The errors the constructors build with [errors.New]: a heartbeat period
    above half the lease, and an empty sort key name. *)
Inductive constructionError : Type :=
  | ErrHeartbeatPeriod
  | ErrSortKeyName.

(** [ClientOption]. The three logger options change the logger alone,
    which is not part of the state here. *)
Definition ClientOption : Type := commonClient -> commonClient.

Definition WithOwnerName (s : string) : ClientOption := fun c =>
  mkCommonClient (tableName c) (partitionKeyName c) (leaseDuration c)
    (heartbeatPeriod c) s (locks c) (sessionMonitorCancellations c)
    (heartbeatStopped c) (closeOnce c) (closed c).

Definition WithLeaseDuration (d : Duration) : ClientOption := fun c =>
  mkCommonClient (tableName c) (partitionKeyName c) d
    (heartbeatPeriod c) (ownerName c) (locks c) (sessionMonitorCancellations c)
    (heartbeatStopped c) (closeOnce c) (closed c).

Definition WithHeartbeatPeriod (d : Duration) : ClientOption := fun c =>
  mkCommonClient (tableName c) (partitionKeyName c) (leaseDuration c)
    d (ownerName c) (locks c) (sessionMonitorCancellations c)
    (heartbeatStopped c) (closeOnce c) (closed c).

Definition DisableHeartbeat : ClientOption := WithHeartbeatPeriod 0.

(** The options a caller can build. *)
Inductive isClientOption : ClientOption -> Prop :=
  | isWithOwnerName s : isClientOption (WithOwnerName s)
  | isWithLeaseDuration d : isClientOption (WithLeaseDuration d)
  | isWithHeartbeatPeriod d : isClientOption (WithHeartbeatPeriod d).

Section Constructors.

Context {W : Type} `{RT : Runtime W}.

(** [newCommon]: the client, and whether the heartbeat goroutine was
    started. The owner name is drawn before the options apply. *)
Definition newCommon (tableName partitionKeyName : string)
    (opts : list ClientOption) (w : W)
    : (option (commonClient * bool) * option constructionError) * W :=
  let (owner, w) := randString 32 w in
  let c := applyOptions opts
             (mkCommonClient tableName partitionKeyName defaultLeaseDuration
                defaultHeartbeatPeriod owner ∅ ∅ false false false) in
  if (leaseDuration c <? wrap64 (2 * heartbeatPeriod c))%Z
  then ((None, Some ErrHeartbeatPeriod), w)
  else ((Some (c, (0 <? heartbeatPeriod c)%Z), None), w).

Definition NewWithSortKey (tableName partitionKeyName sortKeyName : string)
    (opts : list ClientOption) (w : W)
    : (option (commonClient * bool * ClientWithSortKey) * option constructionError) * W :=
  if String.eqb sortKeyName "" then ((None, Some ErrSortKeyName), w)
  else
    match newCommon tableName partitionKeyName opts w with
    | ((Some cb, None), w) => ((Some (cb, mkClientWithSortKey sortKeyName), None), w)
    | ((_, Some err), w) => ((None, Some err), w)
    | ((None, None), w) => ((None, None), w)
    end.

End Constructors.

(** ** Random strings *)

Definition letterRunes : string :=
  "1234567890abcdefghijklmnopqrstuvwxyzABCDEFGHIJKLMNOPQRSTUVWXYZ".

(** [randString(n)] over the [n] numbers that [rand.Int] draws, one for
    each rune; [None] where [letterRunes[r]] would be out of range. *)
Fixpoint randStringOf (draws : list nat) : option string :=
  match draws with
  | [] => Some ""
  | r :: rest =>
      match String.get r letterRunes, randStringOf rest with
      | Some ch, Some s => Some (String ch s)
      | _, _ => None
      end
  end.

(** ** The registry of held locks *)

(** Every entry of the registry points to a handle of the heap that goes
    by the entry's name, belongs to the client and is not released. *)
Definition registryOK {W : Type} (st : State W) : Prop :=
  forall k p,
    locks (client st) !! k = Some p ->
    exists l,
      heap st !! p = Some l /\ uniqueIdentifier l = k /\
      lk_ownerName l = ownerName (client st) /\ lk_isReleased l = false.

(** The two conditions under which an acquire puts a row. *)
Definition newOrReleasedCondition (partitionKeyName : string) : ConditionBuilder :=
  Or (AttributeNotExists partitionKeyName)
     (And (AttributeExists partitionKeyName)
          (Equal attrIsReleased (AttributeValueMemberS "1"))).

Definition expiredCondition (partitionKeyName rvn : string) : ConditionBuilder :=
  And (AttributeExists partitionKeyName)
      (Equal attrRecordVersionNumber (AttributeValueMemberS rvn)).

(** The watcher that a put starts for a session monitor, if any. *)
Definition startsMonitor (sm : option sessionMonitor) : bool :=
  match sm with
  | Some m => match callback m with Some _ => true | None => false end
  | None => false
  end.

(** What a granted put leaves: a new handle [l] at the address [p], entered
    in the registry under [name]; a watcher started and its cancel function
    kept under [name] when the handle has a session monitor with a
    callback; the rest of the state as it was. *)
Definition registered {W : Type} (st : State W) (name : string) (l : Lock)
    (p : nat) (st' : State W) : Prop :=
  heap st !! p = None /\
  heap st' = <[p := l]> (heap st) /\
  locks (client st') = <[name := p]> (locks (client st)) /\
  sameConfig (client st) (client st') /\
  cancelled st' = cancelled st /\
  monitors st' =
    (if startsMonitor (lk_sessionMonitor l)
     then monitors st ++ [(name, p)] else monitors st) /\
  sessionMonitorCancellations (client st') =
    (if startsMonitor (lk_sessionMonitor l)
     then <[name := length (monitors st)]> (sessionMonitorCancellations (client st))
     else sessionMonitorCancellations (client st)).

(** ** Vocabulary of the acquire and release theorems *)

(** The options a caller of [acquireLock] can build: the fields of
    [acquireLockOptions] are not exported, so these functions are the only
    way to set them. *)
Inductive isAcquireLockOption : AcquireLockOption -> Prop :=
  | isWithData b : isAcquireLockOption (WithData b)
  | isReplaceData : isAcquireLockOption ReplaceData
  | isFailIfLocked : isAcquireLockOption FailIfLocked
  | isWithDeleteLockOnRelease : isAcquireLockOption WithDeleteLockOnRelease
  | isWithRefreshPeriod d : isAcquireLockOption (WithRefreshPeriod d)
  | isWithAdditionalTimeToWaitForLock d :
      isAcquireLockOption (WithAdditionalTimeToWaitForLock d)
  | isWithAdditionalAttributes a : isAcquireLockOption (WithAdditionalAttributes a)
  | isWithSessionMonitor safe cb : isAcquireLockOption (WithSessionMonitor safe cb).

(** What an acquire for the partition key [pk] may ask of the outside
    world: a consistent read of the row, a put into the client's table
    under one of the two conditions, and a wait of [d]. *)
Definition acquireCall (c : commonClient) (pk : string) (d : Duration) (e : Event)
    : Prop :=
  match e with
  | EvGetItem req _ => req = readRequest c pk
  | EvPutItem req _ =>
      pi_TableName req = tableName c /\
      (pi_Condition req = newOrReleasedCondition (partitionKeyName c) \/
       exists rvn, pi_Condition req = expiredCondition (partitionKeyName c) rvn)
  | EvSleep d' _ => d' = d
  | _ => False
  end.

(** The options a caller of [CreateTable] can build. *)
Inductive isCreateTableOption : CreateTableOption -> Prop :=
  | isWithTags tags : isCreateTableOption (WithTags tags)
  | isWithProvisionedThroughput pt :
      isCreateTableOption (WithProvisionedThroughput pt).

(** The condition and the key of a store call. *)
Definition callCondition (e : Event) : option ConditionBuilder :=
  match e with
  | EvPutItem req _ => Some (pi_Condition req)
  | EvUpdateItem req _ => Some (ui_Condition req)
  | EvDeleteItem req _ => Some (di_Condition req)
  | _ => None
  end.

Definition callKey (e : Event) : option item :=
  match e with
  | EvGetItem req _ => Some (gi_Key req)
  | EvUpdateItem req _ => Some (ui_Key req)
  | EvDeleteItem req _ => Some (di_Key req)
  | _ => None
  end.

Section Columns.

Context {W : Type} `{RT : Runtime W}.

(** The columns of a row that the client [c] puts for the partition key
    [pk] with the caller's attributes [attrs]. *)
Definition engineColumns (c : commonClient) (pk : string) (attrs : item) (it : item)
    : Prop :=
  it !! attrOwnerName = Some (AttributeValueMemberS (ownerName c)) /\
  it !! attrLeaseDuration =
    Some (AttributeValueMemberS (Duration_String (leaseDuration c))) /\
  (exists rvn, it !! attrRecordVersionNumber = Some (AttributeValueMemberS rvn)) /\
  (~ In (partitionKeyName c)
        [attrOwnerName; attrLeaseDuration; attrRecordVersionNumber; attrData] ->
   it !! partitionKeyName c = Some (AttributeValueMemberS pk)) /\
  forall k v, attrs !! k = Some v -> it !! k = Some v.

Definition putsEngineColumns (c : commonClient) (pk : string) (attrs : item)
    (e : Event) : Prop :=
  match e with
  | EvPutItem req _ => engineColumns c pk attrs (pi_Item req)
  | _ => True
  end.

End Columns.

(** ** More scenarios on the store double *)

Module Cases.

Import MemStore Scenario.

(** A is about to acquire on an empty table. *)
Definition opening : State World := start emptyWorld clientA.

(** A holds "k" with a session monitor. *)
Definition watched : State World :=
  snd (acquireLock 1 "k" [WithSessionMonitor (4 * Second) (Some 7%nat)] opening).

(** A holds "k1" and "k2". *)
Definition heldTwo : State World :=
  snd (acquireLock 1 "k2" [] (snd (acquireLock 1 "k1" [] opening))).

(** B looks at the table where A holds "k". *)
Definition readerB : State World := switch afterA clientB.

(** The store is about to fail the next call. *)
Definition failing : State World :=
  scripted [Fail (StoreError "unavailable")] opening.

(** B's context ends half a second from now, A holding "k". *)
Definition hurried : State World :=
  let w := world readerB in
  mkState (mkWorld (rows w) (hashKey w) (clock w) (latency w) (seed w) (script w)
             (Some (clock w + 500000000)%Z))
    (trace readerB) (heap readerB) (monitors readerB) (cancelled readerB)
    (client readerB).

(** B holds "k", acquired on an empty table with an attribute [isReleased]
    of its own. *)
Definition flagged : State World :=
  snd (acquireLock 1 "k" [WithAdditionalAttributes userIsReleased]
         (start emptyWorld clientB)).

(** Options for a provisioned table with a tag. *)
Definition tableOptions : list CreateTableOption :=
  [WithProvisionedThroughput (Some (5, 5)%Z); WithTags [("team", "locks")]].

(** Options for a client with a lease of ten seconds and a heartbeat
    every two. *)
Definition clientOptions : list ClientOption :=
  [WithLeaseDuration (10 * Second); WithHeartbeatPeriod (2 * Second)].

End Cases.

(** * Proofs *)

Create HintDb monad_ops.

#[global] Hint Unfold bind ret perform getClient putClient alloc deref store now
  isClosed generateRecordVersionNumber silent : monad_ops.

(** Names the result of each effect met in the goal. *)
Ltac run_effects :=
  repeat match goal with
         | |- context [ let (_, _) := ?p in _ ] =>
             lazymatch p with
             | context [ let (_, _) := _ in _ ] => fail
             | _ => let E := fresh "E" in destruct p eqn:E; simpl
             end
         end.

Ltac run := autounfold with monad_ops; simpl; run_effects; simpl.

Section Frames.

Context {W : Type} `{RT : Runtime W}.

Lemma bind_eq {A B : Type} (m : M W A) (k : A -> M W B) st a st1 :
  m st = (a, st1) -> bind m k st = k a st1.
Proof. intros H. unfold bind. rewrite H. reflexivity. Qed.

Lemma sameClient_refl (st : State W) : sameClient st st.
Proof. repeat split. Qed.

Lemma sameClient_trans (st1 st2 st3 : State W) :
  sameClient st1 st2 -> sameClient st2 st3 -> sameClient st1 st3.
Proof.
  intros (H1 & H2 & H3 & H4) (G1 & G2 & G3 & G4).
  repeat split; congruence.
Qed.

Lemma perform_frame {A : Type} (ev : A -> option Event) (f : W -> A * W) st :
  sameClient st (snd (perform ev f st)).
Proof. unfold perform. destruct (f (world st)). repeat split. Qed.

Lemma perform_silent_trace {A : Type} (f : W -> A * W) st :
  trace (snd (perform silent f st)) = trace st.
Proof. unfold perform. destruct (f (world st)). reflexivity. Qed.

Lemma now_frame st : sameClient st (snd (now st)).
Proof. apply perform_frame. Qed.

Lemma now_trace st : trace (snd (now st)) = trace st.
Proof. apply perform_silent_trace. Qed.

Lemma generateRecordVersionNumber_frame st :
  sameClient st (snd (generateRecordVersionNumber st)).
Proof. apply perform_frame. Qed.

Lemma generateRecordVersionNumber_trace st :
  trace (snd (generateRecordVersionNumber st)) = trace st.
Proof. apply perform_silent_trace. Qed.

(** The read asks the store once, keyed on the partition key alone. *)
Lemma readFromDynamoDB_spec pk st res st1 :
  readFromDynamoDB pk st = (res, st1) ->
  sameClient st st1 /\
  trace st1 = trace st ++ [EvGetItem (readRequest (client st) pk) res].
Proof.
  unfold readFromDynamoDB, readRequest. run. intros [= <- <-].
  repeat split.
Qed.

Lemma createLockItem_frame o it st :
  sameClient st (snd (createLockItem o it st)) /\
  trace (snd (createLockItem o it st)) = trace st.
Proof.
  unfold createLockItem. run.
  destruct (String.eqb _ _); [|destruct (ParseDuration _)]; simpl;
    repeat split.
Qed.

Lemma getLockFromDynamoDB_spec o st r st1 :
  getLockFromDynamoDB o st = (r, st1) ->
  sameClient st st1 /\
  exists res,
    trace st1 = trace st ++ [EvGetItem (readRequest (client st) (glo_partitionKey o)) res].
Proof.
  unfold getLockFromDynamoDB, bind.
  destruct (readFromDynamoDB _ st) as [res st0] eqn:Hread.
  apply readFromDynamoDB_spec in Hread as [Hsame Htrace].
  destruct res as [out|err].
  - destruct (go_Item out) as [it|].
    + intros Hc. pose proof (createLockItem_frame o it st0) as [Hs Ht].
      rewrite Hc in Hs, Ht. simpl in *. split.
      * eapply sameClient_trans; eauto.
      * eexists. rewrite Ht. exact Htrace.
    + intros [= <- <-]. split; [assumption|]. eexists; exact Htrace.
  - intros [= <- <-]. split; [assumption|]. eexists; exact Htrace.
Qed.

End Frames.

Section Engine.

Context {W : Type} `{RT : Runtime W}.

Lemma append_empty_r (s : string) : String.append s "" = s.
Proof.
  induction s as [|a s IH]; [reflexivity|].
  change (String a (String.append s "") = String a s). now rewrite IH.
Qed.

Lemma tryAddSessionMonitor_frame name p (st : State W) :
  heap (snd (tryAddSessionMonitor name p st)) = heap st /\
  trace (snd (tryAddSessionMonitor name p st)) = trace st /\
  locks (client (snd (tryAddSessionMonitor name p st))) = locks (client st) /\
  sameConfig (client st) (client (snd (tryAddSessionMonitor name p st))).
Proof.
  unfold tryAddSessionMonitor. run.
  destruct (lk_sessionMonitor _) as [sm|]; [destruct (callback sm)|];
    simpl; repeat split.
Qed.

(** What a put does: one [PutItem]; an error comes back through
    [parseDynamoDBError] with the client untouched, a success gives a new
    registered handle with the proposed fields. *)
Lemma putLockItemAndStartSessionMonitor_spec attrs pk del data rvn sm req st res st' :
  putLockItemAndStartSessionMonitor attrs pk del data rvn sm req st = (res, st') ->
  let c := client st in
  exists resp,
    trace st' = trace st ++ [EvPutItem req resp] /\
    (forall e, resp = Some e ->
       res = (None, Some (parseDynamoDBError e refused)) /\ sameClient st st') /\
    (resp = None ->
       exists p t,
         res = (Some p, None) /\
         heap st !! p = None /\
         heap st' !! p =
           Some (mkLock pk None data del (ownerName c) (leaseDuration c) t rvn
                   false attrs sm) /\
         locks (client st') !! pk = Some p /\
         sameConfig c (client st')).
Proof.
  unfold putLockItemAndStartSessionMonitor. run.
  destruct o as [e|]; simpl.
  - intros [= <- <-]. exists (Some e). split; [reflexivity|]. split.
    + intros e' [= <-]. split; [reflexivity | repeat split].
    + discriminate.
  - match goal with
    | |- context [tryAddSessionMonitor ?n ?p ?s] =>
        pose proof (tryAddSessionMonitor_frame n p s) as (Hh & Ht & Hl & Hc);
        destruct (tryAddSessionMonitor n p s) as [u s']
    end.
    simpl in *. intros [= <- <-]. exists None.
    split; [rewrite Ht; reflexivity|]. split; [discriminate|].
    intros _. eexists _, _. split; [reflexivity|].
    split; [|split; [|split]].
    + apply not_elem_of_dom. apply is_fresh.
    + rewrite Hh. apply lookup_insert_eq.
    + rewrite Hl. unfold uniqueIdentifier. simpl. rewrite append_empty_r.
      apply lookup_insert_eq.
    + destruct Hc as (? & ? & ? & ? & ?). repeat split; simpl in *; congruence.
Qed.

(** The put of a new or released lock, with its condition. *)
Lemma upsertAndMonitorNewOrReleasedLock_eq attrs pk del data it rvn sm st :
  upsertAndMonitorNewOrReleasedLock attrs pk del data it rvn sm st =
  putLockItemAndStartSessionMonitor attrs pk del data rvn sm
    (mkPutItemInput it (tableName (client st))
       (Or (AttributeNotExists (partitionKeyName (client st)))
           (And (AttributeExists (partitionKeyName (client st)))
                (Equal attrIsReleased (AttributeValueMemberS "1"))))) st.
Proof. reflexivity. Qed.

(** The put over an expired lock, with its condition. *)
Lemma upsertAndMonitorExpiredLock_eq attrs pk del existing data it rvn sm st :
  upsertAndMonitorExpiredLock attrs pk del existing data it rvn sm st =
  putLockItemAndStartSessionMonitor attrs pk del data rvn sm
    (mkPutItemInput it (tableName (client st))
       (And (AttributeExists (partitionKeyName (client st)))
            (Equal attrRecordVersionNumber
               (AttributeValueMemberS (lk_recordVersionNumber existing))))) st.
Proof. reflexivity. Qed.

(** A turn of the loop whose attempt gave neither a lock nor an error
    waits and goes on with the options the attempt left. *)
Lemma acquireLoop_retry fuel o st o' st' :
  storeLock o st = ((o', (None, None)), st') ->
  acquireLoop (S fuel) o st = waitRefresh o' (acquireLoop fuel o') st'.
Proof. intros H. simpl. unfold bind at 1. rewrite H. reflexivity. Qed.

(** A turn of the loop whose attempt gave an error returns it. *)
Lemma acquireLoop_error fuel o st o' l e st' :
  storeLock o st = ((o', (l, Some e)), st') ->
  acquireLoop (S fuel) o st = (Some (None, Some e), st').
Proof. intros H. simpl. unfold bind at 1. rewrite H. now destruct l. Qed.

Lemma swallowNotGranted_refused l :
  swallowNotGranted
    (l, Some (parseDynamoDBError ConditionalCheckFailedException refused)) =
  (None, None).
Proof. reflexivity. Qed.



Lemma sameConfig_refl c : sameConfig c c.
Proof. repeat split. Qed.

(** The budget check reads the clock once and touches nothing else. *)
Lemma checkBudget_spec o st :
  let t := time_Sub (fst (now st)) (glo_start o) in
  checkBudget o st =
    ((None, if (glo_millisecondsToWait o <? t)%Z then Some (timedOut t) else None),
     snd (now st)).
Proof.
  unfold checkBudget, bind. destruct (now st) as [t1 st1]. simpl.
  destruct (_ <? _)%Z; reflexivity.
Qed.

(** What one attempt does, whatever its branch: a read; then either
    nothing more asked of the store, or one put of the proposed item. *)
Lemma storeLock_outcome o st o' l err st' :
  storeLock o st = ((o', (l, err)), st') ->
  exists existing rerr st1,
    getLockFromDynamoDB o st = ((existing, rerr), st1) /\
    match rerr with
    | Some e => o' = o /\ l = None /\ err = Some e /\ st' = st1
    | None =>
        let c := client st in
        let om := set_additionalAttributes o (mergedAdditionalAttributes o existing) in
        let rvn := fst (generateRecordVersionNumber st1) in
        let data := newLockData o existing in
        sameRequest o o' /\
        glo_additionalAttributes o' = mergedAdditionalAttributes o existing /\
        sameConfig c (client st') /\
        ((l = None /\ trace st' = trace st1 /\ heap st' = heap st) \/
         (exists cond resp,
            trace st' = trace st1 ++
              [EvPutItem (mkPutItemInput (proposedItem c om data rvn) (tableName c) cond)
                 resp] /\
            (resp <> None -> l = None /\ heap st' = heap st) /\
            (resp = None ->
               err = None /\
               exists p t,
                 l = Some p /\
                 heap st' !! p =
                   Some (mkLock (glo_partitionKey o) None data
                           (glo_deleteLockOnRelease o) (ownerName c)
                           (leaseDuration c) t rvn false
                           (mergedAdditionalAttributes o existing)
                           (glo_sessionMonitor o)))))
    end.
Proof.
  unfold storeLock, bind at 1, getClient. unfold bind at 1.
  destruct (getLockFromDynamoDB o st) as [[existing rerr] st1] eqn:Hread.
  intros Hs. exists existing, rerr, st1. split; [reflexivity|].
  pose proof (getLockFromDynamoDB_spec _ _ _ _ Hread) as [(Hh1 & _ & _ & Hc1) _].
  destruct rerr as [e|].
  { simpl in Hs. inversion Hs; subst. repeat split. }
  unfold bind at 1 in Hs.
  pose proof (generateRecordVersionNumber_frame st1) as (Hh2 & _ & _ & Hc2).
  pose proof (generateRecordVersionNumber_trace st1) as Ht2.
  destruct (generateRecordVersionNumber st1) as [rvn st2]. simpl in *.
  assert (Hput : forall cond r s,
    putLockItemAndStartSessionMonitor (mergedAdditionalAttributes o existing)
      (glo_partitionKey o) (glo_deleteLockOnRelease o) (newLockData o existing) rvn
      (glo_sessionMonitor o)
      (mkPutItemInput
         (proposedItem (client st)
            (set_additionalAttributes o (mergedAdditionalAttributes o existing))
            (newLockData o existing) rvn) (tableName (client st)) cond) s = (r, st') ->
    client s = client st -> heap s = heap st -> trace s = trace st1 ->
    (o', (l, err)) =
      (set_additionalAttributes o (mergedAdditionalAttributes o existing),
       swallowNotGranted r) ->
    sameRequest o o' /\
    glo_additionalAttributes o' = mergedAdditionalAttributes o existing /\
    sameConfig (client st) (client st') /\
    ((l = None /\ trace st' = trace st1 /\ heap st' = heap st) \/
     (exists cond resp,
        trace st' = trace st1 ++
          [EvPutItem
             (mkPutItemInput
                (proposedItem (client st)
                   (set_additionalAttributes o (mergedAdditionalAttributes o existing))
                   (newLockData o existing) rvn) (tableName (client st)) cond) resp] /\
        (resp <> None -> l = None /\ heap st' = heap st) /\
        (resp = None ->
           err = None /\
           exists p t,
             l = Some p /\
             heap st' !! p =
               Some (mkLock (glo_partitionKey o) None (newLockData o existing)
                       (glo_deleteLockOnRelease o) (ownerName (client st))
                       (leaseDuration (client st)) t rvn false
                       (mergedAdditionalAttributes o existing)
                       (glo_sessionMonitor o)))))).
  { intros cond r s Hp Hcs Hhs Hts [= -> Hr].
    apply putLockItemAndStartSessionMonitor_spec in Hp as (resp & Htr & Herr & Hok).
    rewrite Hcs in Hok. rewrite Hts in Htr.
    split; [repeat split|]. split; [reflexivity|].
    destruct resp as [e|].
    - destruct (Herr e eq_refl) as [-> (Hh & _ & _ & Hc)].
      split; [rewrite Hc, Hcs; apply sameConfig_refl|].
      right. exists cond, (Some e). split; [exact Htr|]. split.
      + intros _. split; [|congruence].
        simpl in Hr. destruct (isLockNotGranted _); congruence.
      + discriminate.
    - destruct (Hok eq_refl) as (p & t & -> & _ & Hp & _ & Hcfg).
      split; [exact Hcfg|].
      right. exists cond, None. split; [exact Htr|]. split; [congruence|].
      intros _. simpl in Hr. injection Hr as -> ->. split; [reflexivity|].
      exists p, t. split; [reflexivity | exact Hp]. }
  assert (Hcheck : forall ob s,
    (let (r, s') := checkBudget ob s in ((ob, r), s')) = ((o', (l, err)), st') ->
    client s = client st -> heap s = heap st -> trace s = trace st1 ->
    ob = o' /\ sameConfig (client st) (client st') /\
    l = None /\ trace st' = trace st1 /\ heap st' = heap st).
  { intros ob s Hc Hcs Hhs Hts. rewrite checkBudget_spec in Hc.
    pose proof (now_frame s) as (Hh & _ & _ & Hcl). pose proof (now_trace s) as Ht.
    injection Hc as <- <- <- <-.
    split; [reflexivity|]. split; [rewrite Hcl, Hcs; apply sameConfig_refl|].
    split; [reflexivity|]. split; congruence. }
  destruct existing as [ex|].
  2: { unfold bind at 1 in Hs.
       rewrite upsertAndMonitorNewOrReleasedLock_eq in Hs.
       destruct (putLockItemAndStartSessionMonitor _ _ _ _ _ _ _ _) as [r s'] eqn:Hp.
       simpl in Hs. injection Hs as Ho Hr <-.
       rewrite Hc2, Hc1 in Hp.
       eapply Hput; eauto; try congruence. }
  destruct (lk_isReleased ex).
  { unfold bind at 1 in Hs.
    rewrite upsertAndMonitorNewOrReleasedLock_eq in Hs.
    destruct (putLockItemAndStartSessionMonitor _ _ _ _ _ _ _ _) as [r s'] eqn:Hp.
    simpl in Hs. injection Hs as Ho Hr <-.
    rewrite Hc2, Hc1 in Hp.
    eapply Hput; eauto; try congruence. }
  destruct (glo_lockTryingToBeAcquired o) as [inFlight|].
  - destruct (String.eqb _ _).
    + unfold bind at 1 in Hs.
      pose proof (now_frame st2) as (Hh3 & _ & _ & Hc3). pose proof (now_trace st2) as Ht3.
      destruct (now st2) as [t st3]. simpl in *.
      destruct (isExpired inFlight t).
      * unfold bind at 1 in Hs.
        rewrite upsertAndMonitorExpiredLock_eq in Hs.
        destruct (putLockItemAndStartSessionMonitor _ _ _ _ _ _ _ _) as [r s'] eqn:Hp.
        simpl in Hs. injection Hs as Ho Hr <-.
        rewrite Hc3, Hc2, Hc1 in Hp.
        eapply Hput; eauto; try congruence.
      * unfold bind at 1 in Hs.
        apply Hcheck in Hs as (<- & Hcfg & -> & Ht & Hh); try congruence.
        split; [repeat split|]. split; [reflexivity|]. split; [exact Hcfg|].
        left. repeat split; assumption.
    + unfold bind at 1 in Hs.
      apply Hcheck in Hs as (<- & Hcfg & -> & Ht & Hh); try congruence.
      split; [repeat split|]. split; [reflexivity|]. split; [exact Hcfg|].
      left. repeat split; assumption.
  - destruct (glo_failIfLocked o).
    + injection Hs as <- <- <- <-.
      split; [repeat split|]. split; [reflexivity|].
      split; [rewrite Hc2, Hc1; apply sameConfig_refl|].
      left. repeat split; congruence.
    + unfold bind at 1 in Hs.
      apply Hcheck in Hs as (<- & Hcfg & -> & Ht & Hh); try congruence.
      split; [destruct (glo_alreadySleptOnceForOneLeasePeriod o); repeat split|].
      split; [destruct (glo_alreadySleptOnceForOneLeasePeriod o); reflexivity|].
      split; [exact Hcfg|].
      left. repeat split; assumption.
Qed.

End Engine.

Section Acquire.

Context {W : Type} `{RT : Runtime W}.

(** The options of a call, as [acquireLock] builds them from the caller's. *)
Lemma acquireLock_open fuel pk opts st :
  closed (client st) = false ->
  let opt := applyOptions opts
               (mkAcquireLockOptions pk None false false false 0 0 ∅ None) in
  contains (opt_additionalAttributes opt) (reservedNames (client st)) = false ->
  acquireLock fuel pk opts st =
    acquireLoop fuel (initialGetLockOptions opt (fst (now st))) (snd (now st)).
Proof.
  intros Hopen opt Hres. unfold acquireLock, isClosed, bind, getClient, ret.
  rewrite Hopen. cbv beta iota. rewrite Hopen. fold opt. rewrite Hres.
  destruct (now st) as [t st0]. reflexivity.
Qed.

(** C7. An acquire with [failIfLocked] whose first read shows a live lock
    (present, not released) returns [LockNotGranted] right after that
    read: the read is the only thing asked of the outside world, and no
    refresh period is slept. *)
Theorem acquireLock_failIfLocked fuel pk opts st existing st1 :
  closed (client st) = false ->
  let opt := applyOptions opts
               (mkAcquireLockOptions pk None false false false 0 0 ∅ None) in
  contains (opt_additionalAttributes opt) (reservedNames (client st)) = false ->
  opt_failIfLocked opt = true ->
  getLockFromDynamoDB (initialGetLockOptions opt (fst (now st))) (snd (now st)) =
    ((Some existing, None), st1) ->
  lk_isReleased existing = false ->
  exists res st',
    acquireLock (S fuel) pk opts st = (Some (None, Some failedFast), st') /\
    trace st' =
      trace st ++ [EvGetItem (readRequest (client st) (opt_partitionKey opt)) res].
Proof.
  intros Hopen opt Hres Hfail Hread Hlive.
  rewrite acquireLock_open by assumption. fold opt.
  pose proof (now_frame st) as (_ & _ & _ & Hc0). pose proof (now_trace st) as Ht0.
  pose proof (getLockFromDynamoDB_spec _ _ _ _ Hread) as [_ [res Htr]].
  pose proof (generateRecordVersionNumber_trace st1) as Ht2.
  rewrite Hc0, Ht0 in Htr. simpl in Htr.
  exists res, (snd (generateRecordVersionNumber st1)).
  split; [|congruence].
  eapply acquireLoop_error with (l := None).
  unfold storeLock, bind at 1, getClient. unfold bind at 1. rewrite Hread.
  unfold bind at 1. destruct (generateRecordVersionNumber st1) as [rvn st2].
  simpl. rewrite Hlive, Hfail. reflexivity.
Qed.

(** The options an attempt leaves depend on what its read showed alone. *)
Lemma storeLock_options o st o' res st' :
  storeLock o st = ((o', res), st') ->
  exists existing rerr st1,
    getLockFromDynamoDB o st = ((existing, rerr), st1) /\
    o' = match rerr with
         | Some _ => o
         | None => optionsAfter o existing
         end.
Proof.
  unfold storeLock, bind at 1, getClient. unfold bind at 1.
  destruct (getLockFromDynamoDB o st) as [[existing rerr] st1] eqn:Hread.
  intros Hs. exists existing, rerr, st1. split; [reflexivity|].
  unfold ret in Hs.
  destruct rerr as [e|]; [congruence|].
  unfold bind at 1 in Hs.
  destruct (generateRecordVersionNumber st1) as [rvn st2]. simpl in Hs.
  unfold optionsAfter.
  destruct existing as [ex|]; simpl.
  2: { unfold bind at 1 in Hs.
       destruct (upsertAndMonitorNewOrReleasedLock _ _ _ _ _ _ _ _); simpl in Hs.
       congruence. }
  destruct (lk_isReleased ex).
  { unfold bind at 1 in Hs.
    destruct (upsertAndMonitorNewOrReleasedLock _ _ _ _ _ _ _ _); simpl in Hs.
    congruence. }
  destruct (glo_lockTryingToBeAcquired o) as [inFlight|].
  - destruct (String.eqb _ _).
    + unfold bind at 1 in Hs. destruct (now st2) as [t st3].
      destruct (isExpired inFlight t); unfold bind at 1 in Hs.
      * destruct (upsertAndMonitorExpiredLock _ _ _ _ _ _ _ _ _); simpl in Hs.
        congruence.
      * destruct (checkBudget _ _); simpl in Hs. congruence.
    + unfold bind at 1 in Hs. destruct (checkBudget _ _); simpl in Hs. congruence.
  - destruct (glo_failIfLocked o).
    + simpl in Hs. congruence.
    + unfold bind at 1 in Hs. destruct (checkBudget _ _); simpl in Hs. congruence.
Qed.

(** The budget of an acquire is kept by every attempt, and moves once. *)
Lemma optionsAfter_budget base o existing :
  budgetOf base o ->
  budgetOf base (optionsAfter o existing) /\
  (glo_lockTryingToBeAcquired o = None ->
   forall ex,
     glo_lockTryingToBeAcquired (optionsAfter o existing) = Some ex ->
     existing = Some ex /\ lk_isReleased ex = false /\ glo_failIfLocked o = false /\
     glo_millisecondsToWait (optionsAfter o existing) =
       Duration_add base (lk_leaseDuration ex)) /\
  (is_Some (glo_lockTryingToBeAcquired o) ->
   is_Some (glo_lockTryingToBeAcquired (optionsAfter o existing)) /\
   glo_millisecondsToWait (optionsAfter o existing) = glo_millisecondsToWait o).
Proof.
  unfold budgetOf, optionsAfter. intros Hb.
  destruct existing as [ex|]; simpl.
  2: { split; [exact Hb|]. split.
       - intros -> ex'. discriminate.
       - intros Hs. split; [exact Hs | reflexivity]. }
  destruct (lk_isReleased ex) eqn:Hrel; simpl.
  { split; [exact Hb|]. split.
    - intros -> ex'. discriminate.
    - intros Hs. split; [exact Hs | reflexivity]. }
  destruct (glo_lockTryingToBeAcquired o) as [inFlight|] eqn:Hin; simpl.
  - destruct (String.eqb _ _); simpl; rewrite ?Hin.
    + split; [exact Hb|]. split; [discriminate|]. intros _. split; [eauto | reflexivity].
    + split; [exact Hb|]. split; [discriminate|]. intros _. split; [eauto | reflexivity].
  - destruct Hb as [Hslept Hms].
    destruct (glo_failIfLocked o) eqn:Hfail; simpl; rewrite ?Hin.
    + split; [split; assumption|]. split.
      * intros _ ex'. discriminate.
      * intros [x Hx]. discriminate.
    + rewrite Hslept. simpl. split.
      * split; [reflexivity|]. exists ex. rewrite Hms. split; [exact Hrel | reflexivity].
      * split.
        -- intros _ ex' [= <-]. rewrite Hms. repeat split; assumption.
        -- intros [x Hx]. discriminate.
Qed.

Lemma optionsAfter_sameRequest o existing : sameRequest o (optionsAfter o existing).
Proof.
  unfold optionsAfter. destruct existing as [ex|]; simpl; [|repeat split].
  destruct (lk_isReleased ex); [repeat split|].
  destruct (glo_lockTryingToBeAcquired o).
  - destruct (String.eqb _ _); repeat split.
  - destruct (glo_failIfLocked o); [repeat split|].
    destruct (glo_alreadySleptOnceForOneLeasePeriod o); repeat split.
Qed.

(** An attempt that sees a live lock and neither fails fast nor tries a
    put ends in the budget check. *)
Lemma storeLock_checks o st ex st1 :
  getLockFromDynamoDB o st = ((Some ex, None), st1) ->
  lk_isReleased ex = false ->
  match glo_lockTryingToBeAcquired o with
  | None => glo_failIfLocked o = false
  | Some inFlight =>
      lk_recordVersionNumber inFlight <> lk_recordVersionNumber ex \/
      isExpired inFlight (fst (now (snd (generateRecordVersionNumber st1)))) = false
  end ->
  exists sK,
    (sK = snd (generateRecordVersionNumber st1) \/
     sK = snd (now (snd (generateRecordVersionNumber st1)))) /\
    storeLock o st =
      ((optionsAfter o (Some ex), fst (checkBudget (optionsAfter o (Some ex)) sK)),
       snd (checkBudget (optionsAfter o (Some ex)) sK)).
Proof.
  intros Hread Hlive Hbranch.
  unfold storeLock, bind at 1, getClient. unfold bind at 1. rewrite Hread.
  unfold bind at 1. unfold optionsAfter.
  destruct (generateRecordVersionNumber st1) as [rvn st2]. simpl in *.
  rewrite Hlive.
  destruct (glo_lockTryingToBeAcquired o) as [inFlight|].
  - destruct (String.eqb _ _) eqn:Heq.
    + apply String.eqb_eq in Heq. destruct Hbranch as [Hne|Hexp]; [contradiction|].
      unfold bind at 1. destruct (now st2) as [t st3]. simpl in *. rewrite Hexp.
      exists st3. split; [right; reflexivity|].
      unfold bind. destruct (checkBudget _ st3). reflexivity.
    + exists st2. split; [left; reflexivity|].
      unfold bind. destruct (checkBudget _ st2). reflexivity.
  - rewrite Hbranch. exists st2. split; [left; reflexivity|].
    unfold bind. destruct (checkBudget _ st2). reflexivity.
Qed.

(** C4, amended. The budget of an acquire starts at
    [additionalTimeToWaitForLock], or at one second when that is not
    positive. An attempt leaves it as it was, but for the first attempt
    that sees a live lock (and is not failing fast): that attempt records
    the lock it saw and adds that lock's lease duration to the budget,
    and no later attempt adds to it again. An attempt that sees a live
    lock and neither fails fast nor tries a put reads the clock, and when
    the time since the start exceeds the budget the acquire returns
    [LockNotGranted] wrapping a [Timeout] with that age. *)
Theorem storeLock_budget base o st o' res st' :
  budgetOf base o ->
  storeLock o st = ((o', res), st') ->
  (forall opt start,
     budgetOf (if (0 <? opt_additionalTimeToWaitForLock opt)%Z
               then opt_additionalTimeToWaitForLock opt else 1 * Second)
       (initialGetLockOptions opt start)) /\
  budgetOf base o' /\
  (glo_lockTryingToBeAcquired o = None ->
   forall ex,
     glo_lockTryingToBeAcquired o' = Some ex ->
     lk_isReleased ex = false /\ glo_failIfLocked o = false /\
     (exists st1, getLockFromDynamoDB o st = ((Some ex, None), st1)) /\
     glo_millisecondsToWait o' = Duration_add base (lk_leaseDuration ex)) /\
  (forall ex st1,
     getLockFromDynamoDB o st = ((Some ex, None), st1) ->
     lk_isReleased ex = false ->
     glo_lockTryingToBeAcquired o = None ->
     glo_failIfLocked o = false ->
     glo_lockTryingToBeAcquired o' = Some ex /\
     glo_alreadySleptOnceForOneLeasePeriod o' = true /\
     glo_millisecondsToWait o = base /\
     glo_millisecondsToWait o' = Duration_add base (lk_leaseDuration ex)) /\
  (is_Some (glo_lockTryingToBeAcquired o) ->
   is_Some (glo_lockTryingToBeAcquired o') /\
   glo_millisecondsToWait o' = glo_millisecondsToWait o) /\
  (forall ex st1,
     getLockFromDynamoDB o st = ((Some ex, None), st1) ->
     lk_isReleased ex = false ->
     match glo_lockTryingToBeAcquired o with
     | None => glo_failIfLocked o = false
     | Some inFlight =>
         lk_recordVersionNumber inFlight <> lk_recordVersionNumber ex \/
         isExpired inFlight (fst (now (snd (generateRecordVersionNumber st1)))) = false
     end ->
     exists sK,
       (sK = snd (generateRecordVersionNumber st1) \/
        sK = snd (now (snd (generateRecordVersionNumber st1)))) /\
       let t := time_Sub (fst (now sK)) (glo_start o) in
       res = (None, if (glo_millisecondsToWait o' <? t)%Z
                    then Some (timedOut t) else None) /\
       trace st' = trace st1 /\
       ((glo_millisecondsToWait o' < t)%Z ->
        forall fuel,
          acquireLoop (S fuel) o st = (Some (None, Some (timedOut t)), st'))).
Proof.
  intros Hb Hs. split.
  { intros opt start. unfold budgetOf, initialGetLockOptions, defaultBuffer. simpl.
    split; reflexivity. }
  destruct (storeLock_options _ _ _ _ _ Hs) as (existing & rerr & st1 & Hread & Ho').
  assert (Hstep :
    budgetOf base o' /\
    (glo_lockTryingToBeAcquired o = None ->
     forall ex,
       glo_lockTryingToBeAcquired o' = Some ex ->
       lk_isReleased ex = false /\ glo_failIfLocked o = false /\
       (exists st1, getLockFromDynamoDB o st = ((Some ex, None), st1)) /\
       glo_millisecondsToWait o' = Duration_add base (lk_leaseDuration ex)) /\
    (is_Some (glo_lockTryingToBeAcquired o) ->
     is_Some (glo_lockTryingToBeAcquired o') /\
     glo_millisecondsToWait o' = glo_millisecondsToWait o)).
  { destruct rerr as [e|]; subst o'.
    - split; [exact Hb|]. split.
      + intros Hn ex Hex. congruence.
      + intros Hsome. split; [exact Hsome | reflexivity].
    - destruct (optionsAfter_budget base o existing Hb) as (H1 & H2 & H3).
      split; [exact H1|]. split; [|exact H3].
      intros Hn ex Hex. destruct (H2 Hn ex Hex) as (-> & Hl & Hf & Hm).
      repeat split; try assumption. exists st1. exact Hread. }
  destruct Hstep as (H1 & H2 & H3).
  split; [exact H1|]. split; [exact H2|].
  split.
  { intros ex st1' Hread' Hlive Hnone Hfail.
    rewrite Hread in Hread'. injection Hread' as -> -> ->. subst o'.
    unfold budgetOf in Hb. rewrite Hnone in Hb. destruct Hb as [Hslept Hms].
    unfold optionsAfter. cbn [glo_lockTryingToBeAcquired glo_failIfLocked
      glo_alreadySleptOnceForOneLeasePeriod glo_millisecondsToWait
      set_additionalAttributes set_lockTryingToBeAcquired].
    rewrite Hlive, Hnone, Hfail, Hslept, Hms. repeat split. }
  split; [exact H3|].
  intros ex st1' Hread' Hlive Hbranch.
  destruct (storeLock_checks _ _ _ _ Hread' Hlive Hbranch) as (sK & HsK & Heq).
  rewrite Hs in Heq. rewrite checkBudget_spec in Heq. cbv zeta in Heq.
  destruct (optionsAfter_sameRequest o (Some ex)) as (_ & _ & _ & Hstart & _).
  rewrite Hstart in Heq. cbn [fst snd] in Heq.
  injection Heq as -> -> ->.
  exists sK. split; [exact HsK|]. split; [reflexivity|]. split.
  - pose proof (getLockFromDynamoDB_spec _ _ _ _ Hread') as _.
    pose proof (generateRecordVersionNumber_trace st1') as Ht2.
    pose proof (now_trace (snd (generateRecordVersionNumber st1'))) as Ht3.
    rewrite now_trace. destruct HsK as [-> | ->]; congruence.
  - intros Hlate fuel. eapply acquireLoop_error with (l := None).
    rewrite Hs. apply Z.ltb_lt in Hlate. rewrite Hlate. reflexivity.
Qed.

Lemma newEvents_app (st st' : State W) evs :
  trace st' = trace st ++ evs -> newEvents st st' = evs.
Proof. intros H. unfold newEvents. rewrite H. apply drop_app_length. Qed.

(** The payload the code computes is the one of the specification. *)
Lemma newLockData_policy o existing :
  newLockData o existing =
  payloadPolicy (glo_replaceData o) (glo_data o) existing.
Proof.
  unfold newLockData, payloadPolicy.
  destruct (glo_replaceData o).
  - destruct (glo_data o); reflexivity.
  - destruct existing as [l|]; [destruct (lk_data l)|]; reflexivity.
Qed.

(** The decoded lock carries the bytes of the row's [data] attribute. *)
Lemma createLockItem_data o it st lock st' :
  createLockItem o it st = ((Some lock, None), st') ->
  lk_data lock = readBytesAttr (it !! attrData).
Proof.
  unfold createLockItem. run.
  destruct (String.eqb _ _); [|destruct (ParseDuration _)]; simpl;
    intros [= <- <-]; simpl; destruct (it !! attrData); reflexivity.
Qed.

Lemma proposedItem_data c o b rvn :
  proposedItem c o (Some b) rvn !! attrData = Some (AttributeValueMemberB (Some b)).
Proof. unfold proposedItem. apply lookup_insert_eq. Qed.

(** C5. The data of the proposed item follows the payload policy: the
    caller's data when [replaceData] is set; else the existing row's data
    when the row exists and has data; else the caller's data. Every put
    of an attempt carries it, and so does the handle returned. In
    particular, with [replaceData] unset, an acquire on a row whose data
    is X returns a lock whose data is X, whatever data the caller
    offers. *)
Theorem storeLock_payload o st existing st1 o' l err st' :
  getLockFromDynamoDB o st = ((existing, None), st1) ->
  storeLock o st = ((o', (l, err)), st') ->
  let data := payloadPolicy (glo_replaceData o) (glo_data o) existing in
  newLockData o existing = data /\
  (forall req resp,
     In (EvPutItem req resp) (newEvents st st') ->
     (exists rvn,
        pi_Item req =
          proposedItem (client st)
            (set_additionalAttributes o (mergedAdditionalAttributes o existing))
            data rvn) /\
     (forall b, data = Some b ->
        pi_Item req !! attrData = Some (AttributeValueMemberB (Some b)))) /\
  (forall p, l = Some p ->
     exists lock, heap st' !! p = Some lock /\ lk_data lock = data) /\
  (forall out row X st0,
     readFromDynamoDB (glo_partitionKey o) st = (inl out, st0) ->
     go_Item out = Some row ->
     row !! attrData = Some (AttributeValueMemberB (Some X)) ->
     glo_replaceData o = false ->
     forall p, l = Some p ->
       exists lock, heap st' !! p = Some lock /\ lk_data lock = Some X).
Proof.
  intros Hread Hs data.
  pose proof (newLockData_policy o existing) as Hpol. fold data in Hpol.
  destruct (storeLock_outcome _ _ _ _ _ _ Hs) as (ex' & rerr & st1' & Hread' & Hout).
  rewrite Hread in Hread'. injection Hread' as <- <- <-.
  cbv zeta in Hout. rewrite Hpol in Hout.
  destruct Hout as (_ & _ & _ & Hcases).
  destruct (getLockFromDynamoDB_spec _ _ _ _ Hread) as [_ [res Htr1]].
  assert (Hhandle : forall p, l = Some p ->
            exists lock, heap st' !! p = Some lock /\ lk_data lock = data).
  { intros p ->. destruct Hcases as [(Hl & _) | (cond & resp & _ & Hbad & Hok)].
    - discriminate.
    - destruct resp as [e|].
      + destruct (Hbad ltac:(discriminate)) as [Hl _]. discriminate.
      + destruct (Hok eq_refl) as (_ & p' & t & [= <-] & Hp).
        eexists. split; [exact Hp | reflexivity]. }
  split; [exact Hpol|]. split; [|split; [exact Hhandle|]].
  - intros req resp Hin.
    destruct Hcases as [(_ & Htr & _) | (cond & resp' & Htr & _)].
    + rewrite (newEvents_app st st' [EvGetItem (readRequest (client st) (glo_partitionKey o)) res])
        in Hin by congruence.
      destruct Hin as [Hin | []]. discriminate.
    + rewrite Htr1, <- app_assoc in Htr. simpl in Htr.
      rewrite (newEvents_app _ _ _ Htr) in Hin.
      destruct Hin as [Hin | [Hin | []]]; [discriminate|].
      injection Hin as <- <-. simpl. split; [eexists; reflexivity|].
      intros b ->. apply proposedItem_data.
  - intros out row X st0 Hrd Hrow Hdata Hrep p Hp.
    destruct (Hhandle p Hp) as (lock & Hlock & Hd).
    exists lock. split; [exact Hlock|]. rewrite Hd. subst data.
    unfold getLockFromDynamoDB, bind in Hread. rewrite Hrd, Hrow in Hread.
    destruct existing as [exl|].
    + apply createLockItem_data in Hread. rewrite Hdata in Hread. simpl in Hread.
      unfold payloadPolicy. rewrite Hrep, Hread. reflexivity.
    + exfalso. unfold createLockItem, bind, getClient in Hread.
      destruct (now st0) as [t s]. simpl in Hread.
      destruct (String.eqb _ _); [|destruct (ParseDuration _)]; discriminate.
Qed.

(** Every attempt starts with the read, whatever follows. *)
Lemma storeLock_first_event o st r st' :
  storeLock o st = (r, st') ->
  exists res evs,
    trace st' =
      trace st ++ EvGetItem (readRequest (client st) (glo_partitionKey o)) res :: evs.
Proof.
  destruct r as [o' [l err]]. intros Hs.
  destruct (storeLock_outcome _ _ _ _ _ _ Hs) as (ex & rerr & st1 & Hread & Hout).
  destruct (getLockFromDynamoDB_spec _ _ _ _ Hread) as [_ [res Htr1]].
  exists res. destruct rerr as [e|].
  - destruct Hout as (_ & _ & _ & ->). exists []. exact Htr1.
  - destruct Hout as (_ & _ & _ & [(_ & Htr & _) | (cond & resp & Htr & _)]).
    + exists []. congruence.
    + eexists [_]. rewrite Htr, Htr1, <- app_assoc. reflexivity.
Qed.

(** The loop under an invariant [I] on the options and [J] on the client:
    when every attempt keeps them and logs only events in [P], so does the
    whole loop, whose waits are in [P] as well. *)
Lemma acquireLoop_events (I : getLockOptions -> Prop) (J : commonClient -> Prop)
    (P : Event -> Prop) :
  (forall o st o' res st',
     I o -> J (client st) -> storeLock o st = ((o', res), st') ->
     I o' /\ J (client st') /\
     exists evs, trace st' = trace st ++ evs /\ Forall P evs) ->
  (forall d done, P (EvSleep d done)) ->
  forall fuel o st,
    I o -> J (client st) ->
    exists evs,
      trace (snd (acquireLoop fuel o st)) = trace st ++ evs /\ Forall P evs.
Proof.
  intros Hstep Hsleep fuel. induction fuel as [|fuel IH]; intros o st HI HJ.
  - exists []. simpl. rewrite app_nil_r. split; [reflexivity | constructor].
  - simpl. unfold bind at 1.
    destruct (storeLock o st) as [[o' [l err]] st'] eqn:Hs.
    destruct (Hstep _ _ _ _ _ HI HJ Hs) as (HI' & HJ' & evs1 & Htr1 & HP1).
    destruct err as [e|]; [|destruct l as [p|]].
    + destruct l; exists evs1; simpl; split; assumption.
    + exists evs1. simpl. split; assumption.
    + unfold waitRefresh, bind, perform.
      destruct (ctx_wait _ _) as [done w]. destruct done as [e|]; simpl.
      * exists (evs1 ++ [EvSleep (glo_refreshPeriodDuration o') (Some e)]).
        rewrite Htr1, <- app_assoc. split; [reflexivity|].
        apply Forall_app. split; [assumption | repeat constructor; apply Hsleep].
      * match goal with
        | |- context [acquireLoop fuel o' ?s] =>
            destruct (IH o' s HI' HJ') as (evs2 & Htr2 & HP2)
        end.
        exists (evs1 ++ EvSleep (glo_refreshPeriodDuration o') None :: evs2).
        rewrite Htr2. simpl. rewrite Htr1, <- !app_assoc. split; [reflexivity|].
        apply Forall_app. split; [assumption|].
        constructor; [apply Hsleep | assumption].
Qed.

(** A loop with fuel for one attempt at least starts with the read. *)
Lemma acquireLoop_first_event fuel o st :
  exists res evs,
    trace (snd (acquireLoop (S fuel) o st)) =
      trace st ++ EvGetItem (readRequest (client st) (glo_partitionKey o)) res :: evs.
Proof.
  simpl. unfold bind at 1.
  destruct (storeLock o st) as [[o' [l err]] st'] eqn:Hs.
  destruct (storeLock_first_event _ _ _ _ Hs) as (res & evs1 & Htr1).
  exists res.
  destruct err as [e|]; [|destruct l as [p|]].
  - exists evs1. destruct l; exact Htr1.
  - exists evs1. exact Htr1.
  - unfold waitRefresh, bind, perform.
    destruct (ctx_wait _ _) as [done w]. destruct done as [e|]; simpl.
    + eexists. rewrite Htr1, <- app_assoc. reflexivity.
    + match goal with
      | |- context [acquireLoop fuel o' ?s] =>
          destruct (acquireLoop_events (fun _ => True) (fun _ => True) (fun _ => True)
                      ltac:(intros o0 s0 o1 [l1 e1] s1 _ _ Hs1;
                            destruct (storeLock_first_event _ _ _ _ Hs1) as (r1 & ev1 & Ht1);
                            split; [exact I|]; split; [exact I|];
                            eexists; split; [exact Ht1|];
                            apply Forall_forall; intros; exact I)
                      ltac:(intros; exact I) fuel o' s I I) as (evs2 & Htr2 & _)
      end.
      eexists. rewrite Htr2. simpl. rewrite Htr1, <- !app_assoc. reflexivity.
Qed.

(** [contains] is true when one of the names is a key of the map. *)
Lemma contains_true (attrs : item) ks :
  contains attrs ks = true <-> exists k, In k ks /\ is_Some (attrs !! k).
Proof.
  unfold contains. rewrite existsb_exists. split.
  - intros (k & Hin & Hk). exists k. split; [assumption|].
    now apply bool_decide_eq_true in Hk.
  - intros (k & Hin & Hk). exists k. split; [assumption|].
    now apply bool_decide_eq_true.
Qed.

(** C8. On an open client, an acquire returns an error at once, with no
    call to the store, exactly when the caller's additional attributes
    hold one of the five reserved names: the partition key's name,
    ownerName, leaseDuration, recordVersionNumber or data. The call then
    leaves the whole state as it was; otherwise it goes on to read the
    row. *)
Theorem acquireLock_reserved fuel pk opts st :
  closed (client st) = false ->
  let attrs := opt_additionalAttributes
                 (applyOptions opts
                    (mkAcquireLockOptions pk None false false false 0 0 ∅ None)) in
  let reserved := exists k,
    In k [partitionKeyName (client st); "ownerName"; "leaseDuration";
          "recordVersionNumber"; "data"] /\ is_Some (attrs !! k) in
  let r := acquireLock (S fuel) pk opts st in
  (((exists e, fst r = Some (None, Some e)) /\
    filter isStoreCall (newEvents st (snd r)) = []) <-> reserved) /\
  (reserved ->
   r = (Some (None, Some (ErrReservedAttribute (partitionKeyName (client st)))), st)).
Proof.
  intros Hopen attrs reserved r.
  assert (Hrej : reserved ->
    r = (Some (None, Some (ErrReservedAttribute (partitionKeyName (client st)))), st)).
  { intros Hres. apply (contains_true attrs (reservedNames (client st))) in Hres.
    subst r. unfold acquireLock, isClosed, bind, getClient, ret.
    rewrite Hopen. cbv beta iota. rewrite Hopen. fold attrs. rewrite Hres.
    reflexivity. }
  split; [|exact Hrej]. split.
  - intros [_ Hnone].
    destruct (contains attrs (reservedNames (client st))) eqn:Hc.
    + apply (contains_true attrs (reservedNames (client st))). exact Hc.
    + exfalso. subst r. rewrite acquireLock_open in Hnone by assumption.
      pose proof (now_trace st) as Ht0.
      destruct (acquireLoop_first_event fuel
                  (initialGetLockOptions
                     (applyOptions opts
                        (mkAcquireLockOptions pk None false false false 0 0 ∅ None))
                     (fst (now st))) (snd (now st))) as (res & evs & Htr).
      rewrite Ht0 in Htr. rewrite (newEvents_app _ _ _ Htr) in Hnone.
      simpl in Hnone. discriminate.
  - intros Hres. rewrite (Hrej Hres). simpl. split; [eexists; reflexivity|].
    unfold newEvents. rewrite drop_all. reflexivity.
Qed.

(** A name that the engine does not write is in the proposed item as it
    is in the merged attributes. *)
Lemma proposedItem_lookup_other c o data rvn k :
  k <> partitionKeyName c -> k <> attrOwnerName -> k <> attrLeaseDuration ->
  k <> attrRecordVersionNumber -> k <> attrData ->
  proposedItem c o data rvn !! k = glo_additionalAttributes o !! k.
Proof.
  intros H1 H2 H3 H4 H5. unfold proposedItem.
  destruct data; rewrite ?lookup_insert_ne by congruence; reflexivity.
Qed.

Lemma proposedItem_leaseDuration c o data rvn :
  proposedItem c o data rvn !! attrLeaseDuration =
  Some (AttributeValueMemberS (Duration_String (leaseDuration c))).
Proof.
  unfold proposedItem.
  destruct data; rewrite ?lookup_insert_ne by discriminate;
    apply lookup_insert_eq.
Qed.

(** A row with an [isReleased] attribute and a lease that parses decodes
    as a released lock, for every reader. *)
Lemma createLockItem_released opt (it : item) v lease d (st : State W) :
  it !! attrIsReleased = Some v ->
  it !! attrLeaseDuration = Some (AttributeValueMemberS lease) ->
  ParseDuration lease = Some d ->
  exists lock,
    fst (createLockItem opt it st) = (Some lock, None) /\ lk_isReleased lock = true.
Proof.
  intros Hrel Hlease Hparse.
  unfold createLockItem, bind, getClient, now, perform, ret, silent.
  destruct (time_Now (world st)) as [t w]. cbv beta iota zeta.
  rewrite !lookup_delete_ne by discriminate. rewrite Hlease, Hrel.
  cbn [readStringAttr]. rewrite Hparse.
  destruct (String.eqb lease ""); eexists; (split; [reflexivity|]);
    apply bool_decide_eq_true; eauto.
Qed.

End Acquire.

Section Release.

Context {W : Type} `{RT : Runtime W}.

(** A nil lock is turned down before anything else. *)
Lemma releaseLock_nil opts (st : State W) :
  releaseLock None opts st = (Some ErrCannotReleaseNullLock, st).
Proof. reflexivity. Qed.

Lemma removeKillSessionMonitor_spec name (st : State W) :
  removeKillSessionMonitor name st =
    (tt, mkState (world st) (trace st) (heap st) (monitors st)
           (cancelled st ++
              option_list (sessionMonitorCancellations (client st) !! name))
           (client st)).
Proof.
  unfold removeKillSessionMonitor, bind, getClient.
  destruct (sessionMonitorCancellations (client st) !! name); simpl.
  - reflexivity.
  - rewrite app_nil_r. destruct st; reflexivity.
Qed.

(** C3, amended. On an open client, [ReleaseLock] returns
    [CannotReleaseNullLock] for a nil lock and [OwnerMismatched] for a
    lock of another owner, asking nothing of the store in either case.
    Otherwise it marks the handle released, removes it from the registry
    of held locks, and issues one store call: a conditional delete when
    [deleteLock] is set, else a conditional update setting [isReleased]
    (and the data only when some is given), under the condition
    "partition key exists, stored RVN is the handle's, stored owner is the
    client's". The handle stays released and out of the registry when the
    store call fails; the session monitor is cancelled only when the
    store call succeeds. *)
Theorem ReleaseLock_spec opts st :
  closed (client st) = false ->
  let c := client st in
  ReleaseLock None opts st = ((false, Some ErrCannotReleaseNullLock), st) /\
  forall p l,
    heap st !! p = Some l ->
    let options := applyOptions opts
                     (mkReleaseLockOptions (Some p) (lk_deleteLockOnRelease l) None) in
    (lk_ownerName l <> ownerName c ->
     ReleaseLock (Some p) opts st = ((false, Some ErrOwnerMismatched), st)) /\
    (lk_ownerName l = ownerName c ->
     let cond :=
       And (And (AttributeExists (partitionKeyName c))
                (Equal attrRecordVersionNumber
                   (AttributeValueMemberS (lk_recordVersionNumber l))))
           (Equal attrOwnerName (AttributeValueMemberS (ownerName c))) in
     let key : item :=
       {[ partitionKeyName c := AttributeValueMemberS (lk_partitionKey l) ]} in
     let update :=
       (attrIsReleased, AttributeValueMemberS "1") ::
       match rlo_data options with
       | Some (_ :: _) => [(attrData, AttributeValueMemberB (rlo_data options))]
       | _ => []
       end in
     let call resp :=
       if rlo_deleteLock options
       then EvDeleteItem (mkDeleteItemInput (tableName c) key cond) resp
       else EvUpdateItem (mkUpdateItemInput (tableName c) key update cond) resp in
     exists resp st',
       ReleaseLock (Some p) opts st = ((bool_decide (resp = None), resp), st') /\
       trace st' = trace st ++ [call resp] /\
       heap st' = <[p := set_isReleased l true]> (heap st) /\
       client st' = set_locks c (delete (uniqueIdentifier l) (locks c)) /\
       cancelled st' =
         match resp with
         | None =>
             cancelled st ++
               option_list (sessionMonitorCancellations c !! uniqueIdentifier l)
         | Some _ => cancelled st
         end).
Proof.
  intros Hopen c. split.
  { unfold ReleaseLock, isClosed, bind, getClient, ret. rewrite Hopen. reflexivity. }
  intros p l Hp options. split.
  - intros Hne. apply String.eqb_neq in Hne.
    unfold ReleaseLock, releaseLock, isClosed, deref.
    unfold bind, getClient, ret.
    rewrite Hopen. cbv beta iota. rewrite Hp. cbn [default from_option]. unfold id.
    fold c. rewrite Hne. reflexivity.
  - intros Heq cond key update call.
    unfold ReleaseLock, releaseLock, isClosed, deref, store, putClient,
      deleteLock, updateLock, perform.
    unfold bind, getClient, ret.
    rewrite Hopen. cbv beta iota. rewrite Hp.
    cbn [default from_option world client trace heap monitors cancelled]. unfold id.
    fold c. fold options. rewrite Heq, String.eqb_refl. cbn [negb].
    unfold ownershipLockCondition, getItemKeys, rvnAttr, ownerNameAttr, stringAttrValue.
    cbn [tableName partitionKeyName set_locks]. fold c. fold cond. fold key.
    subst call. cbv beta.
    destruct (rlo_deleteLock options) eqn:Hdel.
    + destruct (DeleteItem _ _) as [resp w]. exists resp.
      destruct resp as [e|].
      * eexists. split; [reflexivity|]. repeat split.
      * rewrite removeKillSessionMonitor_spec.
        eexists. split; [reflexivity|]. repeat split.
    + assert (Hupd :
        (if (0 <? bytes_len (rlo_data options))%nat
         then [(isReleasedAttr, isReleasedAttrVal)] ++
              [(dataAttr, AttributeValueMemberB (rlo_data options))]
         else [(isReleasedAttr, isReleasedAttrVal)]) = update).
      { subst update. destruct (rlo_data options) as [[|b bs]|]; reflexivity. }
      rewrite Hupd.
      destruct (UpdateItem _ _) as [resp w]. exists resp.
      destruct resp as [e|].
      * eexists. split; [reflexivity|]. repeat split.
      * rewrite removeKillSessionMonitor_spec.
        eexists. split; [reflexivity|]. repeat split.
Qed.


End Release.

Section SortKey.

Context {W : Type} `{RT : Runtime W}.

(** C9. The client with a sort key does not look at the sort key: for any
    two of them, [AcquireLock] behaves the same (same result, same state,
    same log of store calls), and so does [Get]; the read of the row is
    keyed on the partition key alone. *)
Theorem sortKey_ignored (cs : ClientWithSortKey) fuel pk s1 s2 opts (st : State W) :
  AcquireLock cs fuel pk s1 opts st = AcquireLock cs fuel pk s2 opts st /\
  Get cs pk s1 st = Get cs pk s2 st /\
  (forall res st',
     readFromDynamoDB pk st = (res, st') ->
     trace st' =
       trace st ++
         [EvGetItem
            (mkGetItemInput true (tableName (client st))
               {[ partitionKeyName (client st) := AttributeValueMemberS pk ]})
            res]).
Proof.
  split; [reflexivity|]. split; [reflexivity|].
  intros res st' Hread. apply readFromDynamoDB_spec in Hread as [_ Htr].
  exact Htr.
Qed.

End SortKey.

(** * The theorems at work on the store double *)

Module Witnesses.

Import MemStore Scenario.

Ltac computed := vm_compute; reflexivity.

(** A fresh acquisition stores the row with the owner, the lease and the
    data, and no [isReleased]. *)
Example fresh_acquisition :
  let r := acquireLock 1 "k" [WithData (Some [x01])] (start emptyWorld clientA) in
  fst r = Some (Some 0%nat, None) /\
  storedAttr (snd r) "k" "ownerName" = Some (AttributeValueMemberS "A") /\
  storedAttr (snd r) "k" "leaseDuration" = Some (AttributeValueMemberS "20s") /\
  storedAttr (snd r) "k" "data" = Some (AttributeValueMemberB (Some [x01])) /\
  storedAttr (snd r) "k" "isReleased" = None.
Proof. vm_compute. repeat split. Qed.

(** After A's release B takes the row over: new owner, new RVN, the data
    kept, [isReleased] gone. *)
Example takeover_after_release :
  let r := acquireLock 1 "k" [] released in
  exists p l,
    fst r = Some (Some p, None) /\ heap (snd r) !! p = Some l /\
    lk_ownerName l = "B" /\ lk_data l = Some [x01] /\
    storedAttr released "k" "isReleased" = Some (AttributeValueMemberS "1") /\
    storedAttr (snd r) "k" "isReleased" = None /\
    storedAttr (snd r) "k" "recordVersionNumber" <>
      storedAttr released "k" "recordVersionNumber".
Proof. eexists _, _. vm_compute. repeat split. discriminate. Qed.

(** A lock whose holder went silent is taken over once its RVN has been
    seen unchanged for a lease: B sleeps two refresh periods, then owns
    the lock. *)
Example expired_takeover :
  let r := acquireLock 5 "k" [] shortLease in
  exists p l,
    fst r = Some (Some p, None) /\ heap (snd r) !! p = Some l /\
    lk_ownerName l = "B" /\
    length (filter (fun e => negb (isStoreCall e)) (newEvents shortLease (snd r))) =
      2%nat.
Proof. eexists _, _. vm_compute. repeat split. Qed.




(** C3 at work: A releases the lock it holds. *)
Lemma ReleaseLock_spec_witness :
  closed (client afterA) = false /\
  ReleaseLock None [] afterA = ((false, Some ErrCannotReleaseNullLock), afterA) /\
  exists (resp : option error) st',
    ReleaseLock (Some 0%nat) [] afterA = ((bool_decide (resp = None), resp), st') /\
    heap st' = <[0%nat := set_isReleased handleA true]> (heap afterA).
Proof.
  split; [computed|].
  destruct (ReleaseLock_spec [] afterA) as [Hnil Hlock]; [computed|].
  split; [exact Hnil|].
  destruct (Hlock 0%nat handleA) as [_ Hown]; [computed|].
  destruct Hown as (resp & st' & Hr & _ & Hh & _); [computed|].
  exists resp, st'. split; [exact Hr | exact Hh].
Defined.

(** C3 as worded fails: the store turns the update down, the handle is
    released and out of the registry, and the watcher of the lock is not
    cancelled. *)
Lemma release_monitor_counterexample :
  ~ releaseCancelsMonitorAsStated 0%nat [] monitored.
Proof.
  intros H.
  specialize (H (default emptyLock (heap monitored !! 0%nat)) 0%nat).
  vm_compute in H. destruct H; reflexivity.
Qed.

(** C4 at work: B's first attempt on A's live lock adds A's lease of
    twenty seconds to the budget of one second. *)
Lemma storeLock_budget_witness :
  budgetOf (1 * Second) optionsB0 /\
  budgetOf (1 * Second) optionsB1 /\
  glo_millisecondsToWait optionsB0 = 1 * Second /\
  glo_lockTryingToBeAcquired optionsB1 = Some inFlightA /\
  glo_millisecondsToWait optionsB1 = 21 * Second.
Proof.
  assert (Hb : budgetOf (1 * Second) optionsB0) by (split; computed).
  split; [exact Hb|].
  destruct (storeLock_budget (1 * Second) optionsB0 (switch afterA clientB)
              optionsB1 (None, None) afterB1 Hb)
    as (_ & Hb1 & _ & Hext & _); [computed|].
  split; [exact Hb1|].
  destruct (Hext inFlightA (afterRead optionsB0 (switch afterA clientB)))
    as (Hrec & _ & Hms0 & Hms); try computed.
  split; [exact Hms0|]. split; [exact Hrec|].
  rewrite Hms. computed.
Defined.

(** C4 as worded fails: two minutes into an acquire with a budget of one
    second, the put is refused because another client's row landed first;
    the attempt grants no lock and returns no error, so the loop goes
    on. *)
Lemma timeout_counterexample : ~ timeoutAsStated optionsB0 raced.
Proof.
  intros H.
  destruct (H (fst (fst (storeLock optionsB0 raced))) None None
              (snd (storeLock optionsB0 raced)))
    as (msg & age & Herr); try computed.
  discriminate Herr.
Qed.

(** C5 at work: A released "k" holding data [01]; B acquires it offering
    data [02] without [replaceData], and its lock holds [01]. *)
Lemma storeLock_payload_witness :
  exists p lock,
    fst (storeLock optionsWithData released) =
      (fst (fst (storeLock optionsWithData released)), (Some p, None)) /\
    heap (snd (storeLock optionsWithData released)) !! p = Some lock /\
    lk_data lock = Some [x01].
Proof.
  destruct (storeLock_payload optionsWithData released
              (Some (readAt optionsWithData released))
              (afterRead optionsWithData released)
              (fst (fst (storeLock optionsWithData released)))
              (Some 1%nat) None (snd (storeLock optionsWithData released)))
    as (_ & _ & Hhandle & _); try computed.
  destruct (Hhandle 1%nat eq_refl) as (lock & Hp & Hd).
  exists 1%nat, lock. split; [computed|]. split; [exact Hp|].
  rewrite Hd. computed.
Defined.



(** C7 at work: B asks for A's lock with [FailIfLocked]. *)
Lemma acquireLock_failIfLocked_witness :
  closed (client (switch afterA clientB)) = false /\
  exists st',
    acquireLock 1 "k" [FailIfLocked] (switch afterA clientB) =
      (Some (None, Some failedFast), st') /\
    length (trace st') = S (length (trace afterA)).
Proof.
  split; [computed|].
  destruct (acquireLock_failIfLocked 0 "k" [FailIfLocked] (switch afterA clientB)
              (readAt optionsB0 (switch afterA clientB))
              (afterRead optionsB0 (switch afterA clientB)))
    as (res & st' & Hacq & Htr); try computed.
  exists st'. split; [exact Hacq|].
  rewrite Htr, length_app. simpl. lia.
Defined.

(** C8 at work: an attribute named [ownerName] is turned down. *)
Lemma acquireLock_reserved_witness :
  closed (client (start emptyWorld clientA)) = false /\
  acquireLock 1 "k"
    [WithAdditionalAttributes {[ "ownerName" := AttributeValueMemberS "Z" ]}]
    (start emptyWorld clientA) =
  (Some (None, Some (ErrReservedAttribute "key")), start emptyWorld clientA).
Proof.
  split; [computed|].
  destruct (acquireLock_reserved 0 "k"
              [WithAdditionalAttributes {[ "ownerName" := AttributeValueMemberS "Z" ]}]
              (start emptyWorld clientA)) as [_ Hrej]; [computed|].
  apply Hrej. exists "ownerName". split; [right; left; reflexivity|].
  vm_compute. eauto.
Defined.

End Witnesses.


(** * More of the client *)

Section Codec.

Context {W : Type} `{RT : Runtime W}.

(** What the decoder does with any row: the deletions it makes between
    its reads do not change what it reads. *)
Lemma createLockItem_reads opt (it : item) (st : State W) :
  let lease := readStringAttr (it !! attrLeaseDuration) in
  createLockItem opt it st =
    (match (if String.eqb lease "" then Some 0%Z else ParseDuration lease) with
     | Some d =>
         (Some (mkLock (glo_partitionKey opt) None (readBytesAttr (it !! attrData))
                  (glo_deleteLockOnRelease opt)
                  (readStringAttr (it !! attrOwnerName)) d (fst (now st))
                  (readStringAttr (it !! attrRecordVersionNumber))
                  (bool_decide (is_Some (it !! attrIsReleased)))
                  (delete (partitionKeyName (client st))
                     (delete attrIsReleased
                        (delete attrRecordVersionNumber
                           (delete attrLeaseDuration
                              (delete attrOwnerName (delete attrData it))))))
                  None),
          None)
     | None => (None, Some (ErrParseLeaseDuration lease))
     end,
     snd (now st)).
Proof.
  unfold createLockItem, bind, getClient, ret.
  destruct (now st) as [t st1] eqn:Hnow.
  pose proof (now_frame st) as (_ & _ & _ & Hc). rewrite Hnow in Hc. simpl in Hc.
  cbv zeta. rewrite !lookup_delete_ne by discriminate.
  assert (Hdata : match it !! attrData with
                  | Some r => readBytesAttr (Some r)
                  | None => None
                  end = readBytesAttr (it !! attrData)).
  { destruct (it !! attrData); reflexivity. }
  rewrite Hdata. cbn [fst snd].
  destruct (String.eqb _ _); [reflexivity|].
  destruct (ParseDuration _); reflexivity.
Qed.

(** X1. Decoding a row fails exactly when its lease is a non-empty string
    that does not parse; the error is then the parse error of that lease
    and no lock comes back. A row without a lease decodes with a lease of
    zero, and one without owner or RVN with empty strings. Decoding asks
    nothing of the store and leaves heap and client alone. *)
Theorem createLockItem_errors opt (it : item) (st : State W) :
  let lease := readStringAttr (it !! attrLeaseDuration) in
  let r := createLockItem opt it st in
  (fst (fst r) = None <-> lease <> "" /\ ParseDuration lease = None) /\
  (snd (fst r) <> None <-> lease <> "" /\ ParseDuration lease = None) /\
  (forall e, snd (fst r) = Some e -> e = ErrParseLeaseDuration lease) /\
  (forall l, fst (fst r) = Some l ->
     (it !! attrLeaseDuration = None -> lk_leaseDuration l = 0%Z) /\
     (it !! attrOwnerName = None -> lk_ownerName l = "") /\
     (it !! attrRecordVersionNumber = None -> lk_recordVersionNumber l = "") /\
     (it !! attrData = None -> lk_data l = None) /\
     (lk_isReleased l = true <-> is_Some (it !! attrIsReleased))) /\
  trace (snd r) = trace st /\ sameClient st (snd r).
Proof.
  intros lease r. subst r. rewrite createLockItem_reads. fold lease.
  cbn [fst snd].
  split; [|split; [|split; [|split; [|split]]]].
  - destruct (String.eqb lease "") eqn:He.
    + apply String.eqb_eq in He. simpl. split; [discriminate|]. intros [H _]. contradiction.
    + apply String.eqb_neq in He. destruct (ParseDuration lease); simpl.
      * split; [discriminate|]. intros [_ H]. discriminate.
      * split; [intros _; split; [assumption|reflexivity] | reflexivity].
  - destruct (String.eqb lease "") eqn:He.
    + apply String.eqb_eq in He. simpl. split; [congruence|]. intros [H _]. contradiction.
    + apply String.eqb_neq in He. destruct (ParseDuration lease); simpl.
      * split; [congruence|]. intros [_ H]. discriminate.
      * split; [intros _; split; [assumption|reflexivity] | discriminate].
  - intros e. destruct (if String.eqb lease "" then _ else _); simpl; congruence.
  - intros l. destruct (String.eqb lease "") eqn:He.
    + apply String.eqb_eq in He. simpl. intros [= <-]. simpl.
      split; [reflexivity|]. split; [intros ->; reflexivity|].
      split; [intros ->; reflexivity|]. split; [intros ->; reflexivity|].
      apply bool_decide_eq_true.
    + apply String.eqb_neq in He. destruct (ParseDuration lease); simpl; [|discriminate].
      intros [= <-]. simpl. split.
      { intros Hn. exfalso. apply He. subst lease. rewrite Hn. reflexivity. }
      split; [intros ->; reflexivity|].
      split; [intros ->; reflexivity|]. split; [intros ->; reflexivity|].
      apply bool_decide_eq_true.
  - apply now_trace.
  - apply now_frame.
Qed.

Lemma proposedItem_ownerName c o data rvn :
  proposedItem c o data rvn !! attrOwnerName =
  Some (AttributeValueMemberS (ownerName c)).
Proof.
  unfold proposedItem.
  destruct data; rewrite ?lookup_insert_ne by discriminate;
    apply lookup_insert_eq.
Qed.

Lemma proposedItem_recordVersionNumber c o data rvn :
  proposedItem c o data rvn !! attrRecordVersionNumber =
  Some (AttributeValueMemberS rvn).
Proof.
  unfold proposedItem.
  destruct data; rewrite ?lookup_insert_ne by discriminate;
    apply lookup_insert_eq.
Qed.

Lemma proposedItem_partitionKey c o data rvn :
  ~ In (partitionKeyName c)
      [attrOwnerName; attrLeaseDuration; attrRecordVersionNumber; attrData] ->
  proposedItem c o data rvn !! partitionKeyName c =
  Some (AttributeValueMemberS (glo_partitionKey o)).
Proof.
  intros Hpk. unfold proposedItem.
  assert (H1 : attrOwnerName <> partitionKeyName c) by (intros E; apply Hpk; rewrite <- E; simpl; tauto).
  assert (H2 : attrLeaseDuration <> partitionKeyName c) by (intros E; apply Hpk; rewrite <- E; simpl; tauto).
  assert (H3 : attrRecordVersionNumber <> partitionKeyName c) by (intros E; apply Hpk; rewrite <- E; simpl; tauto).
  assert (H4 : attrData <> partitionKeyName c) by (intros E; apply Hpk; rewrite <- E; simpl; tauto).
  destruct data; rewrite ?lookup_insert_ne by assumption; apply lookup_insert_eq.
Qed.

(** X2. What an attempt writes, a reader decodes: the row built for a
    put, read back by a client of the same table, gives the writer's
    owner name, lease duration, RVN and data, is not released, and has
    the additional attributes the writer merged, as long as these use
    none of the engine's column names and the partition key is not named
    [isReleased]. *)
Theorem createLockItem_proposedItem c o data rvn opt (st : State W) :
  partitionKeyName (client st) = partitionKeyName c ->
  Duration_String (leaseDuration c) <> "" ->
  ParseDuration (Duration_String (leaseDuration c)) = Some (leaseDuration c) ->
  (forall k, In k (attrIsReleased :: reservedNames c) ->
     glo_additionalAttributes o !! k = None) ->
  partitionKeyName c <> attrIsReleased ->
  createLockItem opt (proposedItem c o data rvn) st =
    ((Some (mkLock (glo_partitionKey opt) None data (glo_deleteLockOnRelease opt)
              (ownerName c) (leaseDuration c) (fst (now st)) rvn false
              (glo_additionalAttributes o) None),
      None),
     snd (now st)).
Proof.
  intros Hpk Hne Hparse Hattrs Hrel.
  rewrite createLockItem_reads. cbv zeta.
  rewrite proposedItem_leaseDuration, proposedItem_ownerName,
    proposedItem_recordVersionNumber.
  cbn [readStringAttr]. apply String.eqb_neq in Hne. rewrite Hne, Hparse.
  assert (Hdata : readBytesAttr (proposedItem c o data rvn !! attrData) = data).
  { destruct data as [b|].
    - rewrite proposedItem_data. reflexivity.
    - unfold proposedItem.
      rewrite !lookup_insert_ne by discriminate.
      destruct (decide (partitionKeyName c = attrData)) as [E|E].
      + rewrite E, lookup_insert_eq. reflexivity.
      + rewrite lookup_insert_ne by assumption.
        rewrite (Hattrs attrData); [reflexivity|]. simpl. tauto. }
  assert (Hreleased :
    bool_decide (is_Some (proposedItem c o data rvn !! attrIsReleased)) = false).
  { apply bool_decide_eq_false. intros [v Hv].
    rewrite proposedItem_lookup_other in Hv; try discriminate; [|congruence].
    rewrite (Hattrs attrIsReleased) in Hv; [discriminate|]. simpl. tauto. }
  assert (Hrest :
    delete (partitionKeyName (client st))
      (delete attrIsReleased
         (delete attrRecordVersionNumber
            (delete attrLeaseDuration
               (delete attrOwnerName (delete attrData (proposedItem c o data rvn))))))
    = glo_additionalAttributes o).
  { apply map_eq. intros k. rewrite Hpk.
    destruct (decide (k = partitionKeyName c)) as [->|H1].
    { rewrite lookup_delete_eq. symmetry. apply Hattrs. simpl. tauto. }
    rewrite lookup_delete_ne by congruence.
    destruct (decide (k = attrIsReleased)) as [->|H2].
    { rewrite lookup_delete_eq. symmetry. apply Hattrs. simpl. tauto. }
    rewrite lookup_delete_ne by congruence.
    destruct (decide (k = attrRecordVersionNumber)) as [->|H3].
    { rewrite lookup_delete_eq. symmetry. apply Hattrs. simpl. tauto. }
    rewrite lookup_delete_ne by congruence.
    destruct (decide (k = attrLeaseDuration)) as [->|H4].
    { rewrite lookup_delete_eq. symmetry. apply Hattrs. simpl. tauto. }
    rewrite lookup_delete_ne by congruence.
    destruct (decide (k = attrOwnerName)) as [->|H5].
    { rewrite lookup_delete_eq. symmetry. apply Hattrs. simpl. tauto. }
    rewrite lookup_delete_ne by congruence.
    destruct (decide (k = attrData)) as [->|H6].
    { rewrite lookup_delete_eq. symmetry. apply Hattrs. simpl. tauto. }
    rewrite lookup_delete_ne by congruence.
    apply proposedItem_lookup_other; assumption. }
  rewrite Hdata, Hreleased, Hrest. reflexivity.
Qed.

End Codec.

Section GetLock.

Context {W : Type} `{RT : Runtime W}.

(** A registered lock is returned from the registry. *)
Lemma get_registered pk p (st : State W) :
  closed (client st) = false -> ctx_Err (world st) = None ->
  locks (client st) !! pk = Some p ->
  get pk st = ((Some p, None), st).
Proof.
  intros Hopen Hctx Hp. destruct st as [w tr h ms cs c].
  cbn [world trace heap monitors cancelled client] in *.
  cbv beta iota zeta delta [get isClosed perform silent bind getClient ret
    world trace heap monitors cancelled client glo_partitionKey].
  rewrite Hopen, Hctx, Hp. reflexivity.
Qed.

(** X3. [get] asks nothing of the store and changes nothing when the
    client is closed, when the context is done, or when the client holds
    the lock: it returns [ClientClosed], the context's error, or the
    handle of the registry, in this order of precedence. *)
Theorem get_without_store pk (st : State W) :
  closed (client st) = true \/ ctx_Err (world st) <> None \/
  is_Some (locks (client st) !! pk) ->
  get pk st =
    (if closed (client st) then (None, Some ErrClientClosed)
     else match ctx_Err (world st) with
          | Some e => (None, Some e)
          | None => (locks (client st) !! pk, None)
          end,
     st).
Proof.
  intros Hcase. destruct st as [w tr h ms cs c].
  cbn [world trace heap monitors cancelled client] in *.
  cbv beta iota zeta delta [get isClosed perform silent bind getClient ret
    world trace heap monitors cancelled client glo_partitionKey].
  destruct (closed c); [reflexivity|].
  destruct (ctx_Err w) as [e|]; [reflexivity|].
  destruct Hcase as [H | [H | [p Hp]]]; [discriminate | congruence |].
  rewrite Hp. reflexivity.
Qed.

(** A lock that is not in the registry is read from the store. *)
Lemma get_reads pk (st : State W) :
  closed (client st) = false -> ctx_Err (world st) = None ->
  locks (client st) !! pk = None ->
  get pk st =
    (let (x, s) :=
       getLockFromDynamoDB
         (mkGetLockOptions pk false None zeroTime false None ∅ false 0 0 None false)
         st in
     match x with
     | (_, Some e) => ((None, Some e), s)
     | (None, None) => let (p, s') := alloc emptyLock s in ((Some p, None), s')
     | (Some l, None) =>
         let (p, s') := alloc (updateRVN l "" zeroTime (lk_leaseDuration l)) s in
         ((Some p, None), s')
     end).
Proof.
  intros Hopen Hctx Hfree. destruct st as [w tr h ms cs c].
  cbn [world trace heap monitors cancelled client] in *.
  cbv beta iota zeta delta [get isClosed perform silent bind getClient ret
    world trace heap monitors cancelled client glo_partitionKey].
  rewrite Hopen, Hctx, Hfree.
  destruct (getLockFromDynamoDB _ _) as [[[l|] [e|]] s]; reflexivity.
Qed.

(** X4. Otherwise [get] reads the row once, consistently and by its
    partition key, and writes nothing. It never returns neither handle
    nor error: a failed read or decoding gives the error; an absent row
    gives a new empty handle; a present row gives a new handle with the
    decoded fields, but an empty RVN and the zero time as lookup time.
    The registry stays as it was: the lock is not acquired. *)
Theorem get_from_store pk (st : State W) :
  closed (client st) = false ->
  ctx_Err (world st) = None ->
  locks (client st) !! pk = None ->
  let o := mkGetLockOptions pk false None zeroTime false None ∅ false 0 0 None false in
  let read := getLockFromDynamoDB o st in
  let r := get pk st in
  (exists res,
     trace (snd r) = trace st ++ [EvGetItem (readRequest (client st) pk) res]) /\
  client (snd r) = client st /\
  match fst read with
  | (_, Some e) => fst r = (None, Some e) /\ heap (snd r) = heap st
  | (found, None) =>
      let p := fresh (dom (heap st)) in
      fst r = (Some p, None) /\ heap st !! p = None /\
      heap (snd r) =
        <[p := match found with
               | None => emptyLock
               | Some l => updateRVN l "" zeroTime (lk_leaseDuration l)
               end]> (heap st)
  end.
Proof.
  intros Hopen Hctx Hfree o read r.
  pose proof (get_reads pk st Hopen Hctx Hfree) as Hget. fold o in Hget.
  subst r. rewrite Hget. subst read.
  destruct (getLockFromDynamoDB o st) as [[found rerr] s] eqn:Hread.
  destruct (getLockFromDynamoDB_spec _ _ _ _ Hread) as [(Hh & _ & _ & Hc) [res Htr]].
  cbn [fst snd].
  destruct rerr as [e|].
  - split; [exists res; destruct found; exact Htr|].
    destruct found; simpl; repeat split; assumption.
  - assert (Hfresh : heap st !! fresh (dom (heap st)) = None).
    { apply not_elem_of_dom. apply is_fresh. }
    destruct found as [l|]; unfold alloc; simpl; rewrite Hh;
      (split; [exists res; exact Htr|]); (split; [exact Hc|]);
      repeat split; assumption.
Qed.

End GetLock.

Section Attempt.

Context {W : Type} `{RT : Runtime W}.

Lemma registered_frame (s0 s1 st' : State W) name l p :
  sameClient s0 s1 -> registered s1 name l p st' -> registered s0 name l p st'.
Proof.
  intros (Hh & Hm & Hc & Hcl) H.
  unfold registered in *. rewrite <- Hh, <- Hm, <- Hc, <- Hcl. exact H.
Qed.

(** A put with the whole state it leaves. *)
Lemma putLockItemAndStartSessionMonitor_state attrs pk del data rvn sm req st res st' :
  putLockItemAndStartSessionMonitor attrs pk del data rvn sm req st = (res, st') ->
  let c := client st in
  exists resp,
    trace st' = trace st ++ [EvPutItem req resp] /\
    match resp with
    | Some e => res = (None, Some (parseDynamoDBError e refused)) /\ sameClient st st'
    | None =>
        let p := fresh (dom (heap st)) in
        res = (Some p, None) /\
        registered st pk
          (mkLock pk None data del (ownerName c) (leaseDuration c) (fst (now st)) rvn
             false attrs sm) p st'
    end.
Proof.
  intros Hput c. subst c. revert Hput.
  unfold putLockItemAndStartSessionMonitor, bind at 1, getClient. unfold bind at 1.
  pose proof (now_frame st) as (Hh & Hm & Hc & Hcl). pose proof (now_trace st) as Ht.
  destruct (now st) as [t s1]. cbn [fst snd] in *.
  unfold bind at 1, perform at 1.
  destruct (PutItem req (world s1)) as [resp w2]. cbn [fst snd].
  intros Hput. exists resp. destruct resp as [e|].
  - unfold ret in Hput. inversion Hput; subst. cbn [trace]. rewrite Ht.
    split; [reflexivity|]. split; [reflexivity|]. repeat split; assumption.
  - unfold bind at 1, alloc at 1 in Hput.
    cbn [heap world trace monitors cancelled client] in Hput.
    unfold bind at 1, putClient at 1 in Hput.
    cbn [heap world trace monitors cancelled client] in Hput.
    unfold bind at 1, tryAddSessionMonitor, bind at 1, deref at 1 in Hput.
    cbn [heap world trace monitors cancelled client] in Hput.
    rewrite lookup_insert_eq in Hput. cbn [default from_option lk_sessionMonitor] in Hput.
    unfold id in Hput. cbn [lk_sessionMonitor] in Hput.
    unfold uniqueIdentifier in Hput. cbn [lk_partitionKey lk_sortKey] in Hput.
    cbn [default from_option] in Hput. unfold id in Hput.
    rewrite ?append_empty_r in Hput.
    assert (Hfresh : heap st !! fresh (dom (heap st)) = None).
    { apply not_elem_of_dom. apply is_fresh. }
    rewrite ?Hh, ?Hm, ?Hc, ?Hcl in Hput.
    destruct sm as [m|]; [destruct (callback m) eqn:Hcb|];
      unfold ret in Hput; cbn [heap world trace monitors cancelled client] in Hput;
      inversion Hput; subst; cbn [trace]; rewrite Ht;
      (split; [reflexivity|]); (split; [reflexivity|]);
      unfold registered, startsMonitor;
      cbn [heap client monitors cancelled lk_sessionMonitor locks set_locks
           set_sessionMonitorCancellations sessionMonitorCancellations];
      rewrite ?Hcb; repeat split; try assumption; try reflexivity.
Qed.

(** One attempt in full: its read; then no put, or one put of the proposed
    item under one of the two conditions, and what the answer to the put
    does to the state. *)
Lemma storeLock_detail o st o' l err st' :
  storeLock o st = ((o', (l, err)), st') ->
  exists existing rerr st1,
    getLockFromDynamoDB o st = ((existing, rerr), st1) /\
    match rerr with
    | Some e => l = None /\ err = Some e /\ st' = st1
    | None =>
        let c := client st in
        let om := set_additionalAttributes o (mergedAdditionalAttributes o existing) in
        let rvn := fst (generateRecordVersionNumber st1) in
        let data := newLockData o existing in
        (l = None /\ trace st' = trace st1 /\ sameClient st st') \/
        (exists cond resp,
           (cond = newOrReleasedCondition (partitionKeyName c) \/
            exists ex,
              existing = Some ex /\ lk_isReleased ex = false /\
              cond = expiredCondition (partitionKeyName c) (lk_recordVersionNumber ex)) /\
           trace st' = trace st1 ++
             [EvPutItem (mkPutItemInput (proposedItem c om data rvn) (tableName c) cond)
                resp] /\
           match resp with
           | Some e =>
               l = None /\ sameClient st st' /\
               err = (if isLockNotGranted (parseDynamoDBError e refused) then None
                      else Some (parseDynamoDBError e refused))
           | None =>
               err = None /\ l = Some (fresh (dom (heap st))) /\
               exists t,
                 registered st (glo_partitionKey o)
                   (mkLock (glo_partitionKey o) None data (glo_deleteLockOnRelease o)
                      (ownerName c) (leaseDuration c) t rvn false
                      (mergedAdditionalAttributes o existing) (glo_sessionMonitor o))
                   (fresh (dom (heap st))) st'
           end)
    end.
Proof.
  unfold storeLock, bind at 1, getClient. unfold bind at 1.
  destruct (getLockFromDynamoDB o st) as [[existing rerr] st1] eqn:Hread.
  intros Hs. exists existing, rerr, st1. split; [reflexivity|].
  pose proof (getLockFromDynamoDB_spec _ _ _ _ Hread) as [Hf1 _].
  destruct rerr as [e|].
  { simpl in Hs. inversion Hs; subst. repeat split. }
  unfold bind at 1 in Hs.
  pose proof (generateRecordVersionNumber_frame st1) as Hf2.
  pose proof (generateRecordVersionNumber_trace st1) as Ht2.
  destruct (generateRecordVersionNumber st1) as [rvn st2]. cbn [fst snd] in *.
  simpl in Hs.
  assert (Hf12 : sameClient st st2) by (eapply sameClient_trans; eauto).
  cbv zeta.
  assert (Hput : forall cond r s,
    putLockItemAndStartSessionMonitor (mergedAdditionalAttributes o existing)
      (glo_partitionKey o) (glo_deleteLockOnRelease o) (newLockData o existing) rvn
      (glo_sessionMonitor o)
      (mkPutItemInput
         (proposedItem (client st)
            (set_additionalAttributes o (mergedAdditionalAttributes o existing))
            (newLockData o existing) rvn) (tableName (client st)) cond) s = (r, st') ->
    sameClient st s -> trace s = trace st1 ->
    (l, err) = swallowNotGranted r ->
    exists resp,
      trace st' = trace st1 ++
        [EvPutItem
           (mkPutItemInput
              (proposedItem (client st)
                 (set_additionalAttributes o (mergedAdditionalAttributes o existing))
                 (newLockData o existing) rvn) (tableName (client st)) cond) resp] /\
      match resp with
      | Some e =>
          l = None /\ sameClient st st' /\
          err = (if isLockNotGranted (parseDynamoDBError e refused) then None
                 else Some (parseDynamoDBError e refused))
      | None =>
          err = None /\ l = Some (fresh (dom (heap st))) /\
          exists t,
            registered st (glo_partitionKey o)
              (mkLock (glo_partitionKey o) None (newLockData o existing)
                 (glo_deleteLockOnRelease o) (ownerName (client st))
                 (leaseDuration (client st)) t rvn false
                 (mergedAdditionalAttributes o existing) (glo_sessionMonitor o))
              (fresh (dom (heap st))) st'
      end).
  { intros cond r s Hp Hfs Hts Hr.
    apply putLockItemAndStartSessionMonitor_state in Hp as (resp & Htr & Hres).
    rewrite Hts in Htr. exists resp. split; [exact Htr|].
    pose proof Hfs as (Hh & _ & _ & Hcl).
    destruct resp as [e|].
    - destruct Hres as [-> Hsame]. simpl in Hr.
      split; [destruct (isLockNotGranted _); congruence|].
      split; [eapply sameClient_trans; eauto|].
      destruct (isLockNotGranted _); congruence.
    - cbv zeta in Hres. destruct Hres as [-> Hreg]. simpl in Hr.
      injection Hr as -> ->. rewrite Hh. split; [reflexivity|]. split; [reflexivity|].
      rewrite Hh, Hcl in Hreg. eexists. eapply registered_frame; eauto. }
  assert (Hcheck : forall ob s,
    (let (r, s') := checkBudget ob s in ((ob, r), s')) = ((o', (l, err)), st') ->
    sameClient st s -> trace s = trace st1 ->
    l = None /\ trace st' = trace st1 /\ sameClient st st').
  { intros ob s Hc Hfs Hts. rewrite checkBudget_spec in Hc.
    pose proof (now_frame s) as Hn. pose proof (now_trace s) as Ht.
    injection Hc as <- <- <- <-.
    split; [reflexivity|]. split; [congruence|]. eapply sameClient_trans; eauto. }
  pose proof Hf1 as (_ & _ & _ & Hc1). pose proof Hf2 as (_ & _ & _ & Hc2).
  destruct existing as [ex|].
  2: { unfold bind at 1 in Hs.
       rewrite upsertAndMonitorNewOrReleasedLock_eq in Hs.
       destruct (putLockItemAndStartSessionMonitor _ _ _ _ _ _ _ _) as [r s'] eqn:Hp.
       simpl in Hs. injection Hs as Ho Hr <-.
       rewrite Hc2, Hc1 in Hp. right. eexists. 
       destruct (Hput _ _ _ Hp Hf12 Ht2 (eq_sym Hr)) as (resp & Htr & Hres).
       exists resp. split; [left; reflexivity|]. split; assumption. }
  destruct (lk_isReleased ex) eqn:Hrel.
  { unfold bind at 1 in Hs.
    rewrite upsertAndMonitorNewOrReleasedLock_eq in Hs.
    destruct (putLockItemAndStartSessionMonitor _ _ _ _ _ _ _ _) as [r s'] eqn:Hp.
    simpl in Hs. injection Hs as Ho Hr <-.
    rewrite Hc2, Hc1 in Hp. right. eexists.
    destruct (Hput _ _ _ Hp Hf12 Ht2 (eq_sym Hr)) as (resp & Htr & Hres).
    exists resp. split; [left; reflexivity|]. split; assumption. }
  destruct (glo_lockTryingToBeAcquired o) as [inFlight|].
  - destruct (String.eqb _ _).
    + unfold bind at 1 in Hs.
      pose proof (now_frame st2) as Hf3. pose proof (now_trace st2) as Ht3.
      destruct (now st2) as [t st3]. cbn [fst snd] in *.
      assert (Hf13 : sameClient st st3) by (eapply sameClient_trans; eauto).
      pose proof Hf3 as (_ & _ & _ & Hc3).
      destruct (isExpired inFlight t).
      * unfold bind at 1 in Hs.
        rewrite upsertAndMonitorExpiredLock_eq in Hs.
        destruct (putLockItemAndStartSessionMonitor _ _ _ _ _ _ _ _) as [r s'] eqn:Hp.
        simpl in Hs. injection Hs as Ho Hr <-.
        rewrite Hc3, Hc2, Hc1 in Hp. right. eexists.
        assert (Ht13 : trace st3 = trace st1) by congruence.
        destruct (Hput _ _ _ Hp Hf13 Ht13 (eq_sym Hr)) as (resp & Htr & Hres).
        exists resp. split; [right; exists ex; repeat split; assumption|].
        split; assumption.
      * unfold bind at 1 in Hs. left.
        eapply Hcheck; [exact Hs | exact Hf13 | congruence].
    + unfold bind at 1 in Hs. left.
      eapply Hcheck; [exact Hs | exact Hf12 | congruence].
  - destruct (glo_failIfLocked o).
    + injection Hs as <- <- <- <-. left.
      split; [reflexivity|]. split; [congruence | exact Hf12].
    + unfold bind at 1 in Hs. left.
      eapply Hcheck; [exact Hs | exact Hf12 | congruence].
Qed.

End Attempt.

Section Granting.

Context {W : Type} `{RT : Runtime W}.

Lemma applyOptions_partitionKey opts : forall opt,
  Forall isAcquireLockOption opts ->
  opt_partitionKey (applyOptions opts opt) = opt_partitionKey opt.
Proof.
  unfold applyOptions.
  induction opts as [|f opts IH]; intros opt Hall; [reflexivity|].
  inversion Hall as [|? ? Hf Hrest]; subst. simpl. rewrite IH by assumption.
  destruct Hf; reflexivity.
Qed.

(** Where the loop of an acquire can end, under an invariant kept by the
    attempts that grant nothing and raise nothing: at an attempt's error,
    at an attempt's grant, or at a wait that the context cut short. *)
Lemma acquireLoop_run (Inv : getLockOptions -> State W -> Prop) :
  (forall o st o' st',
     Inv o st -> storeLock o st = ((o', (None, None)), st') -> Inv o' st') ->
  (forall o st w d done,
     Inv o st ->
     Inv o (mkState w (trace st ++ [EvSleep d done]) (heap st) (monitors st)
              (cancelled st) (client st))) ->
  forall fuel o st r st',
    Inv o st -> acquireLoop fuel o st = (Some r, st') ->
    (exists o1 st1 o2 l e,
       Inv o1 st1 /\ storeLock o1 st1 = ((o2, (l, Some e)), st') /\
       r = (None, Some e)) \/
    (exists o1 st1 o2 p,
       Inv o1 st1 /\ storeLock o1 st1 = ((o2, (Some p, None)), st') /\
       r = (Some p, None)) \/
    (exists o1 st1 e d,
       Inv o1 st1 /\ r = (None, Some e) /\ sameClient st1 st' /\
       trace st' = trace st1 ++ [EvSleep d (Some e)]).
Proof.
  intros Hstep Hwait fuel. induction fuel as [|fuel IH]; intros o st r st' HI.
  - discriminate.
  - simpl. unfold bind at 1.
    destruct (storeLock o st) as [[o' [l err]] s1] eqn:Hs.
    destruct err as [e|]; [|destruct l as [p|]].
    + intros Hr. left. exists o, st, o', l, e.
      destruct l; inversion Hr; subst; repeat split; assumption.
    + intros [= <- <-]. right. left. exists o, st, o', p. repeat split; assumption.
    + pose proof (Hstep _ _ _ _ HI Hs) as HI'.
      unfold waitRefresh, bind, perform.
      destruct (ctx_wait _ _) as [done w]. destruct done as [e|].
      * intros [= <- <-]. right. right. exists o', s1, e, (glo_refreshPeriodDuration o').
        repeat split. assumption.
      * intros Hr. eapply IH; [|exact Hr]. apply Hwait. exact HI'.
Qed.

(** A property of the state that the attempts and the waits keep holds
    when the loop ends, however it ends. *)
Lemma acquireLoop_invariant (Inv : State W -> Prop) :
  (forall o st, Inv st -> Inv (snd (storeLock o st))) ->
  (forall st w d done,
     Inv st ->
     Inv (mkState w (trace st ++ [EvSleep d done]) (heap st) (monitors st)
           (cancelled st) (client st))) ->
  forall fuel o st, Inv st -> Inv (snd (acquireLoop fuel o st)).
Proof.
  intros Hstep Hwait fuel. induction fuel as [|fuel IH]; intros o st HI.
  - exact HI.
  - simpl. unfold bind at 1. pose proof (Hstep o st HI) as HI'.
    destruct (storeLock o st) as [[o' [l err]] s1]. cbn [snd] in HI'.
    destruct err as [e|]; [|destruct l as [p|]].
    + destruct l; exact HI'.
    + exact HI'.
    + unfold waitRefresh, bind, perform.
      destruct (ctx_wait _ _) as [done w]. destruct done as [e|].
      * cbn [snd]. apply Hwait. exact HI'.
      * apply IH. apply Hwait. exact HI'.
Qed.

(** An attempt that grants nothing and raises nothing leaves the heap, the
    registry and the monitors alone, and keeps what the caller asked for. *)
Lemma storeLock_retry o st o' st' :
  storeLock o st = ((o', (None, None)), st') ->
  sameClient st st' /\ sameRequest o o'.
Proof.
  intros Hs.
  destruct (storeLock_detail _ _ _ _ _ _ Hs) as (ex & rerr & st1 & Hread & Hd).
  destruct (storeLock_outcome _ _ _ _ _ _ Hs) as (ex' & rerr' & st1' & Hread' & Ho).
  rewrite Hread in Hread'. injection Hread' as <- <- <-.
  destruct rerr as [e|]; [destruct Hd as (_ & ? & _); discriminate|].
  destruct Ho as (Hreq & _). split; [|exact Hreq].
  destruct Hd as [(_ & _ & Hsame) | (cond & resp & _ & _ & Hresp)]; [exact Hsame|].
  destruct resp as [e|].
  - destruct Hresp as (_ & Hsame & _). exact Hsame.
  - destruct Hresp as (_ & ? & _). discriminate.
Qed.

Lemma sameRequest_trans o1 o2 o3 :
  sameRequest o1 o2 -> sameRequest o2 o3 -> sameRequest o1 o3.
Proof.
  intros (A1 & A2 & A3 & A4 & A5 & A6 & A7 & A8) (B1 & B2 & B3 & B4 & B5 & B6 & B7 & B8).
  repeat split; congruence.
Qed.

Lemma sameRequest_refl o : sameRequest o o.
Proof. repeat split. Qed.

(** An attempt that ends in an error registers nothing. *)
Lemma storeLock_failed o st o' l e st' :
  storeLock o st = ((o', (l, Some e)), st') -> sameClient st st'.
Proof.
  intros Hs.
  destruct (storeLock_detail _ _ _ _ _ _ Hs) as (ex & rerr & st1 & Hread & Hd).
  destruct (getLockFromDynamoDB_spec _ _ _ _ Hread) as [Hsame _].
  destruct rerr as [e'|]; [destruct Hd as (_ & _ & ->); exact Hsame|].
  destruct Hd as [(_ & _ & H) | (cond & resp & _ & _ & Hresp)]; [exact H|].
  destruct resp as [e'|].
  - destruct Hresp as (_ & H & _). exact H.
  - destruct Hresp as (? & _). discriminate.
Qed.

(** How an acquire ends: with an error and the heap, the registry and the
    monitors as before; or with a handle registered by the put that the
    store accepted. *)
Lemma acquireLock_ends fuel pk opts (st : State W) r st' :
  Forall isAcquireLockOption opts ->
  acquireLock fuel pk opts st = (Some r, st') ->
  let opt := applyOptions opts
               (mkAcquireLockOptions pk None false false false 0 0 ∅ None) in
  match r with
  | (None, err) => err <> None /\ sameClient st st'
  | (Some p, err) =>
      err = None /\ closed (client st) = false /\
      exists data t rvn attrs it cond evs,
        registered st pk
          (mkLock pk None data (opt_deleteLockOnRelease opt) (ownerName (client st))
             (leaseDuration (client st)) t rvn false attrs (opt_sessionMonitor opt))
          p st' /\
        trace st' =
          trace st ++ evs ++
            [EvPutItem (mkPutItemInput it (tableName (client st)) cond) None] /\
        it !! attrRecordVersionNumber = Some (AttributeValueMemberS rvn)
  end.
Proof.
  intros Hopts Hacq opt.
  destruct (closed (client st)) eqn:Hopen.
  { unfold acquireLock, isClosed, bind, getClient, ret in Hacq.
    rewrite Hopen in Hacq. injection Hacq as <- <-.
    split; [discriminate | apply sameClient_refl]. }
  destruct (contains (opt_additionalAttributes opt) (reservedNames (client st)))
    eqn:Hres.
  { unfold acquireLock, isClosed, bind, getClient, ret in Hacq.
    rewrite Hopen in Hacq. cbv beta iota in Hacq. rewrite Hopen in Hacq.
    fold opt in Hacq. rewrite Hres in Hacq. injection Hacq as <- <-.
    split; [discriminate | apply sameClient_refl]. }
  rewrite acquireLock_open in Hacq by assumption. fold opt in Hacq.
  pose proof (now_frame st) as Hn. pose proof (now_trace st) as Htn.
  set (s0 := snd (now st)) in *. set (o0 := initialGetLockOptions opt (fst (now st))) in *.
  pose (Inv := fun (o : getLockOptions) (s : State W) =>
    sameClient s0 s /\ sameRequest o0 o /\ exists evs, trace s = trace s0 ++ evs).
  assert (Hstep : forall o s o' s',
    Inv o s -> storeLock o s = ((o', (None, None)), s') -> Inv o' s').
  { intros o s o' s' (Hc & Hr & evs & Ht) Hs.
    destruct (storeLock_retry _ _ _ _ Hs) as [Hc' Hr'].
    destruct (storeLock_first_event _ _ _ _ Hs) as (res & evs1 & Ht1).
    split; [eapply sameClient_trans; eauto|].
    split; [eapply sameRequest_trans; eauto|].
    eexists. rewrite Ht1, Ht, <- app_assoc. reflexivity. }
  assert (Hwait : forall o s w d done,
    Inv o s ->
    Inv o (mkState w (trace s ++ [EvSleep d done]) (heap s) (monitors s)
             (cancelled s) (client s))).
  { intros o s w d done (Hc & Hr & evs & Ht).
    split; [exact Hc|]. split; [exact Hr|].
    eexists. cbn [trace]. rewrite Ht, <- app_assoc. reflexivity. }
  assert (HI0 : Inv o0 s0).
  { split; [apply sameClient_refl|]. split; [apply sameRequest_refl|].
    exists []. now rewrite app_nil_r. }
  destruct (acquireLoop_run Inv Hstep Hwait _ _ _ _ _ HI0 Hacq)
    as [(o1 & s1 & o2 & l & e & (Hc & _) & Hs & ->) |
        [(o1 & s1 & o2 & p & (Hc & Hr & evs & Ht) & Hs & ->) |
         (o1 & s1 & e & d & (Hc & _) & -> & Hc' & _)]].
  - split; [discriminate|].
    eapply sameClient_trans; [exact Hn|]. eapply sameClient_trans; [exact Hc|].
    eapply storeLock_failed; eauto.
  - destruct (storeLock_detail _ _ _ _ _ _ Hs) as (ex & rerr & st1 & Hread & Hd).
    destruct (getLockFromDynamoDB_spec _ _ _ _ Hread) as [_ [res Htr1]].
    destruct rerr as [e|]; [destruct Hd as (? & _); discriminate|].
    destruct Hd as [(? & _) | (cond & resp & _ & Htr & Hresp)]; [discriminate|].
    destruct resp as [e|]; [destruct Hresp as (? & _); discriminate|].
    destruct Hresp as (_ & [= ->] & t & Hreg).
    assert (Hs01 : sameClient st s1) by (eapply sameClient_trans; eauto).
    apply (registered_frame st) in Hreg; [|exact Hs01].
    destruct Hs01 as (Hh & _ & _ & Hcl).
    assert (Hpk : glo_partitionKey o1 = pk).
    { destruct Hr as (-> & _). subst o0. cbn [glo_partitionKey initialGetLockOptions].
      subst opt. now rewrite applyOptions_partitionKey. }
    destruct Hr as (_ & Hdel & Hsm & _).
    cbn [glo_deleteLockOnRelease glo_sessionMonitor initialGetLockOptions o0]
      in Hdel, Hsm.
    rewrite Hpk, Hdel, Hsm in *. rewrite Hh in *. rewrite Hcl in *.
    split; [reflexivity|]. split; [reflexivity|].
    eexists _, _, _, _, _, cond, (evs ++ [_]).
    split; [exact Hreg|]. split.
    + rewrite Htr, Htr1, Ht, Htn, <- !app_assoc. reflexivity.
    + apply proposedItem_recordVersionNumber.
  - split; [discriminate|].
    eapply sameClient_trans; [exact Hn|]. eapply sameClient_trans; eauto.
Qed.

(** X5. An acquire returns a lock or an error, never both and never
    neither. With an error, the heap, the registry and the monitors are
    as before the call. With a lock, the handle is a new one, entered in
    the registry under the partition key with every other handle and
    entry as before; it is owned by the client with the client's lease,
    not released, with the caller's release mode and session monitor; and
    the last thing asked of the outside world is the put that the store
    accepted, whose row carries the handle's RVN. *)
Theorem acquireLock_outcome fuel pk opts (st : State W) r st' :
  Forall isAcquireLockOption opts ->
  acquireLock fuel pk opts st = (Some r, st') ->
  let opt := applyOptions opts
               (mkAcquireLockOptions pk None false false false 0 0 ∅ None) in
  match r with
  | (None, err) => err <> None /\ sameClient st st'
  | (Some p, err) =>
      err = None /\ heap st !! p = None /\
      locks (client st') = <[pk := p]> (locks (client st)) /\
      exists l it cond evs,
        heap st' = <[p := l]> (heap st) /\
        lk_partitionKey l = pk /\ lk_sortKey l = None /\
        lk_ownerName l = ownerName (client st) /\
        lk_leaseDuration l = leaseDuration (client st) /\
        lk_isReleased l = false /\
        lk_deleteLockOnRelease l = opt_deleteLockOnRelease opt /\
        lk_sessionMonitor l = opt_sessionMonitor opt /\
        trace st' =
          trace st ++ evs ++
            [EvPutItem (mkPutItemInput it (tableName (client st)) cond) None] /\
        it !! attrRecordVersionNumber =
          Some (AttributeValueMemberS (lk_recordVersionNumber l))
  end.
Proof.
  intros Hopts Hacq opt.
  pose proof (acquireLock_ends _ _ _ _ _ _ Hopts Hacq) as Hends. fold opt in Hends.
  destruct r as [[p|] err]; [|exact Hends].
  destruct Hends as (-> & _ & data & t & rvn & attrs & it & cond & evs & Hreg & Htr & Hrvn).
  destruct Hreg as (Hnew & Hheap & Hlocks & _).
  split; [reflexivity|]. split; [exact Hnew|].
  split; [exact Hlocks|].
  eexists _, it, cond, evs.
  split; [exact Hheap|].
  repeat split; assumption.
Qed.

(** X6. A watcher is started for the granted lock exactly when the
    caller gave a session monitor with a callback; its cancel function is
    then kept under the lock's name, in place of any older one. The
    granting acquire cancels no watcher. *)
Theorem acquireLock_monitor fuel pk opts (st : State W) p err st' :
  Forall isAcquireLockOption opts ->
  acquireLock fuel pk opts st = (Some (Some p, err), st') ->
  let opt := applyOptions opts
               (mkAcquireLockOptions pk None false false false 0 0 ∅ None) in
  cancelled st' = cancelled st /\
  if startsMonitor (opt_sessionMonitor opt)
  then monitors st' = monitors st ++ [(pk, p)] /\
       sessionMonitorCancellations (client st') =
         <[pk := length (monitors st)]> (sessionMonitorCancellations (client st))
  else monitors st' = monitors st /\
       sessionMonitorCancellations (client st') =
         sessionMonitorCancellations (client st).
Proof.
  intros Hopts Hacq opt.
  pose proof (acquireLock_ends _ _ _ _ _ _ Hopts Hacq) as Hends. fold opt in Hends.
  destruct Hends as (_ & _ & data & t & rvn & attrs & it & cond & evs & Hreg & _).
  destruct Hreg as (_ & _ & _ & _ & Hc & Hm & Hs). cbn [lk_sessionMonitor] in Hm, Hs.
  split; [exact Hc|]. destruct (startsMonitor _); split; assumption.
Qed.

(** X7. A lock just acquired is found by [get] in the registry: while
    the context is live, [get] for its partition key returns the very
    handle the acquire returned, asks nothing of the store and changes
    nothing. *)
Theorem acquireLock_then_get fuel pk opts (st : State W) p err st' :
  Forall isAcquireLockOption opts ->
  acquireLock fuel pk opts st = (Some (Some p, err), st') ->
  ctx_Err (world st') = None ->
  get pk st' = ((Some p, None), st').
Proof.
  intros Hopts Hacq Hctx.
  pose proof (acquireLock_ends _ _ _ _ _ _ Hopts Hacq) as Hends.
  destruct Hends as (_ & Hopen & data & t & rvn & attrs & it & cond & evs & Hreg & _).
  destruct Hreg as (_ & _ & Hlocks & (_ & _ & _ & _ & Hcl) & _).
  apply get_registered; [congruence | exact Hctx |].
  rewrite Hlocks. apply lookup_insert_eq.
Qed.

End Granting.

Section Discipline.

Context {W : Type} `{RT : Runtime W}.

Lemma readRequest_config c c' pk :
  sameConfig c c' -> readRequest c' pk = readRequest c pk.
Proof. intros (Ht & Hp & _). unfold readRequest. now rewrite Ht, Hp. Qed.

(** The calls of one attempt. *)
Lemma storeLock_calls d o st o' res st' :
  storeLock o st = ((o', res), st') ->
  exists evs,
    trace st' = trace st ++ evs /\
    Forall (acquireCall (client st) (glo_partitionKey o) d) evs.
Proof.
  destruct res as [l err]. intros Hs.
  destruct (storeLock_detail _ _ _ _ _ _ Hs) as (ex & rerr & st1 & Hread & Hd).
  destruct (getLockFromDynamoDB_spec _ _ _ _ Hread) as [_ [res Htr1]].
  assert (Hget : acquireCall (client st) (glo_partitionKey o) d
                   (EvGetItem (readRequest (client st) (glo_partitionKey o)) res))
    by reflexivity.
  destruct rerr as [e|].
  { destruct Hd as (_ & _ & ->). eexists. split; [exact Htr1|].
    repeat constructor. }
  destruct Hd as [(_ & Htr & _) | (cond & resp & Hcond & Htr & _)].
  - eexists. rewrite Htr. split; [exact Htr1|]. repeat constructor.
  - eexists. rewrite Htr, Htr1, <- app_assoc. split; [reflexivity|].
    constructor; [exact Hget|]. constructor; [|constructor].
    split; [reflexivity|]. cbn [pi_Condition].
    destruct Hcond as [-> | (ex' & _ & _ & ->)]; [left; reflexivity|].
    right. eexists. reflexivity.
Qed.

Lemma acquireCall_config c c' pk d e :
  sameConfig c c' -> acquireCall c' pk d e -> acquireCall c pk d e.
Proof.
  intros Hcfg. pose proof Hcfg as (Ht & Hp & _).
  destruct e; simpl; try tauto.
  - rewrite (readRequest_config _ _ _ Hcfg). tauto.
  - rewrite Ht, Hp. tauto.
Qed.

Lemma sameConfig_trans c1 c2 c3 :
  sameConfig c1 c2 -> sameConfig c2 c3 -> sameConfig c1 c3.
Proof.
  intros (A1 & A2 & A3 & A4 & A5) (B1 & B2 & B3 & B4 & B5).
  repeat split; congruence.
Qed.

(** What an attempt keeps of the options and of the client, whatever its
    answer. *)
Lemma storeLock_keeps o st o' res st' :
  storeLock o st = ((o', res), st') ->
  sameRequest o o' /\ sameConfig (client st) (client st') /\
  forall k v,
    glo_additionalAttributes o !! k = Some v ->
    glo_additionalAttributes o' !! k = Some v.
Proof.
  destruct res as [l err]. intros Hs.
  destruct (storeLock_outcome _ _ _ _ _ _ Hs) as (ex & rerr & st1 & Hread & Ho).
  destruct (getLockFromDynamoDB_spec _ _ _ _ Hread) as [(_ & _ & _ & Hc) _].
  destruct rerr as [e|].
  - destruct Ho as (-> & _ & _ & ->).
    split; [apply sameRequest_refl|]. split; [rewrite Hc; apply sameConfig_refl|].
    tauto.
  - destruct Ho as (Hreq & Hattrs & Hcfg & _).
    split; [exact Hreq|]. split; [exact Hcfg|].
    intros k v Hk. rewrite Hattrs. unfold mergedAdditionalAttributes.
    apply lookup_union_Some_l. exact Hk.
Qed.

(** The loop under an invariant on the options and on the client, the
    waits being those of the options' refresh period. *)
Lemma acquireLoop_waits (I : getLockOptions -> Prop) (J : commonClient -> Prop)
    (P : Event -> Prop) :
  (forall o st o' res st',
     I o -> J (client st) -> storeLock o st = ((o', res), st') ->
     I o' /\ J (client st') /\
     exists evs, trace st' = trace st ++ evs /\ Forall P evs) ->
  (forall o done, I o -> P (EvSleep (glo_refreshPeriodDuration o) done)) ->
  forall fuel o st,
    I o -> J (client st) ->
    exists evs,
      trace (snd (acquireLoop fuel o st)) = trace st ++ evs /\ Forall P evs.
Proof.
  intros Hstep Hsleep fuel. induction fuel as [|fuel IH]; intros o st HI HJ.
  - exists []. simpl. rewrite app_nil_r. split; [reflexivity | constructor].
  - simpl. unfold bind at 1.
    destruct (storeLock o st) as [[o' [l err]] st'] eqn:Hs.
    destruct (Hstep _ _ _ _ _ HI HJ Hs) as (HI' & HJ' & evs1 & Htr1 & HP1).
    destruct err as [e|]; [|destruct l as [p|]].
    + destruct l; exists evs1; simpl; split; assumption.
    + exists evs1. simpl. split; assumption.
    + unfold waitRefresh, bind, perform.
      destruct (ctx_wait _ _) as [done w]. destruct done as [e|]; simpl.
      * exists (evs1 ++ [EvSleep (glo_refreshPeriodDuration o') (Some e)]).
        rewrite Htr1, <- app_assoc. split; [reflexivity|].
        apply Forall_app. split; [assumption | repeat constructor; now apply Hsleep].
      * match goal with
        | |- context [acquireLoop fuel o' ?s] =>
            destruct (IH o' s HI' HJ') as (evs2 & Htr2 & HP2)
        end.
        exists (evs1 ++ EvSleep (glo_refreshPeriodDuration o') None :: evs2).
        rewrite Htr2. simpl. rewrite Htr1, <- !app_assoc. split; [reflexivity|].
        apply Forall_app. split; [assumption|].
        constructor; [now apply Hsleep | assumption].
Qed.

(** X8. All that an acquire asks of the outside world, however it ends:
    consistent reads of the row of its partition key, puts into the
    client's table under the condition of a new or released lock or under
    the condition of an expired lock, and waits of the refresh period
    (one second when the caller gave none). It never updates or deletes a
    row and never creates a table. *)
Theorem acquireLock_calls fuel pk opts (st : State W) :
  Forall isAcquireLockOption opts ->
  let opt := applyOptions opts
               (mkAcquireLockOptions pk None false false false 0 0 ∅ None) in
  let d := if (0 <? opt_refreshPeriod opt)%Z then opt_refreshPeriod opt
           else 1 * Second in
  Forall (acquireCall (client st) pk d)
    (newEvents st (snd (acquireLock fuel pk opts st))).
Proof.
  intros Hopts opt d.
  destruct (closed (client st)) eqn:Hopen.
  { unfold acquireLock, isClosed, bind, getClient, ret. rewrite Hopen.
    cbn [snd]. rewrite (newEvents_app st st []) by now rewrite app_nil_r.
    constructor. }
  destruct (contains (opt_additionalAttributes opt) (reservedNames (client st)))
    eqn:Hres.
  { unfold acquireLock, isClosed, bind, getClient, ret. rewrite Hopen.
    cbv beta iota. rewrite Hopen. fold opt. rewrite Hres.
    cbn [snd]. rewrite (newEvents_app st st []) by now rewrite app_nil_r.
    constructor. }
  rewrite acquireLock_open by assumption. fold opt.
  pose proof (now_frame st) as (_ & _ & _ & Hc0). pose proof (now_trace st) as Ht0.
  destruct (acquireLoop_waits
              (fun o => glo_partitionKey o = pk /\ glo_refreshPeriodDuration o = d)
              (fun c => sameConfig (client st) c)
              (acquireCall (client st) pk d)) with
    (fuel := fuel) (o := initialGetLockOptions opt (fst (now st)))
    (st := snd (now st)) as (evs & Htr & Hall).
  - intros o s o' res s' [Hpk Hd] Hcfg Hs.
    destruct (storeLock_keeps _ _ _ _ _ Hs) as ((Hpk' & _ & _ & _ & _ & _ & _ & Hd') & Hcfg' & _).
    destruct (storeLock_calls d _ _ _ _ _ Hs) as (evs & Htr & Hall).
    split; [split; congruence|].
    split; [eapply sameConfig_trans; eauto|].
    exists evs. split; [exact Htr|].
    rewrite Hpk in Hall. eapply Forall_impl; [exact Hall|].
    intros e. apply acquireCall_config. exact Hcfg.
  - intros o done [_ Hd]. exact Hd.
  - split.
    + cbn [glo_partitionKey initialGetLockOptions]. subst opt.
      now rewrite applyOptions_partitionKey.
    + reflexivity.
  - rewrite Hc0. apply sameConfig_refl.
  - rewrite (newEvents_app _ _ evs); [exact Hall|]. rewrite Htr, Ht0. reflexivity.
Qed.

(** The row of the put of one attempt. *)
Lemma storeLock_rows c pk attrs o st o' res st' :
  storeLock o st = ((o', res), st') ->
  sameConfig c (client st) -> glo_partitionKey o = pk ->
  (forall k v, attrs !! k = Some v -> glo_additionalAttributes o !! k = Some v) ->
  (forall k, In k (reservedNames c) -> attrs !! k = None) ->
  exists evs,
    trace st' = trace st ++ evs /\ Forall (putsEngineColumns c pk attrs) evs.
Proof.
  destruct res as [l err]. intros Hs Hcfg Hpk Hattrs Hres.
  destruct (storeLock_detail _ _ _ _ _ _ Hs) as (ex & rerr & st1 & Hread & Hd).
  destruct (getLockFromDynamoDB_spec _ _ _ _ Hread) as [_ [res Htr1]].
  destruct rerr as [e|].
  { destruct Hd as (_ & _ & ->). eexists. split; [exact Htr1|].
    repeat constructor. }
  destruct Hd as [(_ & Htr & _) | (cond & resp & _ & Htr & _)].
  - eexists. rewrite Htr. split; [exact Htr1|]. repeat constructor.
  - eexists. rewrite Htr, Htr1, <- app_assoc. split; [reflexivity|].
    constructor; [exact I|]. constructor; [|constructor].
    destruct Hcfg as (_ & Hp & Hl & Ho & _).
    unfold putsEngineColumns, engineColumns. cbn [pi_Item].
    split; [rewrite proposedItem_ownerName, Ho; reflexivity|].
    split; [rewrite proposedItem_leaseDuration, Hl; reflexivity|].
    split; [eexists; apply proposedItem_recordVersionNumber|].
    split.
    + intros Hn. rewrite <- Hp. rewrite proposedItem_partitionKey.
      * cbn [glo_partitionKey set_additionalAttributes]. now rewrite Hpk.
      * now rewrite Hp.
    + intros k v Hk.
      assert (Hnot : ~ In k (reservedNames c)).
      { intros Hin. rewrite (Hres k Hin) in Hk. discriminate. }
      unfold reservedNames in Hnot. cbn [In] in Hnot.
      rewrite proposedItem_lookup_other; try (intros ->; apply Hnot; tauto).
      * cbn [glo_additionalAttributes set_additionalAttributes].
        unfold mergedAdditionalAttributes. apply lookup_union_Some_l. auto.
      * rewrite Hp. intros ->. apply Hnot. tauto.
Qed.

Lemma contains_false (attrs : item) ks :
  contains attrs ks = false -> forall k, In k ks -> attrs !! k = None.
Proof.
  intros Hc k Hin. destruct (attrs !! k) eqn:Hk; [|reflexivity].
  assert (contains attrs ks = true); [|congruence].
  apply contains_true. exists k. split; [assumption|]. rewrite Hk. eauto.
Qed.

(** X9. Every row that an acquire puts, granted or not, has the client's
    owner name, the client's lease duration as text, an RVN, the partition
    key under the partition key's name (unless that name is one of the
    engine's other columns, which then overwrite it), and each additional
    attribute of the caller with the caller's value. *)
Theorem acquireLock_rows fuel pk opts (st : State W) :
  Forall isAcquireLockOption opts ->
  let opt := applyOptions opts
               (mkAcquireLockOptions pk None false false false 0 0 ∅ None) in
  Forall (putsEngineColumns (client st) pk (opt_additionalAttributes opt))
    (newEvents st (snd (acquireLock fuel pk opts st))).
Proof.
  intros Hopts opt.
  destruct (closed (client st)) eqn:Hopen.
  { unfold acquireLock, isClosed, bind, getClient, ret. rewrite Hopen.
    cbn [snd]. rewrite (newEvents_app st st []) by now rewrite app_nil_r.
    constructor. }
  destruct (contains (opt_additionalAttributes opt) (reservedNames (client st)))
    eqn:Hres.
  { unfold acquireLock, isClosed, bind, getClient, ret. rewrite Hopen.
    cbv beta iota. rewrite Hopen. fold opt. rewrite Hres.
    cbn [snd]. rewrite (newEvents_app st st []) by now rewrite app_nil_r.
    constructor. }
  rewrite acquireLock_open by assumption. fold opt.
  pose proof (now_frame st) as (_ & _ & _ & Hc0). pose proof (now_trace st) as Ht0.
  pose proof (contains_false _ _ Hres) as Hfree.
  destruct (acquireLoop_events
              (fun o => glo_partitionKey o = pk /\
                        forall k v, opt_additionalAttributes opt !! k = Some v ->
                                    glo_additionalAttributes o !! k = Some v)
              (fun c => sameConfig (client st) c)
              (putsEngineColumns (client st) pk (opt_additionalAttributes opt))) with
    (fuel := fuel) (o := initialGetLockOptions opt (fst (now st)))
    (st := snd (now st)) as (evs & Htr & Hall).
  - intros o s o' res s' [Hpk Hat] Hcfg Hs.
    destruct (storeLock_keeps _ _ _ _ _ Hs) as ((Hpk' & _) & Hcfg' & Hat').
    destruct (storeLock_rows _ _ _ _ _ _ _ _ Hs Hcfg Hpk Hat Hfree)
      as (evs & Htr & Hall).
    split; [split; [congruence | auto]|].
    split; [eapply sameConfig_trans; eauto|].
    exists evs. split; assumption.
  - intros d done. exact I.
  - split.
    + cbn [glo_partitionKey initialGetLockOptions]. subst opt.
      now rewrite applyOptions_partitionKey.
    + tauto.
  - rewrite Hc0. apply sameConfig_refl.
  - rewrite (newEvents_app _ _ evs); [exact Hall|]. rewrite Htr, Ht0. reflexivity.
Qed.

End Discipline.

Section ReleasedAttribute.

Context {W : Type} `{RT : Runtime W}.

(** The attempt on a row that is absent or released goes through the put
    of a new or released lock. *)
Lemma storeLock_free_row o (st : State W) existing st1 :
  getLockFromDynamoDB o st = ((existing, None), st1) ->
  (forall l, existing = Some l -> lk_isReleased l = true) ->
  let c := client st in
  let om := set_additionalAttributes o (mergedAdditionalAttributes o existing) in
  exists res resp,
    trace (snd (storeLock o st)) =
      trace st ++
        [EvGetItem (readRequest c (glo_partitionKey o)) res;
         EvPutItem
           (mkPutItemInput
              (proposedItem c om (newLockData o existing)
                 (fst (generateRecordVersionNumber st1)))
              (tableName c) (newOrReleasedCondition (partitionKeyName c)))
           resp].
Proof.
  intros Hread Hrel c om.
  pose proof (getLockFromDynamoDB_spec _ _ _ _ Hread) as [(_ & _ & _ & Hc1) [got Hgot]].
  pose proof (generateRecordVersionNumber_frame st1) as (_ & _ & _ & Hc2).
  pose proof (generateRecordVersionNumber_trace st1) as Ht2.
  assert (Hstore : storeLock o st =
    (let (r, st') :=
       upsertAndMonitorNewOrReleasedLock (glo_additionalAttributes om)
         (glo_partitionKey om) (glo_deleteLockOnRelease om) (newLockData o existing)
         (proposedItem c om (newLockData o existing)
            (fst (generateRecordVersionNumber st1)))
         (fst (generateRecordVersionNumber st1))
         (glo_sessionMonitor om) (snd (generateRecordVersionNumber st1)) in
     ((om, swallowNotGranted r), st'))).
  { unfold storeLock, bind at 1, getClient. unfold bind at 1. rewrite Hread.
    unfold bind at 1.
    destruct (generateRecordVersionNumber st1) as [v st2]. simpl.
    destruct existing as [l|].
    - rewrite (Hrel l eq_refl). reflexivity.
    - reflexivity. }
  rewrite Hstore. rewrite upsertAndMonitorNewOrReleasedLock_eq.
  destruct (putLockItemAndStartSessionMonitor _ _ _ _ _ _ _ _) as [r st'] eqn:Hput.
  apply putLockItemAndStartSessionMonitor_spec in Hput as (resp & Htr & _).
  rewrite Hc2, Hc1 in Htr. rewrite Ht2 in Htr. cbn [snd].
  exists got, resp. rewrite Htr, Hgot, <- app_assoc. reflexivity.
Qed.

(** The loop goes on from where its first attempt ended. *)
Lemma acquireLoop_after_attempt fuel o (st : State W) :
  exists evs,
    trace (snd (acquireLoop (S fuel) o st)) = trace (snd (storeLock o st)) ++ evs.
Proof.
  simpl. unfold bind at 1.
  destruct (storeLock o st) as [[o' [l err]] st'] eqn:Hs. cbn [snd].
  destruct err as [e|]; [|destruct l as [p|]].
  - exists []. rewrite app_nil_r. destruct l; reflexivity.
  - exists []. rewrite app_nil_r. reflexivity.
  - unfold waitRefresh, bind, perform.
    destruct (ctx_wait _ _) as [done w]. destruct done as [e|]; cbn [snd trace].
    + eexists. reflexivity.
    + match goal with
      | |- context [acquireLoop fuel o' ?s] =>
          destruct (acquireLoop_events (fun _ => True) (fun _ => True) (fun _ => True)
                      ltac:(intros o0 s0 o1 [l1 e1] s1 _ _ Hs1;
                            destruct (storeLock_first_event _ _ _ _ Hs1) as (r1 & ev1 & Ht1);
                            split; [exact I|]; split; [exact I|];
                            eexists; split; [exact Ht1|];
                            apply Forall_forall; intros; exact I)
                      ltac:(intros; exact I) fuel o' s I I) as (evs2 & Htr2 & _)
      end.
      eexists. rewrite Htr2. cbn [trace]. rewrite <- app_assoc. reflexivity.
Qed.

(** C10. The name [isReleased] is not among the reserved ones: an acquire
    whose additional attributes hold it is not turned down but goes on to
    read the row; every item it puts carries the caller's value under
    [isReleased]; and a later read of such an item decodes it as a
    released lock. Such puts do happen: when the first read shows no row
    or a released row, the put follows the read at once, and whenever the
    acquire returns a lock, the last thing it did is the put that the
    store accepted, with the caller's value in the item written. A read
    that the store answers with such an item gives a released lock. *)
Theorem acquireLock_isReleased_attribute fuel pk opts (st : State W) v :
  closed (client st) = false ->
  let opt := applyOptions opts
               (mkAcquireLockOptions pk None false false false 0 0 ∅ None) in
  opt_additionalAttributes opt !! attrIsReleased = Some v ->
  contains (opt_additionalAttributes opt) (reservedNames (client st)) = false ->
  ParseDuration (Duration_String (leaseDuration (client st))) =
    Some (leaseDuration (client st)) ->
  let r := acquireLock (S fuel) pk opts st in
  (exists res evs,
     newEvents st (snd r) =
       EvGetItem (readRequest (client st) (opt_partitionKey opt)) res :: evs) /\
  (forall req resp,
     In (EvPutItem req resp) (newEvents st (snd r)) ->
     pi_Item req !! attrIsReleased = Some v /\
     forall o2 (st2 : State W),
       exists lock,
         fst (createLockItem o2 (pi_Item req) st2) = (Some lock, None) /\
         lk_isReleased lock = true) /\
  (forall existing st1,
     getLockFromDynamoDB (initialGetLockOptions opt (fst (now st))) (snd (now st)) =
       ((existing, None), st1) ->
     (forall l, existing = Some l -> lk_isReleased l = true) ->
     exists res req resp evs,
       newEvents st (snd r) =
         EvGetItem (readRequest (client st) (opt_partitionKey opt)) res ::
         EvPutItem req resp :: evs /\
       pi_TableName req = tableName (client st) /\
       pi_Item req !! attrIsReleased = Some v) /\
  (forall p err,
     fst r = Some (Some p, err) ->
     exists evs req,
       newEvents st (snd r) = evs ++ [EvPutItem req None] /\
       pi_TableName req = tableName (client st) /\
       pi_Item req !! attrIsReleased = Some v) /\
  (forall req resp,
     In (EvPutItem req resp) (newEvents st (snd r)) ->
     forall o2 (st2 st3 : State W),
       readFromDynamoDB (glo_partitionKey o2) st2 =
         (inl (mkGetItemOutput (Some (pi_Item req))), st3) ->
       exists lock,
         fst (getLockFromDynamoDB o2 st2) = (Some lock, None) /\
         lk_isReleased lock = true).
Proof.
  intros Hopen opt Hattr Hres Hparse r.
  assert (Hpk : attrIsReleased <> partitionKeyName (client st)).
  { intros Heq. apply Bool.not_true_iff_false in Hres. apply Hres.
    apply contains_true. exists (partitionKeyName (client st)).
    split; [left; reflexivity|]. rewrite <- Heq, Hattr. eauto. }
  subst r. rewrite acquireLock_open by assumption. fold opt.
  pose proof (now_trace st) as Ht0.
  pose proof (now_frame st) as (_ & _ & _ & Hc0).
  set (o0 := initialGetLockOptions opt (fst (now st))).
  set (s0 := snd (now st)) in *.
  set (c0 := client st) in *.
  assert (Hitem : forall c o ex data rvn,
    sameConfig c0 c ->
    glo_additionalAttributes o !! attrIsReleased = Some v ->
    proposedItem c (set_additionalAttributes o (mergedAdditionalAttributes o ex))
      data rvn !! attrIsReleased = Some v).
  { intros c o ex data rvn (_ & Hpkn & _) Ho.
    rewrite proposedItem_lookup_other; try discriminate.
    - cbn [glo_additionalAttributes set_additionalAttributes].
      unfold mergedAdditionalAttributes. apply lookup_union_Some_l. exact Ho.
    - rewrite Hpkn. exact Hpk. }
  assert (Hputs : forall req resp,
    In (EvPutItem req resp) (newEvents st (snd (acquireLoop (S fuel) o0 s0))) ->
    pi_Item req !! attrIsReleased = Some v /\
    forall o2 (st2 : State W),
      exists lock,
        fst (createLockItem o2 (pi_Item req) st2) = (Some lock, None) /\
        lk_isReleased lock = true).
  { set (good := fun ev =>
           match ev with
           | EvPutItem req _ =>
               pi_Item req !! attrIsReleased = Some v /\
               pi_Item req !! attrLeaseDuration =
                 Some (AttributeValueMemberS (Duration_String (leaseDuration c0)))
           | _ => True
           end).
    destruct (acquireLoop_events
                (fun o => glo_additionalAttributes o !! attrIsReleased = Some v)
                (fun c => sameConfig c0 c) good) with
      (fuel := S fuel) (o := o0) (st := s0) as (evs & Htr & Hgood).
    + intros o s o' [l err] s' HI HJ Hs.
      destruct (storeLock_detail _ _ _ _ _ _ Hs) as (ex & rerr & s1 & Hread & Hd).
      destruct (storeLock_keeps _ _ _ _ _ Hs) as (_ & Hcfg & Hkeep).
      destruct (getLockFromDynamoDB_spec _ _ _ _ Hread) as [_ [res Htr1]].
      split; [apply Hkeep; exact HI|].
      split; [eapply sameConfig_trans; eauto|].
      destruct rerr as [e|].
      * destruct Hd as (_ & _ & ->). eexists. split; [exact Htr1|].
        repeat constructor.
      * destruct Hd as [(_ & Htr & _) | (cond & resp & _ & Htr & _)].
        -- eexists. split; [rewrite Htr; exact Htr1|]. repeat constructor.
        -- eexists [_; _]. split; [rewrite Htr, Htr1, <- app_assoc; reflexivity|].
           constructor; [exact I|]. constructor; [|constructor].
           cbn [good pi_Item]. split; [apply Hitem; assumption|].
           rewrite proposedItem_leaseDuration.
           destruct HJ as (_ & _ & -> & _). reflexivity.
    + intros d done. exact I.
    + exact Hattr.
    + subst s0. rewrite Hc0. apply sameConfig_refl.
    + intros req resp Hin.
      rewrite Ht0 in Htr. rewrite (newEvents_app _ _ _ Htr) in Hin.
      rewrite Forall_forall in Hgood. apply list_elem_of_In in Hin.
      destruct (Hgood _ Hin) as [Hrel Hlease].
      split; [exact Hrel|]. intros o2 st2.
      eapply createLockItem_released; eauto. }
  split; [|split; [exact Hputs|split; [|split]]].
  - destruct (acquireLoop_first_event fuel o0 s0) as (res & evs & Htr).
    rewrite Ht0, Hc0 in Htr. exists res, evs. apply newEvents_app. exact Htr.
  - intros existing st1 Hread Hrel.
    destruct (storeLock_free_row _ _ _ _ Hread Hrel) as (res & resp & Htr1).
    destruct (acquireLoop_after_attempt fuel o0 s0) as (evs & Htr).
    rewrite Htr1, Ht0, Hc0, <- app_assoc in Htr.
    eexists res, _, resp, evs. split; [apply newEvents_app; exact Htr|].
    split; [reflexivity|]. cbn [pi_Item].
    apply Hitem; [apply sameConfig_refl | exact Hattr].
  - intros p err Hgrant.
    destruct (acquireLoop (S fuel) o0 s0) as [res st'] eqn:Hacq.
    cbn [fst snd] in *. subst res.
    pose (Inv := fun (o : getLockOptions) (s : State W) =>
      glo_additionalAttributes o !! attrIsReleased = Some v /\
      sameConfig c0 (client s) /\ exists evs, trace s = trace s0 ++ evs).
    assert (Hstep : forall o s o' s',
      Inv o s -> storeLock o s = ((o', (None, None)), s') -> Inv o' s').
    { intros o s o' s' (Ho & Hc & evs & Ht) Hs.
      destruct (storeLock_keeps _ _ _ _ _ Hs) as (_ & Hcfg & Hkeep).
      destruct (storeLock_first_event _ _ _ _ Hs) as (res & evs1 & Ht1).
      split; [apply Hkeep; exact Ho|].
      split; [eapply sameConfig_trans; eauto|].
      eexists. rewrite Ht1, Ht, <- app_assoc. reflexivity. }
    assert (Hwait : forall o s w d done,
      Inv o s ->
      Inv o (mkState w (trace s ++ [EvSleep d done]) (heap s) (monitors s)
               (cancelled s) (client s))).
    { intros o s w d done (Ho & Hc & evs & Ht).
      split; [exact Ho|]. split; [exact Hc|].
      eexists. cbn [trace]. rewrite Ht, <- app_assoc. reflexivity. }
    assert (HI0 : Inv o0 s0).
    { split; [exact Hattr|]. split; [subst s0; rewrite Hc0; apply sameConfig_refl|].
      exists []. now rewrite app_nil_r. }
    destruct (acquireLoop_run Inv Hstep Hwait _ _ _ _ _ HI0 Hacq)
      as [(o1 & s1 & o2 & l & e & _ & _ & Hr) |
          [(o1 & s1 & o2 & q & (Ho & Hc & evs & Ht) & Hs & Hr) |
           (o1 & s1 & e & d & _ & Hr & _)]]; try discriminate Hr.
    injection Hr as Hq He. subst q err.
    destruct (storeLock_detail _ _ _ _ _ _ Hs) as (ex & rerr & st1 & Hread & Hd).
    destruct (getLockFromDynamoDB_spec _ _ _ _ Hread) as [_ [res Htr1]].
    destruct rerr as [e|]; [destruct Hd as (? & _); discriminate|].
    destruct Hd as [(? & _) | (cond & resp & _ & Htr & Hresp)]; [discriminate|].
    destruct resp as [e|]; [destruct Hresp as (? & _); discriminate|].
    eexists (evs ++ [_]), _. split.
    + apply newEvents_app. rewrite Htr, Htr1, Ht, Ht0, <- !app_assoc. reflexivity.
    + cbn [pi_TableName pi_Item]. pose proof Hc as (Htn & _).
      split; [exact Htn|]. apply Hitem; [exact Hc | exact Ho].
  - intros req resp Hin o2 st2 st3 Hread2.
    destruct (Hputs req resp Hin) as [_ Hdec].
    destruct (Hdec o2 st3) as (lock & Hl & Hrel).
    exists lock. split; [|exact Hrel].
    unfold getLockFromDynamoDB, bind. rewrite Hread2. cbn [go_Item]. exact Hl.
Qed.

End ReleasedAttribute.


Section Registry.

Context {W : Type} `{RT : Runtime W}.

(** A release in full: turned down for a handle of another owner;
    otherwise the handle is marked released and leaves the registry, one
    call goes to the store under the ownership condition on the handle's
    RVN and owner, and the monitor is cancelled when the store agrees. *)
Lemma releaseLock_state p opts (st : State W) :
  let c := client st in
  let l := default emptyLock (heap st !! p) in
  (lk_ownerName l <> ownerName c ->
   releaseLock (Some p) opts st = (Some ErrOwnerMismatched, st)) /\
  (lk_ownerName l = ownerName c ->
   exists resp ev w,
     releaseLock (Some p) opts st =
       (resp,
        mkState w (trace st ++ [ev]) (<[p := set_isReleased l true]> (heap st))
          (monitors st)
          (cancelled st ++
             match resp with
             | None => option_list (sessionMonitorCancellations c !! uniqueIdentifier l)
             | Some _ => []
             end)
          (set_locks c (delete (uniqueIdentifier l) (locks c)))) /\
     isStoreCall ev = true /\
     callKey ev = Some (getItemKeys c l) /\
     callCondition ev =
       Some (ownershipLockCondition (partitionKeyName c) (lk_recordVersionNumber l)
               (lk_ownerName l))).
Proof.
  intros c l. split.
  - intros Hne. apply String.eqb_neq in Hne.
    unfold releaseLock, deref. unfold bind, getClient, ret.
    fold l. fold c. rewrite Hne. reflexivity.
  - intros Heq.
    unfold releaseLock, deref, store, putClient, deleteLock, updateLock, perform.
    unfold bind, getClient, ret.
    cbn [world client trace heap monitors cancelled]. fold l. fold c.
    rewrite Heq, String.eqb_refl. cbn [negb].
    destruct (rlo_deleteLock _).
    + destruct (DeleteItem _ _) as [resp w]. exists resp.
      destruct resp as [e|].
      * eexists _, w. rewrite app_nil_r. split; [reflexivity|]. repeat split.
      * rewrite removeKillSessionMonitor_spec.
        eexists _, w. split; [reflexivity|]. repeat split.
    + destruct (UpdateItem _ _) as [resp w]. exists resp.
      destruct resp as [e|].
      * eexists _, w. rewrite app_nil_r. split; [reflexivity|]. repeat split.
      * rewrite removeKillSessionMonitor_spec.
        eexists _, w. split; [reflexivity|]. repeat split.
Qed.

Lemma registryOK_frame (st st' : State W) :
  heap st' = heap st -> locks (client st') = locks (client st) ->
  ownerName (client st') = ownerName (client st) ->
  registryOK st -> registryOK st'.
Proof.
  intros Hh Hl Ho Hok k p Hk. rewrite Hl in Hk. rewrite Hh, Ho. exact (Hok k p Hk).
Qed.

Lemma registryOK_sameClient (st st' : State W) :
  sameClient st st' -> registryOK st -> registryOK st'.
Proof.
  intros (Hh & _ & _ & Hc). apply registryOK_frame; congruence.
Qed.

(** A handle at a new address does not disturb the registry. *)
Lemma registryOK_alloc l (st : State W) :
  registryOK st -> registryOK (snd (alloc l st)).
Proof.
  intros Hok k p Hk. cbn in Hk. destruct (Hok k p Hk) as (l' & Hp & Hrest).
  exists l'. split; [|exact Hrest]. cbn.
  rewrite lookup_insert_ne; [exact Hp|].
  intros <-. pose proof (is_fresh (dom (heap st))) as Hf.
  apply not_elem_of_dom in Hf. congruence.
Qed.

Lemma registryOK_registered (st st' : State W) l p :
  registryOK st ->
  lk_sortKey l = None -> lk_ownerName l = ownerName (client st) ->
  lk_isReleased l = false ->
  registered st (lk_partitionKey l) l p st' -> registryOK st'.
Proof.
  intros Hok Hsk Hown Hrel (Hnew & Hheap & Hlocks & Hcfg & _) k q Hk.
  destruct Hcfg as (_ & _ & _ & Ho & _). rewrite Hlocks in Hk. rewrite Hheap, Ho.
  destruct (decide (k = lk_partitionKey l)) as [->|Hne].
  - rewrite lookup_insert_eq in Hk. injection Hk as <-.
    exists l. rewrite lookup_insert_eq. repeat split; try assumption.
    unfold uniqueIdentifier. rewrite Hsk. apply append_empty_r.
  - rewrite lookup_insert_ne in Hk by congruence.
    destruct (Hok k q Hk) as (l' & Hq & Hrest). exists l'. split; [|exact Hrest].
    rewrite lookup_insert_ne; [exact Hq|]. congruence.
Qed.

Lemma registryOK_storeLock o (st : State W) :
  registryOK st -> registryOK (snd (storeLock o st)).
Proof.
  intros Hok. destruct (storeLock o st) as [[o' [l err]] st'] eqn:Hs. cbn [snd].
  destruct (storeLock_detail _ _ _ _ _ _ Hs) as (ex & rerr & st1 & Hread & Hd).
  destruct (getLockFromDynamoDB_spec _ _ _ _ Hread) as [Hsame _].
  destruct rerr as [e|].
  { destruct Hd as (_ & _ & ->). eapply registryOK_sameClient; eauto. }
  destruct Hd as [(_ & _ & H) | (cond & resp & _ & _ & Hresp)].
  { eapply registryOK_sameClient; eauto. }
  destruct resp as [e|].
  - destruct Hresp as (_ & H & _). eapply registryOK_sameClient; eauto.
  - destruct Hresp as (_ & _ & t & Hreg).
    eapply registryOK_registered; [exact Hok| | | |exact Hreg]; reflexivity.
Qed.

Lemma registryOK_releaseLock h opts (st : State W) :
  registryOK st -> registryOK (snd (releaseLock h opts st)).
Proof.
  intros Hok. destruct h as [p|]; [|exact Hok].
  destruct (releaseLock_state p opts st) as [Hne Heq].
  destruct (decide (lk_ownerName (default emptyLock (heap st !! p)) =
                    ownerName (client st))) as [Ho|Ho].
  2: { rewrite (Hne Ho). exact Hok. }
  destruct (Heq Ho) as (resp & ev & w & -> & _). cbn [snd].
  intros k q Hk. cbn in Hk.
  set (l := default emptyLock (heap st !! p)) in *.
  destruct (decide (k = uniqueIdentifier l)) as [->|Hne'].
  { rewrite lookup_delete_eq in Hk. discriminate. }
  rewrite lookup_delete_ne in Hk by congruence.
  destruct (Hok k q Hk) as (l' & Hq & Hid & Hrest). exists l'. cbn.
  split; [|split; [exact Hid | exact Hrest]].
  rewrite lookup_insert_ne; [exact Hq|].
  intros <-. subst l. rewrite Hq in Hne'. cbn in Hne'. congruence.
Qed.

Lemma registryOK_releaseRange entries : forall err (st : State W),
  registryOK st -> registryOK (snd (releaseRange entries err st)).
Proof.
  induction entries as [|[k p] rest IH]; intros err st Hok; [exact Hok|].
  simpl. unfold bind.
  pose proof (registryOK_releaseLock (Some p) [] st Hok) as Hok'.
  destruct (releaseLock (Some p) [] st) as [[e|] s1]; cbn [snd] in *.
  - exact Hok'.
  - apply IH. exact Hok'.
Qed.

(** X10. The registry of held locks stays sound through the client's
    operations: after an acquire, a get, a release or a close, however
    they end, every entry of the registry still points to a handle that
    goes by the entry's name, belongs to the client and is not released. *)
Theorem registryOK_kept (st : State W) :
  registryOK st ->
  (forall fuel pk opts, registryOK (snd (acquireLock fuel pk opts st))) /\
  (forall pk, registryOK (snd (get pk st))) /\
  (forall h opts, registryOK (snd (ReleaseLock h opts st))) /\
  registryOK (snd (Close st)).
Proof.
  intros Hok. split; [|split; [|split]].
  - intros fuel pk opts. unfold acquireLock, isClosed.
    unfold bind at 1, bind at 1, getClient at 1, ret at 1.
    destruct (closed (client st)) eqn:Hopen; [exact Hok|].
    unfold bind at 1, getClient at 1. rewrite Hopen.
    destruct (contains _ _); [exact Hok|].
    unfold bind at 1.
    pose proof (now_frame st) as Hn. destruct (now st) as [t s0]. cbn [snd] in Hn.
    apply acquireLoop_invariant.
    + intros o s. apply registryOK_storeLock.
    + intros s w d done. apply registryOK_frame; reflexivity.
    + eapply registryOK_sameClient; eauto.
  - intros pk. unfold get, isClosed.
    unfold bind at 1, bind at 1, getClient at 1, ret at 1.
    destruct (closed (client st)); [exact Hok|].
    unfold bind at 1, perform, silent. cbn [fst snd world].
    destruct (ctx_Err (world st)) as [e|].
    { revert Hok. apply registryOK_frame; reflexivity. }
    unfold bind at 1, getClient at 1. cbn [client glo_partitionKey].
    destruct (locks (client st) !! pk) as [v|].
    { revert Hok. apply registryOK_frame; reflexivity. }
    unfold bind at 1.
    match goal with
    | |- context [getLockFromDynamoDB ?o ?s] =>
        destruct (getLockFromDynamoDB o s) as [[found rerr] s1] eqn:Hread
    end.
    destruct (getLockFromDynamoDB_spec _ _ _ _ Hread) as [(Hh & _ & _ & Hc) _].
    cbn [heap client] in Hh, Hc.
    assert (Hok1 : registryOK s1).
    { revert Hok. apply registryOK_frame; congruence. }
    destruct rerr as [e|]; [destruct found; exact Hok1|].
    destruct found as [l|]; unfold bind;
      match goal with
      | |- context [alloc ?l ?s] =>
          pose proof (registryOK_alloc l s Hok1) as Hal;
          destruct (alloc l s) as [q s2]
      end; exact Hal.
  - intros h opts. unfold ReleaseLock, isClosed.
    unfold bind at 1, bind at 1, getClient at 1, ret at 1.
    destruct (closed (client st)); [exact Hok|].
    unfold bind at 1.
    pose proof (registryOK_releaseLock h opts st Hok) as Hr.
    destruct (releaseLock h opts st) as [err s1]. exact Hr.
  - unfold Close, bind at 1, getClient at 1.
    destruct (closeOnce (client st)); [exact Hok|].
    unfold bind at 1, releaseAllLocks, bind at 1, getClient at 1.
    pose proof (registryOK_releaseRange (map_to_list (locks (client st))) None st Hok)
      as Hr.
    destruct (releaseRange _ _ _) as [err s1]. cbn [snd] in *.
    revert Hr. apply registryOK_frame; reflexivity.
Qed.

End Registry.

Section Closing.

Context {W : Type} `{RT : Runtime W}.

(** A handle once released stays released through later releases. *)
Lemma releaseLock_keeps_released h opts (st : State W) q l :
  heap st !! q = Some l -> lk_isReleased l = true ->
  exists l', heap (snd (releaseLock h opts st)) !! q = Some l' /\
             lk_isReleased l' = true.
Proof.
  intros Hq Hrel. destruct h as [p|]; [|exists l; split; assumption].
  destruct (releaseLock_state p opts st) as [Hne Heq].
  destruct (decide (lk_ownerName (default emptyLock (heap st !! p)) =
                    ownerName (client st))) as [Ho|Ho].
  2: { rewrite (Hne Ho). exists l. split; assumption. }
  destruct (Heq Ho) as (resp & ev & w & -> & _). cbn [snd heap].
  destruct (decide (p = q)) as [->|Hpq].
  - rewrite lookup_insert_eq. eexists. split; reflexivity.
  - rewrite lookup_insert_ne by assumption. exists l. split; assumption.
Qed.

(** A round of releases that ends without an error has released every
    entry it was given, with one store call for each. *)
Lemma releaseRange_all entries : forall (s : State W),
  NoDup (entries.*1) ->
  (forall k p, (k, p) ∈ entries -> locks (client s) !! k = Some p) ->
  registryOK s ->
  fst (releaseRange entries None s) = None ->
  let s' := snd (releaseRange entries None s) in
  (forall k, locks (client s') !! k =
             if decide (k ∈ entries.*1) then None else locks (client s) !! k) /\
  (forall k p, (k, p) ∈ entries ->
     exists l, heap s' !! p = Some l /\ lk_isReleased l = true) /\
  (forall q l, heap s !! q = Some l -> lk_isReleased l = true ->
     exists l', heap s' !! q = Some l' /\ lk_isReleased l' = true) /\
  exists evs,
    trace s' = trace s ++ evs /\ length evs = length entries /\
    forallb isStoreCall evs = true.
Proof.
  induction entries as [|[k p] rest IH]; intros s Hnd Hin Hok Hres.
  - cbn. split; [intros k; destruct (decide _) as [H|]; [inversion H | reflexivity]|].
    split; [intros k p H; inversion H|].
    split; [intros q l Hq Hr; exists l; split; assumption|].
    exists []. rewrite app_nil_r. repeat split.
  - cbn [fmap list_fmap fst] in Hnd. apply NoDup_cons in Hnd as [Hk Hnd].
    assert (Hkp : locks (client s) !! k = Some p) by (apply Hin; left).
    destruct (Hok k p Hkp) as (l & Hp & Hid & Hown & Hlive).
    destruct (releaseLock_state p [] s) as [_ Heq].
    rewrite Hp in Heq. cbn [default from_option] in Heq. unfold id in Heq.
    destruct (Heq Hown) as (resp & ev & w & Hrl & Hcall & _).
    pose proof (registryOK_releaseLock (Some p) [] s Hok) as Hok1.
    pose proof (fun q l => releaseLock_keeps_released (Some p) [] s q l) as Hkeep.
    revert Hres. cbn [releaseRange]. unfold bind. rewrite Hrl in *.
    cbn [snd] in Hok1, Hkeep.
    destruct resp as [e|]; [discriminate|].
    set (s1 := mkState w _ _ _ _ _) in *.
    intros Hres.
    assert (Hin1 : forall k' p', (k', p') ∈ rest -> locks (client s1) !! k' = Some p').
    { intros k' p' Hm. subst s1. cbn [client locks set_locks]. rewrite Hid.
      rewrite lookup_delete_ne.
      - apply Hin. now right.
      - intros <-. apply Hk. apply (list_elem_of_fmap_2 fst) in Hm. exact Hm. }
    destruct (IH s1 Hnd Hin1 Hok1 Hres) as (Hl & Hh & Hst & evs & Htr & Hlen & Hall).
    split; [|split; [|split]].
    + intros k'. rewrite Hl. subst s1. cbn [client locks set_locks]. rewrite Hid.
      cbn [fmap list_fmap fst].
      destruct (decide (k' ∈ rest.*1)) as [Hm|Hm].
      * rewrite decide_True; [reflexivity|]. now right.
      * destruct (decide (k' = k)) as [->|Hne].
        -- rewrite decide_True by left. apply lookup_delete_eq.
        -- rewrite decide_False.
           ++ apply lookup_delete_ne. congruence.
           ++ intros Hm'. apply elem_of_cons in Hm' as [?|?]; contradiction.
    + intros k' p' Hm. apply elem_of_cons in Hm as [[= -> ->]|Hm].
      * apply (Hst p (set_isReleased l true)); [|reflexivity].
        subst s1. cbn [heap]. apply lookup_insert_eq.
      * eapply Hh; eauto.
    + intros q l0 Hq Hr. destruct (Hkeep q l0 Hq Hr) as (l1 & Hq1 & Hr1).
      eapply Hst; eauto.
    + exists (ev :: evs). rewrite Htr. subst s1. cbn [trace].
      rewrite <- app_assoc. split; [reflexivity|]. cbn. rewrite Hlen, Hcall.
      split; [reflexivity | exact Hall].
Qed.

(** X11. A first close that returns no error has released every lock the
    client held: each handle of the registry is marked released, the
    registry is empty, and the store was called once for each lock and
    asked nothing else. *)
Theorem Close_releases_all (st : State W) :
  closeOnce (client st) = false ->
  registryOK st ->
  fst (Close st) = None ->
  let st' := snd (Close st) in
  locks (client st') = ∅ /\
  (forall k p, locks (client st) !! k = Some p ->
     exists l, heap st' !! p = Some l /\ lk_isReleased l = true) /\
  exists evs,
    trace st' = trace st ++ evs /\ forallb isStoreCall evs = true /\
    length evs = size (locks (client st)).
Proof.
  intros Honce Hok.
  assert (Hclose : Close st =
    (let (err, s) := releaseRange (map_to_list (locks (client st))) None st in
     (err, mkState (world s) (trace s) (heap s) (monitors s) (cancelled s)
             (set_closed (client s))))).
  { unfold Close, bind at 1, getClient at 1. rewrite Honce.
    unfold releaseAllLocks. unfold bind, getClient, putClient, ret.
    destruct (releaseRange _ _ _); reflexivity. }
  rewrite Hclose.
  pose proof (releaseRange_all (map_to_list (locks (client st))) st
                (NoDup_fst_map_to_list _)
                (fun k p H => proj1 (elem_of_map_to_list _ k p) H) Hok) as Hall.
  destruct (releaseRange _ None st) as [err s1]. cbn [fst snd] in *.
  intros ->. destruct (Hall eq_refl) as (Hl & Hh & _ & evs & Htr & Hlen & Hcalls).
  cbv zeta. cbn [snd client heap trace locks set_closed].
  split; [|split].
  - apply map_eq. intros k. rewrite Hl, lookup_empty.
    destruct (decide _) as [|Hm]; [reflexivity|].
    destruct (locks (client st) !! k) as [p|] eqn:Hk; [|reflexivity].
    exfalso. apply Hm. apply elem_of_map_to_list in Hk.
    apply (list_elem_of_fmap_2 fst) in Hk. exact Hk.
  - intros k p Hk. apply (Hh k p). now apply elem_of_map_to_list.
  - exists evs. split; [exact Htr|]. split; [exact Hcalls|].
    rewrite Hlen. apply length_map_to_list.
Qed.

(** X12. Releasing a lock just acquired: the release asks the store once,
    for the row of the lock's partition key, under the condition that the
    row exists, still has the RVN that the acquire's accepted put wrote,
    and still has the client's owner name. Whatever the store answers, the
    handle is then marked released and the registry has no entry for the
    partition key; the release reports success exactly when it returns no
    error. *)
Theorem acquireLock_then_release fuel pk opts ropts (st : State W) p err st1 :
  Forall isAcquireLockOption opts ->
  acquireLock fuel pk opts st = (Some (Some p, err), st1) ->
  let c := client st in
  exists rvn it cond evs resp ev st2,
    trace st1 =
      trace st ++ evs ++ [EvPutItem (mkPutItemInput it (tableName c) cond) None] /\
    it !! attrRecordVersionNumber = Some (AttributeValueMemberS rvn) /\
    ReleaseLock (Some p) ropts st1 = ((bool_decide (resp = None), resp), st2) /\
    trace st2 = trace st1 ++ [ev] /\
    isStoreCall ev = true /\
    callKey ev = Some {[ partitionKeyName c := AttributeValueMemberS pk ]} /\
    callCondition ev =
      Some (ownershipLockCondition (partitionKeyName c) rvn (ownerName c)) /\
    locks (client st2) !! pk = None /\
    exists l, heap st2 !! p = Some l /\ lk_isReleased l = true.
Proof.
  intros Hopts Hacq c. subst c.
  pose proof (acquireLock_ends _ _ _ _ _ _ Hopts Hacq) as Hends.
  destruct Hends as (_ & Hopen & data & t & rvn & attrs & it & cond & evs & Hreg & Htr & Hrvn).
  destruct Hreg as (_ & Hheap & Hlocks & (_ & Hpkn & _ & Hown & Hcl) & _).
  destruct (releaseLock_state p ropts st1) as [_ Heq].
  rewrite Hheap, lookup_insert_eq in Heq. cbn [default from_option] in Heq.
  unfold id in Heq. cbn [lk_ownerName] in Heq.
  destruct (Heq (eq_sym Hown)) as (resp & ev & w & Hrl & Hcall & Hkey & Hcond).
  exists rvn, it, cond, evs, resp, ev. eexists.
  split; [exact Htr|]. split; [exact Hrvn|].
  split.
  { unfold ReleaseLock, isClosed. unfold bind, getClient, ret.
    rewrite Hcl, Hopen, Hrl. reflexivity. }
  cbn [trace heap client locks set_locks].
  split; [reflexivity|]. split; [exact Hcall|].
  split; [rewrite Hkey; unfold getItemKeys; cbn [lk_partitionKey]; now rewrite Hpkn|].
  split; [rewrite Hcond; cbn [lk_recordVersionNumber lk_ownerName]; now rewrite Hpkn|].
  split.
  - unfold uniqueIdentifier. cbn [lk_partitionKey lk_sortKey default from_option].
    unfold id. rewrite append_empty_r. apply lookup_delete_eq.
  - eexists. split; [apply lookup_insert_eq | reflexivity].
Qed.

End Closing.

Section Tables.

Context {W : Type} `{RT : Runtime W}.

Lemma billingMode_provisioned opts : forall o,
  Forall isCreateTableOption opts ->
  cto_billingMode o = "PROVISIONED" ->
  cto_billingMode (applyOptions opts o) = "PROVISIONED".
Proof.
  unfold applyOptions.
  induction opts as [|f opts IH]; intros o Hall Hb; [exact Hb|].
  inversion Hall as [|? ? Hf Hrest]; subst. simpl. apply IH; [assumption|].
  destruct Hf; [exact Hb | reflexivity].
Qed.

Lemma billingMode_asked opts : forall o,
  Forall isCreateTableOption opts ->
  (exists pt, In (WithProvisionedThroughput pt) opts) ->
  cto_billingMode (applyOptions opts o) = "PROVISIONED".
Proof.
  induction opts as [|f opts IH]; intros o Hall [pt Hin]; [destruct Hin|].
  inversion Hall as [|? ? Hf Hrest]; subst.
  destruct Hin as [->|Hin].
  - apply (billingMode_provisioned opts); [assumption | reflexivity].
  - apply (IH (f o)); [assumption | eauto].
Qed.

Lemma billingMode_default opts : forall o,
  Forall (fun f => exists tags, f = WithTags tags) opts ->
  cto_billingMode (applyOptions opts o) = cto_billingMode o /\
  cto_provisionedThroughput (applyOptions opts o) = cto_provisionedThroughput o.
Proof.
  unfold applyOptions.
  induction opts as [|f opts IH]; intros o Hall; [split; reflexivity|].
  inversion Hall as [|? ? [tags ->] Hrest]; subst. simpl.
  destruct (IH (WithTags tags o) Hrest) as [-> ->]. split; reflexivity.
Qed.

(** X13. [CreateTable] of the client with a sort key, on an open client,
    asks the store once for a table of the client's table name whose key
    schema is the partition key's name as hash key and the sort key's name
    as range key, both strings, and passes on the store's answer; it
    touches nothing else. The billing mode is PROVISIONED as soon as one
    [WithProvisionedThroughput] is among the options, whatever its
    argument and its place, and PAY_PER_REQUEST with no throughput when
    the options only set tags. *)
Theorem CreateTable_request cs opts (st : State W) :
  closed (client st) = false ->
  Forall isCreateTableOption opts ->
  let c := client st in
  let r := ClientWithSortKey_CreateTable cs opts st in
  exists req,
    trace (snd r) = trace st ++ [EvCreateTable req (fst r)] /\
    sameClient st (snd r) /\
    ct_TableName req = tableName c /\
    ct_KeySchema req =
      [(partitionKeyName c, KeyTypeHash); (sortKeyName cs, KeyTypeRange)] /\
    ct_AttributeDefinitions req = [(partitionKeyName c, "S"); (sortKeyName cs, "S")] /\
    ((exists pt, In (WithProvisionedThroughput pt) opts) ->
     ct_BillingMode req = "PROVISIONED") /\
    (Forall (fun f => exists tags, f = WithTags tags) opts ->
     ct_BillingMode req = "PAY_PER_REQUEST" /\ ct_ProvisionedThroughput req = None).
Proof.
  intros Hopen Hopts c r. subst r.
  unfold ClientWithSortKey_CreateTable, commonClient_CreateTable, isClosed, createTable,
    ClientWithSortKey_createTableSchema, perform.
  unfold bind, getClient, ret. rewrite Hopen.
  destruct (CreateTable _ _) as [res w] eqn:Hcall. cbn [fst snd trace].
  eexists. split; [reflexivity|]. split; [repeat split|].
  cbn [ct_TableName ct_KeySchema ct_AttributeDefinitions ct_BillingMode
       ct_ProvisionedThroughput].
  split; [reflexivity|]. split; [reflexivity|]. split; [reflexivity|]. split.
  - intros Hpt. apply billingMode_asked; assumption.
  - intros Htags. apply (billingMode_default opts). exact Htags.
Qed.

End Tables.

Section Reading.

Context {W : Type} `{RT : Runtime W}.

(** X14. Releasing through a handle that [get] read from the store: the
    handle has an empty RVN and the zero lookup time. When its owner is
    not the client's owner name (as for the empty handle of an absent
    row), the release is turned down with [OwnerMismatched] and asks
    nothing of the store. When the row names the client's owner name, the
    release goes to the store under a condition on the empty RVN, not on
    the row's. *)
Theorem get_then_release pk ropts (st : State W) p st1 :
  closed (client st) = false ->
  ctx_Err (world st) = None ->
  locks (client st) !! pk = None ->
  get pk st = ((Some p, None), st1) ->
  let c := client st in
  exists l,
    heap st1 !! p = Some l /\
    lk_recordVersionNumber l = "" /\ lk_lookupTime l = zeroTime /\
    (lk_ownerName l <> ownerName c ->
     ReleaseLock (Some p) ropts st1 = ((false, Some ErrOwnerMismatched), st1)) /\
    (lk_ownerName l = ownerName c ->
     exists resp ev st2,
       ReleaseLock (Some p) ropts st1 = ((bool_decide (resp = None), resp), st2) /\
       trace st2 = trace st1 ++ [ev] /\ isStoreCall ev = true /\
       callCondition ev =
         Some (ownershipLockCondition (partitionKeyName c) "" (ownerName c))).
Proof.
  intros Hopen Hctx Hfree Hget c. subst c.
  rewrite get_reads in Hget by assumption.
  destruct (getLockFromDynamoDB _ st) as [[found rerr] s] eqn:Hread.
  destruct (getLockFromDynamoDB_spec _ _ _ _ Hread) as [(_ & _ & _ & Hc) _].
  destruct rerr as [e|]; [destruct found; discriminate|].
  assert (Hshape : exists l,
    lk_recordVersionNumber l = "" /\ lk_lookupTime l = zeroTime /\
    alloc l s = (p, st1)).
  { destruct found as [l|].
    - exists (updateRVN l "" zeroTime (lk_leaseDuration l)).
      split; [reflexivity|]. split; [reflexivity|].
      destruct (alloc _ s) as [q s']. now inversion Hget.
    - exists emptyLock. split; [reflexivity|]. split; [reflexivity|].
      destruct (alloc _ s) as [q s']. now inversion Hget. }
  destruct Hshape as (l & Hrvn & Htime & Halloc).
  unfold alloc in Halloc. injection Halloc as <- <-.
  exists l. cbn [heap]. split; [apply lookup_insert_eq|].
  split; [exact Hrvn|]. split; [exact Htime|].
  match goal with
  | |- context [ReleaseLock (Some ?q) ropts ?s1] =>
      destruct (releaseLock_state q ropts s1) as [Hne Heq]
  end.
  cbn [heap client] in Hne, Heq. rewrite lookup_insert_eq in Hne, Heq.
  cbn [default from_option] in Hne, Heq. unfold id in Hne, Heq.
  rewrite Hc in Hne, Heq.
  split.
  - intros Ho. unfold ReleaseLock, isClosed. unfold bind, getClient, ret.
    cbn [client]. rewrite Hc, Hopen. rewrite (Hne Ho). reflexivity.
  - intros Ho. destruct (Heq Ho) as (resp & ev & w & Hrl & Hcall & _ & Hcond).
    exists resp, ev. eexists. split.
    { unfold ReleaseLock, isClosed. unfold bind, getClient, ret.
      cbn [client]. rewrite Hc, Hopen. rewrite Hrl. reflexivity. }
    cbn [trace]. split; [reflexivity|]. split; [exact Hcall|].
    rewrite Hcond, Hrvn, Ho. reflexivity.
Qed.

End Reading.

Section RandomStrings.

(** A rune of the alphabet is found at one place only. *)
Lemma letterRunes_index r ch :
  String.get r letterRunes = Some ch ->
  (r < 62)%nat /\ String.index 0 (String ch EmptyString) letterRunes = Some r.
Proof.
  do 62 (destruct r as [|r];
         [intros H; vm_compute in H; injection H as <-;
          split; [lia | vm_compute; reflexivity]|]).
  intros H. exfalso. revert H. unfold letterRunes. cbn [String.get].
  destruct r; discriminate.
Qed.

Lemma letterRunes_get r :
  (r < 62)%nat -> exists ch, String.get r letterRunes = Some ch.
Proof.
  intros Hr.
  do 62 (destruct r as [|r]; [eexists; vm_compute; reflexivity|]).
  lia.
Qed.

(** X15. [randString] never indexes outside its alphabet when the draws
    are below the alphabet's 62 runes, which is what [rand.Int] gives: it
    then returns a string with one rune per draw. The runes are all
    different, so two different sequences of draws give two different
    strings. *)
Theorem randStringOf_spec draws :
  (is_Some (randStringOf draws) <-> Forall (fun r => (r < 62)%nat) draws) /\
  forall s,
    randStringOf draws = Some s ->
    String.length s = length draws /\
    forall draws', randStringOf draws' = Some s -> draws' = draws.
Proof.
  split.
  - induction draws as [|r rest IH]; cbn [randStringOf].
    + split; [constructor | eauto].
    + split.
      * intros [s Hs].
        destruct (String.get r letterRunes) as [ch|] eqn:Hr; [|discriminate].
        destruct (randStringOf rest) as [s'|] eqn:Hrest; [|discriminate].
        constructor; [apply (letterRunes_index _ _ Hr)|]. apply IH. eauto.
      * intros Hall. inversion Hall as [|? ? Hr Hrest]; subst.
        destruct (letterRunes_get r Hr) as [ch ->].
        destruct (proj2 IH Hrest) as [s' ->]. eauto.
  - induction draws as [|r rest IH]; cbn [randStringOf]; intros s Hs.
    + injection Hs as <-. split; [reflexivity|].
      intros [|r' rest'] H'; [reflexivity|]. cbn [randStringOf] in H'.
      destruct (String.get r' letterRunes); [|discriminate].
      destruct (randStringOf rest'); discriminate.
    + destruct (String.get r letterRunes) as [ch|] eqn:Hr; [|discriminate].
      destruct (randStringOf rest) as [s'|] eqn:Hrest; [|discriminate].
      injection Hs as <-. destruct (IH s' eq_refl) as [Hlen Hinj].
      split; [simpl; now rewrite Hlen|].
      intros [|r' rest'] H'; [discriminate|]. cbn [randStringOf] in H'.
      destruct (String.get r' letterRunes) as [ch'|] eqn:Hr'; [|discriminate].
      destruct (randStringOf rest') as [s''|] eqn:Hrest'; [|discriminate].
      injection H' as -> ->.
      apply letterRunes_index in Hr as [_ Hr]. apply letterRunes_index in Hr' as [_ Hr'].
      rewrite (Hinj rest' Hrest'). congruence.
Qed.

End RandomStrings.

Section Construction.

Context {W : Type} `{RT : Runtime W}.

(** The options leave the names, the registry and the flags alone. *)
Lemma applyOptions_client opts : forall c,
  Forall isClientOption opts ->
  let c' := applyOptions opts c in
  tableName c' = tableName c /\ partitionKeyName c' = partitionKeyName c /\
  locks c' = locks c /\
  sessionMonitorCancellations c' = sessionMonitorCancellations c /\
  closed c' = closed c /\ closeOnce c' = closeOnce c.
Proof.
  unfold applyOptions.
  induction opts as [|f opts IH]; intros c Hall; [repeat split|].
  inversion Hall as [|? ? Hf Hrest]; subst. simpl.
  destruct (IH (f c) Hrest) as (H1 & H2 & H3 & H4 & H5 & H6).
  rewrite H1, H2, H3, H4, H5, H6. destruct Hf; repeat split.
Qed.

(** X16. What the constructor of the client with a sort key accepts. An
    empty sort key name is refused before anything else is done. Otherwise
    the client is the one with the default lease and heartbeat period and
    a random owner name, changed by the options in their order: when twice
    its heartbeat period, in 64-bit arithmetic, is more than its lease
    duration the heartbeat error comes back, else the client does; it
    then has the table and key names given, holds no lock, watches no
    session and is open, so that its registry is sound; the heartbeat is
    started exactly when its period is positive. *)
Theorem NewWithSortKey_spec tbl pkn skn opts (w : W) :
  Forall isClientOption opts ->
  let built :=
    applyOptions opts
      (mkCommonClient tbl pkn (20 * Second) (5 * Second) (fst (randString 32 w))
         ∅ ∅ false false false) in
  match NewWithSortKey tbl pkn skn opts w with
  | ((Some (c, beating, cs), err), w') =>
      err = None /\ skn <> "" /\ sortKeyName cs = skn /\ c = built /\
      tableName c = tbl /\ partitionKeyName c = pkn /\
      locks c = ∅ /\ sessionMonitorCancellations c = ∅ /\
      closed c = false /\ closeOnce c = false /\
      (wrap64 (2 * heartbeatPeriod c) <= leaseDuration c)%Z /\
      beating = (0 <? heartbeatPeriod c)%Z /\
      forall st : State W, client st = c -> registryOK st
  | ((None, err), w') =>
      (skn = "" /\ err = Some ErrSortKeyName /\ w' = w) \/
      (skn <> "" /\ err = Some ErrHeartbeatPeriod /\
       (leaseDuration built < wrap64 (2 * heartbeatPeriod built))%Z)
  end.
Proof.
  intros Hopts built. subst built. unfold NewWithSortKey.
  destruct (String.eqb skn "") eqn:Hs.
  { apply String.eqb_eq in Hs. left. repeat split. exact Hs. }
  apply String.eqb_neq in Hs. unfold newCommon.
  destruct (randString 32 w) as [owner w']. cbn [fst].
  change defaultLeaseDuration with (20 * Second)%Z.
  change defaultHeartbeatPeriod with (5 * Second)%Z.
  match goal with
  | |- context [applyOptions opts ?c0] =>
      pose proof (applyOptions_client opts c0 Hopts) as (H1 & H2 & H3 & H4 & H5 & H6);
      set (c := applyOptions opts c0) in *
  end.
  cbn [tableName partitionKeyName locks sessionMonitorCancellations closed closeOnce]
    in H1, H2, H3, H4, H5, H6.
  destruct (leaseDuration c <? wrap64 (2 * heartbeatPeriod c))%Z eqn:Hhb.
  - right. apply Z.ltb_lt in Hhb. split; [exact Hs|]. split; [reflexivity | exact Hhb].
  - apply Z.ltb_ge in Hhb. cbn [sortKeyName].
    repeat split; try assumption.
    intros st Hc k p Hk. rewrite Hc, H3, lookup_empty in Hk. discriminate.
Qed.

End Construction.

Section Endings.

Context {W : Type} `{RT : Runtime W}.

(** X17. An acquire whose first read fails, be it an error of the store
    or a lease duration in the row that does not parse, returns that
    error at once: the read is the only thing asked of the outside world,
    nothing is put, and the heap, the registry and the monitors are as
    before. *)
Theorem acquireLock_read_error fuel pk opts (st : State W) found e st1 :
  closed (client st) = false ->
  let opt := applyOptions opts
               (mkAcquireLockOptions pk None false false false 0 0 ∅ None) in
  contains (opt_additionalAttributes opt) (reservedNames (client st)) = false ->
  getLockFromDynamoDB (initialGetLockOptions opt (fst (now st))) (snd (now st)) =
    ((found, Some e), st1) ->
  acquireLock (S fuel) pk opts st = (Some (None, Some e), st1) /\
  sameClient st st1 /\
  exists res,
    trace st1 =
      trace st ++ [EvGetItem (readRequest (client st) (opt_partitionKey opt)) res].
Proof.
  intros Hopen opt Hres Hread.
  rewrite acquireLock_open by assumption. fold opt.
  pose proof (now_frame st) as Hn. pose proof (now_trace st) as Ht0.
  destruct (getLockFromDynamoDB_spec _ _ _ _ Hread) as [Hsame [res Htr]].
  split; [|split].
  - eapply acquireLoop_error with (l := None).
    unfold storeLock, bind at 1, getClient. unfold bind at 1. rewrite Hread.
    reflexivity.
  - eapply sameClient_trans; eauto.
  - exists res. destruct Hn as (_ & _ & _ & Hc). rewrite Hc, Ht0 in Htr. exact Htr.
Qed.

(** X18. When an attempt gave neither a lock nor an error and the
    context is done during the wait that follows, the acquire returns the
    context's error: the wait is the last thing it does, and the heap, the
    registry and the monitors are as before the attempt. *)
Theorem acquireLoop_cancelled fuel o (st : State W) o' st1 e w :
  storeLock o st = ((o', (None, None)), st1) ->
  ctx_wait (glo_refreshPeriodDuration o') (world st1) = (Some e, w) ->
  acquireLoop (S fuel) o st =
    (Some (None, Some e),
     mkState w (trace st1 ++ [EvSleep (glo_refreshPeriodDuration o) (Some e)])
       (heap st) (monitors st) (cancelled st) (client st)).
Proof.
  intros Hs Hwait. rewrite (acquireLoop_retry _ _ _ _ _ Hs).
  destruct (storeLock_retry _ _ _ _ Hs)
    as [(Hh & Hm & Hc & Hcl) (_ & _ & _ & _ & _ & _ & _ & Hd)].
  unfold waitRefresh, bind, perform. rewrite Hwait. unfold ret.
  rewrite Hh, Hm, Hc, Hcl, Hd. reflexivity.
Qed.

(** X19. A release does not look at the released mark: releasing again a
    handle of the client's, whatever the first release answered, marks it
    released again and calls the store again for the same key under the
    same condition on the handle's RVN and owner. *)
Theorem ReleaseLock_again p l ropts1 ropts2 (st : State W) :
  closed (client st) = false ->
  heap st !! p = Some l ->
  lk_ownerName l = ownerName (client st) ->
  let c := client st in
  let st1 := snd (ReleaseLock (Some p) ropts1 st) in
  exists resp ev st2,
    ReleaseLock (Some p) ropts2 st1 = ((bool_decide (resp = None), resp), st2) /\
    trace st2 = trace st1 ++ [ev] /\ isStoreCall ev = true /\
    callKey ev = Some (getItemKeys c l) /\
    callCondition ev =
      Some (ownershipLockCondition (partitionKeyName c) (lk_recordVersionNumber l)
              (lk_ownerName l)) /\
    heap st2 !! p = Some (set_isReleased l true).
Proof.
  intros Hopen Hp Hown c st1. subst c st1.
  destruct (releaseLock_state p ropts1 st) as [_ Heq1].
  rewrite Hp in Heq1. cbn [default from_option] in Heq1. unfold id in Heq1.
  destruct (Heq1 Hown) as (resp1 & ev1 & w1 & Hrl1 & _).
  assert (H1 : ReleaseLock (Some p) ropts1 st = ((bool_decide (resp1 = None), resp1),
                 snd (releaseLock (Some p) ropts1 st))).
  { unfold ReleaseLock, isClosed. unfold bind, getClient, ret. rewrite Hopen.
    rewrite Hrl1. reflexivity. }
  rewrite H1, Hrl1. cbn [snd].
  match goal with
  | |- context [ReleaseLock (Some p) ropts2 ?s] =>
      destruct (releaseLock_state p ropts2 s) as [_ Heq2]
  end.
  cbn [heap client] in Heq2. rewrite lookup_insert_eq in Heq2.
  cbn [default from_option] in Heq2. unfold id in Heq2.
  cbn [lk_ownerName set_isReleased set_locks ownerName] in Heq2.
  destruct (Heq2 Hown) as (resp & ev & w & Hrl & Hcall & Hkey & Hcond).
  exists resp, ev. eexists. split.
  { unfold ReleaseLock, isClosed. unfold bind, getClient, ret.
    cbn [client set_locks closed]. rewrite Hopen, Hrl. reflexivity. }
  cbn [trace heap]. split; [reflexivity|]. split; [exact Hcall|].
  split; [rewrite Hkey; reflexivity|]. split; [rewrite Hcond; reflexivity|].
  rewrite lookup_insert_eq. reflexivity.
Qed.

End Endings.

Module MoreWitnesses.

Import MemStore Scenario Cases.

Ltac computed := vm_compute; reflexivity.

(** X2 at work: the row A would put for "k" with data [01], read back. *)
Lemma createLockItem_proposedItem_witness :
  fst (createLockItem optionsB0
         (proposedItem clientA optionsB0 (Some [x01]) "r1") opening) =
    (Some (mkLock "k" None (Some [x01]) false "A" (20 * Second) 0 "r1" false ∅ None),
     None).
Proof.
  rewrite (createLockItem_proposedItem clientA optionsB0 (Some [x01]) "r1"
             optionsB0 opening).
  - computed.
  - computed.
  - vm_compute. discriminate.
  - computed.
  - intros k _. computed.
  - vm_compute. discriminate.
Defined.

(** X3 at work: A asks for the lock it holds. *)
Lemma get_without_store_witness :
  get "k" afterA = ((Some 0%nat, None), afterA).
Proof.
  rewrite (get_without_store "k" afterA).
  - computed.
  - right. right. exists 0%nat. computed.
Defined.

(** X4 at work: B asks for the lock A holds and gets a handle that names
    A, with no RVN. *)
Lemma get_from_store_witness :
  exists p l,
    fst (get "k" readerB) = (Some p, None) /\
    heap (snd (get "k" readerB)) !! p = Some l /\
    lk_ownerName l = "A" /\ lk_recordVersionNumber l = "" /\
    locks (client (snd (get "k" readerB))) = ∅.
Proof.
  destruct (get_from_store "k" readerB) as (_ & Hc & Hread); try computed.
  vm_compute in Hread. destruct Hread as (Hr & _ & _).
  eexists _, _. split; [exact Hr|].
  split; [computed|]. split; [computed|]. split; computed.
Defined.

(** X5 at work: A's acquire on an empty table returns a new handle,
    registered under "k". *)
Lemma acquireLock_outcome_witness :
  acquireLock 1 "k" [WithData (Some [x01])] opening =
    (Some (Some 0%nat, None), afterA) /\
  locks (client afterA) !! "k" = Some 0%nat /\
  exists l, heap afterA !! 0%nat = Some l /\ lk_ownerName l = "A".
Proof.
  assert (Hacq : acquireLock 1 "k" [WithData (Some [x01])] opening =
                 (Some (Some 0%nat, None), afterA)) by computed.
  split; [exact Hacq|].
  destruct (acquireLock_outcome 1 "k" [WithData (Some [x01])] opening
              (Some 0%nat, None) afterA)
    as (_ & _ & Hreg & l & _ & _ & _ & Hl & _ & _ & Hown & _).
  - repeat constructor.
  - exact Hacq.
  - split; [rewrite Hreg; apply lookup_insert_eq|].
    exists l. split; [rewrite Hl; apply lookup_insert_eq | exact Hown].
Defined.

(** X8 at work: the calls of A's acquire. *)
Lemma acquireLock_calls_witness :
  Forall (acquireCall clientA "k" (1 * Second))
    (newEvents opening (snd (acquireLock 1 "k" [WithData (Some [x01])] opening))).
Proof.
  apply (acquireLock_calls 1 "k" [WithData (Some [x01])] opening).
  repeat constructor.
Defined.

(** X9 at work: the rows of B's acquire with an attribute of its own. *)
Lemma acquireLock_rows_witness :
  Forall (putsEngineColumns clientB "k" userIsReleased)
    (newEvents (switch opening clientB)
       (snd (acquireLock 1 "k" [WithAdditionalAttributes userIsReleased]
               (switch opening clientB)))).
Proof.
  apply (acquireLock_rows 1 "k" [WithAdditionalAttributes userIsReleased]
           (switch opening clientB)).
  repeat constructor.
Defined.

(** X10 at work: the registry of A, holding "k", through a release. *)
Lemma registryOK_kept_witness :
  registryOK afterA /\ registryOK (snd (ReleaseLock (Some 0%nat) [] afterA)).
Proof.
  assert (Hok : registryOK afterA).
  { intros k p Hk. change (locks (client afterA)) with ({[ "k" := 0%nat ]} : gmap string nat) in Hk.
    apply lookup_singleton_Some in Hk as [<- <-].
    eexists. split; [computed|]. split; [computed|]. split; computed. }
  split; [exact Hok|].
  destruct (registryOK_kept afterA Hok) as (_ & _ & Hrel & _). apply Hrel.
Defined.

(** X11 at work: A closes while holding "k1" and "k2". *)
Lemma Close_releases_all_witness :
  fst (Close heldTwo) = None /\
  locks (client (snd (Close heldTwo))) = ∅ /\
  exists evs,
    trace (snd (Close heldTwo)) = trace heldTwo ++ evs /\ length evs = 2%nat.
Proof.
  assert (Hok : registryOK heldTwo).
  { intros k p Hk.
    change (locks (client heldTwo))
      with (<["k2" := 1%nat]> ({[ "k1" := 0%nat ]}) : gmap string nat) in Hk.
    apply lookup_insert_Some in Hk as [[<- <-] | [_ Hk]].
    - eexists. split; [computed|]. split; [computed|]. split; computed.
    - apply lookup_singleton_Some in Hk as [<- <-].
      eexists. split; [computed|]. split; [computed|]. split; computed. }
  split; [computed|].
  destruct (Close_releases_all heldTwo) as (Hl & _ & evs & Htr & _ & Hlen).
  - computed.
  - exact Hok.
  - computed.
  - split; [exact Hl|]. exists evs. split; [exact Htr|]. rewrite Hlen. computed.
Defined.

(** X6 at work: A's acquire with a session monitor starts one watcher. *)
Lemma acquireLock_monitor_witness :
  monitors watched = [("k", 0%nat)] /\
  sessionMonitorCancellations (client watched) !! "k" = Some 0%nat /\
  cancelled watched = [].
Proof.
  destruct (acquireLock_monitor 1 "k" [WithSessionMonitor (4 * Second) (Some 7%nat)]
              opening 0%nat None watched) as (Hc & Hm & Hs).
  - repeat constructor.
  - computed.
  - split; [exact Hm|]. split; [rewrite Hs; apply lookup_insert_eq | exact Hc].
Defined.

(** X7 at work: A finds the lock it has just acquired. *)
Lemma acquireLock_then_get_witness :
  get "k" afterA = ((Some 0%nat, None), afterA).
Proof.
  apply (acquireLock_then_get 1 "k" [WithData (Some [x01])] opening 0%nat None afterA).
  - repeat constructor.
  - computed.
  - computed.
Defined.

(** X12 at work: A releases the lock it has just acquired, under the RVN
    its put wrote. *)
Lemma acquireLock_then_release_witness :
  exists rvn ev st2,
    storedAttr afterA "k" "recordVersionNumber" = Some (AttributeValueMemberS rvn) /\
    ReleaseLock (Some 0%nat) [] afterA = ((true, None), st2) /\
    trace st2 = trace afterA ++ [ev] /\
    callCondition ev = Some (ownershipLockCondition "key" rvn "A").
Proof.
  destruct (acquireLock_then_release 1 "k" [WithData (Some [x01])] [] opening
              0%nat None afterA)
    as (rvn & it & cond & evs & resp & ev & st2 & Htr & Hrvn & Hrel & Htr2 & _ & _ &
        Hcond & _).
  - repeat constructor.
  - computed.
  - assert (Hresp : resp = None).
    { assert (H : snd (fst (ReleaseLock (Some 0%nat) [] afterA)) = resp)
        by (rewrite Hrel; reflexivity).
      vm_compute in H. congruence. }
    subst resp.
    assert (Hit : rvn = "18C8CDVsFT1KtVQ3HBmRp69FQKg7K092").
    { assert (H : last (trace afterA) =
                  Some (EvPutItem (mkPutItemInput it (tableName (client opening)) cond)
                          None))
        by (rewrite Htr, app_assoc; apply last_snoc).
      vm_compute in H. injection H as <- _. vm_compute in Hrvn. congruence. }
    exists rvn, ev, st2. split; [rewrite Hit; computed|].
    split; [exact Hrel|]. split; [exact Htr2 | exact Hcond].
Defined.

(** X13 at work: a provisioned table with a tag. *)
Lemma CreateTable_request_witness :
  exists req,
    trace (snd (ClientWithSortKey_CreateTable (mkClientWithSortKey "sort")
                  tableOptions opening)) =
      [EvCreateTable req (Some "locks", None)] /\
    ct_KeySchema req = [("key", KeyTypeHash); ("sort", KeyTypeRange)] /\
    ct_BillingMode req = "PROVISIONED".
Proof.
  destruct (CreateTable_request (mkClientWithSortKey "sort") tableOptions opening)
    as (req & Htr & _ & _ & Hks & _ & Hbm & _).
  - computed.
  - repeat constructor.
  - exists req. split; [exact Htr|]. split; [exact Hks|].
    apply Hbm. exists (Some (5, 5)%Z). left. reflexivity.
Defined.

(** X14 at work: B cannot release A's lock through the handle [get] gave
    it. *)
Lemma get_then_release_witness :
  exists l,
    heap (snd (get "k" readerB)) !! 1%nat = Some l /\
    lk_recordVersionNumber l = "" /\
    ReleaseLock (Some 1%nat) [] (snd (get "k" readerB)) =
      ((false, Some ErrOwnerMismatched), snd (get "k" readerB)).
Proof.
  destruct (get_then_release "k" [] readerB 1%nat (snd (get "k" readerB)))
    as (l & Hl & Hrvn & _ & Hne & _); try computed.
  exists l. split; [exact Hl|]. split; [exact Hrvn|].
  apply Hne. vm_compute in Hl. injection Hl as <-. vm_compute. discriminate.
Defined.

(** X16 at work: a client with a lease of ten seconds and a heartbeat
    every two. *)
Lemma NewWithSortKey_spec_witness :
  exists c w,
    NewWithSortKey "locks" "key" "sort" clientOptions emptyWorld =
      ((Some (c, true, mkClientWithSortKey "sort"), None), w) /\
    locks c = ∅ /\ closed c = false /\ leaseDuration c = 10 * Second.
Proof.
  pose proof (NewWithSortKey_spec "locks" "key" "sort" clientOptions emptyWorld) as H.
  cbv zeta in H.
  destruct (NewWithSortKey "locks" "key" "sort" clientOptions emptyWorld)
    as [[[[[c b] cs]|] err] w] eqn:E.
  - destruct H as (-> & _ & Hcs & _ & _ & _ & Hl & _ & Hc & _); [repeat constructor|].
    vm_compute in E. injection E as <- <- <- <-.
    eexists _, _. split; [reflexivity|]. split; [exact Hl|]. split; [exact Hc|].
    computed.
  - vm_compute in E. discriminate E.
Defined.

(** X17 at work: the store fails A's first read. *)
Lemma acquireLock_read_error_witness :
  exists st1 res,
    acquireLock 1 "k" [] failing = (Some (None, Some (StoreError "unavailable")), st1) /\
    trace st1 = [EvGetItem (readRequest clientA "k") res].
Proof.
  destruct (acquireLock_read_error 0 "k" [] failing None (StoreError "unavailable")
              (snd (getLockFromDynamoDB
                      (initialGetLockOptions (defaultOptions "k") 0) failing)))
    as (Hacq & _ & res & Htr); try computed.
  eexists _, res. split; [exact Hacq | exact Htr].
Defined.

(** X18 at work: B's context ends while B waits for A's lock. *)
Lemma acquireLoop_cancelled_witness :
  exists st',
    acquireLoop 3 optionsB0 hurried =
      (Some (None, Some (ContextError "context canceled")), st') /\
    heap st' = heap hurried /\ client st' = clientB.
Proof.
  eexists. split.
  - apply (acquireLoop_cancelled 2 optionsB0 hurried
             (fst (fst (storeLock optionsB0 hurried)))
             (snd (storeLock optionsB0 hurried))
             (ContextError "context canceled")
             (snd (wait (1 * Second) (world (snd (storeLock optionsB0 hurried)))))).
    + computed.
    + computed.
  - split; computed.
Defined.

(** X19 at work: A releases "k" twice. *)
Lemma ReleaseLock_again_witness :
  exists resp ev st2,
    ReleaseLock (Some 0%nat) [] (snd (ReleaseLock (Some 0%nat) [] afterA)) =
      ((bool_decide (resp = None), resp), st2) /\
    isStoreCall ev = true /\
    trace st2 = trace (snd (ReleaseLock (Some 0%nat) [] afterA)) ++ [ev].
Proof.
  destruct (ReleaseLock_again 0%nat handleA [] [] afterA)
    as (resp & ev & st2 & Hrel & Htr & Hcall & _); try computed.
  exists resp, ev, st2. split; [exact Hrel|]. split; [exact Hcall | exact Htr].
Defined.

(** C10 at work: B acquires "k" on an empty table with a user attribute
    [isReleased]; the acquire returns a lock, the put that the store
    accepted carries the attribute, the row stored has it, and A's read of
    the row decodes a released lock. *)
Lemma acquireLock_isReleased_attribute_witness :
  closed (client (start emptyWorld clientB)) = false /\
  fst (acquireLock 1 "k" [WithAdditionalAttributes userIsReleased]
         (start emptyWorld clientB)) = Some (Some 0%nat, None) /\
  (exists evs req,
     newEvents (start emptyWorld clientB) flagged = evs ++ [EvPutItem req None] /\
     pi_Item req !! attrIsReleased = Some (AttributeValueMemberS "0")) /\
  storedAttr flagged "k" "isReleased" = Some (AttributeValueMemberS "0") /\
  exists lock,
    fst (getLockFromDynamoDB optionsB0 (switch flagged clientA)) = (Some lock, None) /\
    lk_isReleased lock = true.
Proof.
  split; [computed|]. split; [computed|].
  destruct (acquireLock_isReleased_attribute 0 "k"
              [WithAdditionalAttributes userIsReleased]
              (start emptyWorld clientB) (AttributeValueMemberS "0"))
    as (_ & _ & _ & Hgrant & Hread); try computed.
  destruct (Hgrant 0%nat None) as (evs & req & Hev & _ & Hit); [computed|].
  split; [exists evs, req; split; [exact Hev | exact Hit]|].
  split; [computed|].
  assert (Hlast : last (newEvents (start emptyWorld clientB) flagged) =
                  Some (EvPutItem req None))
    by (unfold flagged; rewrite Hev; apply last_snoc).
  assert (Hin : In (EvPutItem req None)
                  (newEvents (start emptyWorld clientB) flagged)).
  { unfold flagged. rewrite Hev. apply in_or_app. right. left. reflexivity. }
  apply (Hread req None Hin optionsB0 (switch flagged clientA)
           (snd (readFromDynamoDB "k" (switch flagged clientA)))).
  vm_compute in Hlast. injection Hlast as <-. computed.
Defined.

End MoreWitnesses.
